(** * Snapshot ensemble: scheduling, snapshot collection and checkpoint gate

    A shallow embedding of [torchensemble/snapshot_ensemble.py]:
    [_BaseSnapshotEnsemble] ([_validate_parameters], [_forward], [_clip_lr],
    [_set_scheduler]) and the [fit] / [forward] methods of
    [SnapshotEnsembleClassifier] and [SnapshotEnsembleRegressor].

    Conventions of the embedding.
    - Python [int] is [Z]; [%] and [//] are [Z.modulo] and [Z.div] (both
      follow the sign of the divisor, as in Python) and raise
      [ZeroDivisionError] on a zero divisor.
    - Python and torch floating-point numbers are idealised as real numbers
      ([R]); rounding, overflow and NaN are outside the embedding. The one
      exception is the scheduler's multiplier, which is modelled a second
      time with its float64 and float32 roundings (section Floating point).
    - A raised exception is the [Raise] branch of [Result]. [fit] runs in
      [M], which also threads what [fit] mutates (the ensemble object and
      the persistence target) and keeps it across a raise.
    - Console output ([print]) never influences control flow and is left
      out; so are the device transfers and [save_dir]. *)

From Stdlib Require Import Reals Lra Lia ZArith List Bool Permutation.
From Stdlib Require Import Machin.
From Stdlib Require String Ascii.
Import ListNotations.

Set Implicit Arguments.

(** ** Exceptions and the error monad *)

(** The [ValueError] messages of [_validate_parameters], one per raise. *)
Inductive Rejected : Type :=
| BadInitLr          (* "initial learning rate ... should be strictly positive" *)
| BadLrClipType      (* "lr_clip should be a list or tuple with two elements" *)
| BadLrClipLength    (* "lr_clip should only have two elements ..." *)
| BadLrClipOrder     (* "The first element ... should be smaller than the second" *)
| BadWeightDecay     (* "weight decay ... should not be negative" *)
| BadEpochs          (* "number of training epochs ... strictly positive" *)
| BadLogInterval     (* "number of batches to wait ... strictly positive" *)
| BadMultiple.       (* "epochs ... should be a multiple of n_estimators" *)

Inductive Exn : Type :=
| ValueError (why : Rejected)
| ZeroDivisionError
| AttributeError
| IndexError
| TypeError.

Inductive Result (A : Type) : Type :=
| Ok (a : A)
| Raise (e : Exn).
Arguments Ok {A} a.
Arguments Raise {A} e.

Definition bind {A B : Type} (m : Result A) (k : A -> Result B) : Result B :=
  match m with
  | Ok a => k a
  | Raise e => Raise e
  end.

Notation "x <- m ;; k" := (bind m (fun x => k))
  (at level 61, m at next level, right associativity).
Notation "m ;;; k" := (bind m (fun _ => k))
  (at level 61, right associativity).

(** [if cond: raise e] *)
Definition raise_if (cond : bool) (e : Exn) : Result unit :=
  if cond then Raise e else Ok tt.

(** A [for] loop over a finite sequence, threading the loop state and
    stopping at the first exception. *)
Fixpoint for_each {A S : Type} (xs : list A) (body : A -> S -> Result S)
  (s : S) : Result S :=
  match xs with
  | [] => Ok s
  | x :: xs' => s' <- body x s ;; for_each xs' body s'
  end.

(** [range(n)]; empty when [n <= 0]. *)
Definition range (n : Z) : list Z :=
  map Z.of_nat (seq 0 (Z.to_nat n)).

(** ** Python arithmetic *)

(** [a % b] on integers. *)
Definition pymod (a b : Z) : Result Z :=
  if (b =? 0)%Z then Raise ZeroDivisionError else Ok (a mod b)%Z.

(** [a // b] on integers. *)
Definition pyfloordiv (a b : Z) : Result Z :=
  if (b =? 0)%Z then Raise ZeroDivisionError else Ok (a / b)%Z.

(** [math.ceil(a / b)] on integers: the least integer not below the
    quotient. *)
Definition pyceildiv (a b : Z) : Result Z :=
  if (b =? 0)%Z then Raise ZeroDivisionError else Ok (- ((- a) / b))%Z.

(** Comparisons of floats, as booleans. *)
Definition Rltb (x y : R) : bool := if Rlt_dec x y then true else false.
Definition Rgtb (x y : R) : bool := Rltb y x.
Definition Rgeb (x y : R) : bool := if Rge_dec x y then true else false.

(** ** The [lr_clip] argument

    [lr_clip] is untyped in the source: [None] (the default), a list or a
    tuple of numbers, or some other object, of which only the truth value
    matters to the code. *)
Inductive LrClip : Type :=
| ClipNone
| ClipList (elems : list R)
| ClipTuple (elems : list R)
| ClipOther (truth : bool).

(** Python truth value, as tested by [if lr_clip:] and [if not lr_clip:]. *)
Definition truthy (c : LrClip) : bool :=
  match c with
  | ClipNone => false
  | ClipList l | ClipTuple l => negb (Nat.eqb (length l) 0)
  | ClipOther b => b
  end.

(** [isinstance(lr_clip, list) or isinstance(lr_clip, tuple)] *)
Definition is_list_or_tuple (c : LrClip) : bool :=
  match c with
  | ClipList _ | ClipTuple _ => true
  | _ => false
  end.

(** [len(lr_clip)] *)
Definition clip_len (c : LrClip) : Result Z :=
  match c with
  | ClipList l | ClipTuple l => Ok (Z.of_nat (length l))
  | _ => Raise TypeError
  end.

(** [lr_clip[i]] *)
Definition clip_item (c : LrClip) (i : nat) : Result R :=
  match c with
  | ClipList l | ClipTuple l =>
      match nth_error l i with
      | Some x => Ok x
      | None => Raise IndexError
      end
  | _ => Raise TypeError
  end.

(** ** The optimizer and the scheduler *)

(** The optimizer: the [lr] field of each parameter group, and its other
    internal buffers (moments and the like), opaque here. *)
Record Optimizer (Buf : Type) : Type := mkOptimizer {
  param_groups : list R;
  buffers : Buf
}.

(** One parameter group of [_clip_lr]: the two [if]s in sequence. *)
Definition clip_group (lo hi lr : R) : R :=
  let lr := if Rltb lr lo then lo else lr in
  let lr := if Rgtb lr hi then hi else lr in
  lr.

(** [_BaseSnapshotEnsemble._clip_lr] *)
Definition _clip_lr {Buf : Type} (optimizer : Optimizer Buf) (lr_clip : LrClip)
  : Result (Optimizer Buf) :=
  if negb (truthy lr_clip) then Ok optimizer
  else
    groups <-
      for_each (param_groups optimizer)
        (fun lr done =>
           lo <- clip_item lr_clip 0 ;;
           let lr := if Rltb lr lo then lo else lr in
           hi <- clip_item lr_clip 1 ;;
           let lr := if Rgtb lr hi then hi else lr in
           Ok (done ++ [lr]))
        [] ;;
    Ok (mkOptimizer groups (buffers optimizer)).

(** The multiplier [lr_lambda] built by [_set_scheduler], for period [T_M]. *)
Definition lr_lambda (T_M : Z) (iteration : Z) : Result R :=
  phase <- pymod iteration T_M ;;
  Ok (0.5 * (cos (PI * IZR phase / IZR T_M) + 1))%R.

(** [torch.optim.lr_scheduler.LambdaLR]: the rates the optimizer was built
    with, and the number of [step] calls so far. *)
Record LambdaLR : Type := mkLambdaLR {
  T_M : Z;
  base_lrs : list R;
  last_epoch : Z
}.

(** The rates a scheduler prescribes at its current [last_epoch]:
    [base_lr * lr_lambda(last_epoch)] for each group. *)
Definition get_lr (sch : LambdaLR) : Result (list R) :=
  m <- lr_lambda (T_M sch) (last_epoch sch) ;;
  Ok (map (fun base_lr => (base_lr * m)%R) (base_lrs sch)).

(** [scheduler.step()]: advance [last_epoch] and write the new rates into
    the optimizer. *)
Definition scheduler_step {Buf : Type} (sch : LambdaLR) (optimizer : Optimizer Buf)
  : Result (LambdaLR * Optimizer Buf) :=
  let sch' := mkLambdaLR (T_M sch) (base_lrs sch) (last_epoch sch + 1) in
  lrs <- get_lr sch' ;;
  Ok (sch', mkOptimizer lrs (buffers optimizer)).

(** [_BaseSnapshotEnsemble._set_scheduler]: [LambdaLR]'s constructor records
    the optimizer's rates as [base_lrs] and performs the initial step, which
    evaluates [lr_lambda(0)]. *)
Definition _set_scheduler {Buf : Type} (n_estimators : Z)
  (optimizer : Optimizer Buf) (n_iters : Z)
  : Result (LambdaLR * Optimizer Buf) :=
  T <- pyceildiv n_iters n_estimators ;;
  scheduler_step (mkLambdaLR T (param_groups optimizer) (-1)) optimizer.

(** ** Floating point

    The multiplier once more, as the code computes it: [math.ceil] of a
    true division and [math.pi * phase / T_M] in Python floats (binary64),
    [torch.tensor] of the angle, [torch.cos], [+ 1] and [0.5 *] in float32.
    A floating-point number is the real number it stands for, and
    [round_ne prec] rounds a real to the nearest number of [prec]
    significant bits, ties to even. The exponent is unbounded: for periods
    below [2 ^ 53] the quantities below neither overflow nor underflow. *)

(** [floor] and [ceil] of a real number. *)
Definition Zfloor (x : R) : Z := (up x - 1)%Z.
Definition Zceil (x : R) : Z := (- Zfloor (- x))%Z.

(** The nearest integer, ties to even. *)
Definition Znearest_even (x : R) : Z :=
  let f := Zfloor x in
  if Rltb (x - IZR f) (1 / 2) then f
  else if Rltb (1 / 2) (x - IZR f) then (f + 1)%Z
  else if Z.even f then f else (f + 1)%Z.

(** Powers of two, and the binary magnitude of a non-zero real: the [e]
    with [2 ^ (e - 1) <= |x| < 2 ^ e]. *)
Definition bpow (e : Z) : R := powerRZ 2 e.
Definition mag (x : R) : Z := (Zfloor (ln (Rabs x) / ln 2) + 1)%Z.

Definition round_ne (prec : Z) (x : R) : R :=
  if Req_dec_T x 0 then 0%R
  else
    let e := (mag x - prec)%Z in
    (IZR (Znearest_even (x * bpow (- e))) * bpow e)%R.

(** Python [float] (binary64) and torch [float32]. *)
Definition float64 : R -> R := round_ne 53.
Definition float32 : R -> R := round_ne 24.

(** [math.pi], the binary64 number nearest to pi. *)
Definition math_pi : R := (884279719003555 / 281474976710656)%R.

(** An [int] operand of a float operation. *)
Definition float_of_int (n : Z) : R := float64 (IZR n).

(** [torch.cos] on a float32 tensor, taken as the correctly rounded
    cosine. *)
Definition torch_cos (x : R) : R := float32 (cos x).

(** [math.ceil(a / b)] on integers: the true division of two [int]s is
    the correctly rounded quotient. *)
Definition math_ceil_truediv (a b : Z) : Result Z :=
  if (b =? 0)%Z then Raise ZeroDivisionError
  else Ok (Zceil (float64 (IZR a / IZR b))).

(** [torch.tensor(math.pi * phase / T_M)] *)
Definition angle32 (T_M phase : Z) : R :=
  float32 (float64 (float64 (math_pi * float_of_int phase) / float_of_int T_M)).

(** [0.5 * (torch.cos(angle) + 1)] *)
Definition multiplier32 (T_M phase : Z) : R :=
  float32 (0.5 * float32 (torch_cos (angle32 T_M phase) + 1)).

(** The multiplier [lr_lambda] built by [_set_scheduler], in floating
    point. *)
Definition lr_lambda_float32 (T_M : Z) (iteration : Z) : Result R :=
  phase <- pymod iteration T_M ;;
  Ok (multiplier32 T_M phase).

(** ** Tensors

    A two-dimensional tensor is the list of its rows. *)
Definition Tensor : Type := list (list R).

(** [torch.zeros(rows, cols)] *)
Definition zeros (rows cols : nat) : Tensor := repeat (repeat 0%R cols) rows.

Fixpoint zip_with {A B C : Type} (f : A -> B -> C) (xs : list A) (ys : list B)
  : list C :=
  match xs, ys with
  | x :: xs', y :: ys' => f x y :: zip_with f xs' ys'
  | _, _ => []
  end.

(** Elementwise sum of two tensors of one shape. *)
Definition tensor_add (a b : Tensor) : Tensor := zip_with (zip_with Rplus) a b.

(** A tensor divided by a number. *)
Definition tensor_div (a : Tensor) (c : R) : Tensor :=
  map (map (fun x => (x / c)%R)) a.

(** [shape t rows cols]: [t] has [rows] rows of [cols] entries each. *)
Definition shape (t : Tensor) (rows cols : nat) : Prop :=
  length t = rows /\ Forall (fun row => length row = cols) t.

Definition Rsum (xs : list R) : R := fold_right Rplus 0%R xs.

(** [F.softmax(., dim=1)] on one row, and on every row. *)
Definition softmax_row (row : list R) : list R :=
  let z := Rsum (map exp row) in
  map (fun x => (exp x / z)%R) row.

Definition softmax (t : Tensor) : Tensor := map softmax_row t.

(** ** The ensemble object *)

(** The attributes of [_BaseSnapshotEnsemble] the code below reads or
    writes. [n_outputs] is assigned by [fit] only: it is [None] on an object
    on which [fit] was never entered. *)
Record Ensemble (Model : Type) : Type := mkEnsemble {
  n_estimators : Z;
  n_outputs : option nat;
  estimators_ : list Model
}.

Inductive OptimizerKind : Type := SGD | Adam | RMSprop.

(** The collaborators the core relies on and does not define: the base
    estimator and its forward pass, the data loaders, the optimizer
    ([utils.set_optimizer] and the forward, loss, backward and
    [optimizer.step()] of one batch), [BaseModule._decide_n_outputs] and
    [BaseModule._make_estimator], and the two validation sweeps of [fit]
    (accuracy in percent over the test loader, mean of the per-batch mean
    squared errors), each a function of the ensemble at the time it runs.
    The collaborators are taken to return normally; a sweep only runs on a
    test loader with at least one batch. *)
Class Collaborators : Type := {
  Model : Type;
  Batch : Type;
  TestBatch : Type;
  Buf : Type;
  estimator_forward : Model -> Tensor -> Tensor;
  _decide_n_outputs : list Batch -> bool -> nat;
  _make_estimator : Model;
  set_optimizer : Model -> OptimizerKind -> R -> R -> Optimizer Buf;
  train_step : Model -> Optimizer Buf -> Batch -> Model * Buf;
  validation_accuracy : Ensemble Model -> list TestBatch -> R;
  validation_mse : Ensemble Model -> list TestBatch -> R
}.

Section Core.
Context `{Collaborators}.

(** The [if lr_clip:] block of [_validate_parameters]. *)
Definition check_lr_clip (lr_clip : LrClip) : Result unit :=
  if truthy lr_clip then
    raise_if (negb (is_list_or_tuple lr_clip)) (ValueError BadLrClipType) ;;;
    len <- clip_len lr_clip ;;
    raise_if (negb (len =? 2)%Z) (ValueError BadLrClipLength) ;;;
    lo <- clip_item lr_clip 0 ;;
    hi <- clip_item lr_clip 1 ;;
    raise_if (negb (Rltb lo hi)) (ValueError BadLrClipOrder)
  else Ok tt.

(** [_BaseSnapshotEnsemble._validate_parameters] *)
Definition _validate_parameters (self : Ensemble Model)
  (init_lr : R) (lr_clip : LrClip) (weight_decay : R) (epochs : Z)
  (log_interval : Z) : Result unit :=
  raise_if (negb (Rgtb init_lr 0)) (ValueError BadInitLr) ;;;
  check_lr_clip lr_clip ;;;
  raise_if (negb (Rgeb weight_decay 0)) (ValueError BadWeightDecay) ;;;
  raise_if (negb (epochs >? 0)%Z) (ValueError BadEpochs) ;;;
  raise_if (negb (log_interval >? 0)%Z) (ValueError BadLogInterval) ;;;
  r <- pymod epochs (n_estimators self) ;;
  raise_if (negb (r =? 0)%Z) (ValueError BadMultiple).

(** [_BaseSnapshotEnsemble._forward] *)
Definition _forward (self : Ensemble Model) (X : Tensor) : Result Tensor :=
  let batch_size := length X in
  match n_outputs self with
  | None => Raise AttributeError
  | Some n_outputs =>
      let output := zeros batch_size n_outputs in
      Ok (fold_left
            (fun output estimator =>
               tensor_add output
                 (tensor_div (estimator_forward estimator X)
                             (INR (length (estimators_ self)))))
            (estimators_ self) output)
  end.

(** ** [fit]: mutable state

    What [fit] mutates and what outlives it, also when it raises: the
    ensemble object, and the persistence target, kept as the sequence of
    [utils.save] calls, each with the snapshots it wrote. *)
Record World : Type := mkWorld {
  self_ : Ensemble Model;
  saved : list (list Model)
}.

(** A computation that may mutate the world and may raise; the world at the
    time of the raise is kept. *)
Definition M (A : Type) : Type := World -> World * Result A.

Definition ret {A : Type} (a : A) : M A := fun w => (w, Ok a).

Definition bindM {A B : Type} (m : M A) (k : A -> M B) : M B :=
  fun w =>
    match m w with
    | (w', Ok a) => k a w'
    | (w', Raise e) => (w', Raise e)
    end.

(** A computation that only may raise. *)
Definition lift {A : Type} (r : Result A) : M A := fun w => (w, r).

Definition get_self : M (Ensemble Model) := fun w => (w, Ok (self_ w)).

(** [self.n_outputs = n] *)
Definition set_n_outputs (n : nat) : M unit :=
  fun w =>
    (mkWorld (mkEnsemble (n_estimators (self_ w)) (Some n)
                         (estimators_ (self_ w)))
             (saved w),
     Ok tt).

(** [self.estimators_.append(snapshot)] *)
Definition append_estimator (snapshot : Model) : M unit :=
  fun w =>
    (mkWorld (mkEnsemble (n_estimators (self_ w)) (n_outputs (self_ w))
                         (estimators_ (self_ w) ++ [snapshot]))
             (saved w),
     Ok tt).

(** [utils.save(self, save_dir, self.verbose)]: the whole ensemble as it is
    now is written to the target. *)
Definition save : M unit :=
  fun w => (mkWorld (self_ w) (saved w ++ [estimators_ (self_ w)]), Ok tt).

Notation "x <~ m ;; k" := (bindM m (fun x => k))
  (at level 61, m at next level, right associativity).
Notation "m ;;~ k" := (bindM m (fun _ => k))
  (at level 61, right associativity).

(** A [for] loop whose body may mutate the world. *)
Fixpoint for_eachM {A S : Type} (xs : list A) (body : A -> S -> M S) (s : S)
  : M S :=
  match xs with
  | [] => ret s
  | x :: xs' => s' <~ body x s ;; for_eachM xs' body s'
  end.

(** What separates the two [fit] methods: the flag given to
    [_decide_n_outputs], the initial best score, the test for a better
    score, and the validation sweep. *)
Record Task : Type := mkTask {
  Score : Type;
  is_classification : bool;
  best_init : Score;
  improves : Score -> Score -> bool;
  sweep : Ensemble Model -> list TestBatch -> Score
}.

(** The local variables of [fit] that change during training. *)
Record Locals (T : Task) : Type := mkLocals {
  estimator_ : Model;
  optimizer : Optimizer Buf;
  scheduler : LambdaLR;
  best : Score T;
  counter : Z
}.

(** Truth value of the [test_loader] argument: [None] is false, and a
    [DataLoader] is true when its length (its number of batches) is not
    zero. *)
Definition loader_truthy (test_loader : option (list TestBatch)) : bool :=
  match test_loader with
  | None => false
  | Some batches => negb (Nat.eqb (length batches) 0)
  end.

Definition loader_batches (test_loader : option (list TestBatch))
  : list TestBatch :=
  match test_loader with
  | None => []
  | Some batches => batches
  end.

Section Fit.
Variable T : Task.
Variable train_loader : list Batch.
Variables (init_lr : R) (lr_clip : LrClip) (weight_decay : R) (epochs : Z).
Variables (optimizer_name : OptimizerKind) (log_interval : Z).
Variable test_loader : option (list TestBatch).
Variable save_model : bool.

(** The body of the inner loop, for one batch: clip, forward, loss,
    backward and update, then [scheduler.step()] and [counter += 1]. *)
Definition fit_batch (batch : Batch) (l : Locals T) : Result (Locals T) :=
  optimizer <- _clip_lr (optimizer l) lr_clip ;;
  let '(estimator_, buf) := train_step (estimator_ l) optimizer batch in
  let optimizer := mkOptimizer (param_groups optimizer) buf in
  stepped <- scheduler_step (scheduler l) optimizer ;;
  let '(scheduler, optimizer) := stepped in
  Ok (mkLocals T estimator_ optimizer scheduler (best l) (counter l + 1)%Z).

(** The validation block of [fit]: sweep, compare to the best score, and
    on a better score record it and (if [save_model]) save. *)
Definition fit_validate (batches : list TestBatch) (l : Locals T)
  : M (Locals T) :=
  self <~ get_self ;;
  let score := sweep T self batches in
  if improves T score (best l) then
    (if save_model then save else ret tt) ;;~
    ret (mkLocals T (estimator_ l) (optimizer l) (scheduler l) score
                  (counter l))
  else ret l.

(** The body of the outer loop, for one epoch. *)
Definition fit_epoch (n_iters_per_estimator : Z) (epoch : Z) (l : Locals T)
  : M (Locals T) :=
  l <~ lift (for_each train_loader fit_batch l) ;;
  r <~ lift (pymod (counter l) n_iters_per_estimator) ;;
  (if (r =? 0)%Z then append_estimator (estimator_ l) else ret tt) ;;~
  if loader_truthy test_loader && (r =? 0)%Z
  then fit_validate (loader_batches test_loader) l
  else ret l.

(** [fit], up to the training loop: [n_outputs], the parameter checks, the
    estimator, the optimizer, the scheduler, and the initial values of
    [best_acc] (or [best_mse]), [counter] and [n_iters_per_estimator]. *)
Definition fit_setup : M (Locals T * Z) :=
  set_n_outputs (_decide_n_outputs train_loader (is_classification T)) ;;~
  self <~ get_self ;;
  lift (_validate_parameters self init_lr lr_clip weight_decay epochs
                             log_interval) ;;~
  let estimator_ := _make_estimator in
  let optimizer := set_optimizer estimator_ optimizer_name init_lr weight_decay in
  let n_iters := (epochs * Z.of_nat (length train_loader))%Z in
  sch <~ lift (_set_scheduler (n_estimators self) optimizer n_iters) ;;
  let '(scheduler, optimizer) := sch in
  let best := best_init T in
  let counter := 0%Z in
  n_iters_per_estimator <~ lift (pyfloordiv n_iters (n_estimators self)) ;;
  ret (mkLocals T estimator_ optimizer scheduler best counter,
       n_iters_per_estimator).

(** [fit] of either class. The final locals are returned for observation;
    the Python method returns [None]. *)
Definition fit : M (Locals T) :=
  start <~ fit_setup ;;
  let '(l, n_iters_per_estimator) := start in
  l <~ for_eachM (range epochs) (fit_epoch n_iters_per_estimator) l ;;
  (if save_model && negb (loader_truthy test_loader) then save else ret tt) ;;~
  ret l.

(** The state [fit] is in when its first [m] epochs are over: the same
    computation with the training loop cut after [m] rounds. *)
Definition fit_upto (m : Z) : M (Locals T) :=
  start <~ fit_setup ;;
  let '(l, n_iters_per_estimator) := start in
  for_eachM (range m) (fit_epoch n_iters_per_estimator) l.

End Fit.

(** The best score of the regressor starts at [float("inf")]. *)
Inductive ExtR : Type :=
| PInf
| Fin (r : R).

Definition ExtR_ltb (a b : ExtR) : bool :=
  match a, b with
  | Fin x, Fin y => Rltb x y
  | Fin _, PInf => true
  | PInf, _ => false
  end.

(** [SnapshotEnsembleClassifier]: [best_acc = 0.], [acc > best_acc]. *)
Definition classifier : Task :=
  mkTask true 0%R (fun acc best_acc => Rgtb acc best_acc) validation_accuracy.

(** [SnapshotEnsembleRegressor]: [best_mse = float("inf")],
    [mse < best_mse]. *)
Definition regressor : Task :=
  mkTask false PInf (fun mse best_mse => ExtR_ltb mse best_mse)
    (fun self batches => Fin (validation_mse self batches)).

End Core.

Module SnapshotEnsembleClassifier.

(** [SnapshotEnsembleClassifier.forward] *)
Definition forward `{Collaborators} (self : Ensemble Model) (X : Tensor)
  : Result Tensor :=
  proba <- _forward self X ;;
  Ok (softmax proba).

(** [SnapshotEnsembleClassifier.fit] *)
Definition fit `{Collaborators} := fit classifier.

End SnapshotEnsembleClassifier.

Module SnapshotEnsembleRegressor.

(** [SnapshotEnsembleRegressor.forward] *)
Definition forward `{Collaborators} (self : Ensemble Model) (X : Tensor)
  : Result Tensor :=
  pred <- _forward self X ;;
  Ok pred.

(** [SnapshotEnsembleRegressor.fit] *)
Definition fit `{Collaborators} := fit regressor.

End SnapshotEnsembleRegressor.

(** * Vocabulary of the statements *)

(** [lr_clip] is the bound [(lo, hi)], given as a list or as a tuple. *)
Definition is_bound (lr_clip : LrClip) (lo hi : R) : Prop :=
  lr_clip = ClipList [lo; hi] \/ lr_clip = ClipTuple [lo; hi].

(** An [lr_clip] that the parameter checks let through: one whose truth
    value is false, or a bound with its ends in order. *)
Definition clip_accepted (lr_clip : LrClip) : Prop :=
  truthy lr_clip = false \/
  exists lo hi, is_bound lr_clip lo hi /\ (lo < hi)%R.

(** The configurations [_validate_parameters] lets through, for an
    ensemble of [n] estimators. *)
Definition config_accepted (n : Z) (init_lr : R) (lr_clip : LrClip)
  (weight_decay : R) (epochs log_interval : Z) : Prop :=
  (0 < init_lr)%R /\ clip_accepted lr_clip /\ (0 <= weight_decay)%R /\
  (0 < epochs)%Z /\ (0 < log_interval)%Z /\ (epochs mod n = 0)%Z.

(** The world [fit] starts from on a new ensemble of [n] estimators. *)
Definition fresh `{Collaborators} (n : Z) : World :=
  mkWorld (mkEnsemble n None []) [].

(** The world once [fit] has been entered: [n_outputs] is assigned, and
    nothing else has happened. *)
Definition entered `{Collaborators} (T : Task) (train_loader : list Batch)
  (w : World) : World :=
  mkWorld
    (mkEnsemble (n_estimators (self_ w))
                (Some (_decide_n_outputs train_loader (is_classification T)))
                (estimators_ (self_ w)))
    (saved w).

(** The order on best mean squared errors, [float("inf")] on top. *)
Definition ExtR_lt (a b : ExtR) : Prop :=
  match a, b with
  | Fin x, Fin y => (x < y)%R
  | Fin _, PInf => True
  | PInf, _ => False
  end.

Definition ExtR_le (a b : ExtR) : Prop :=
  match a, b with
  | _, PInf => True
  | PInf, Fin _ => False
  | Fin x, Fin y => (x <= y)%R
  end.

(** A result that is not a [ValueError]. *)
Definition quiet {A : Type} (r : Result A) : Prop :=
  match r with
  | Raise (ValueError _) => False
  | _ => True
  end.

(** The elementwise sum and arithmetic mean of tensors of [rows] by [cols]
    entries. *)
Definition tensor_sum (rows cols : nat) (ts : list Tensor) : Tensor :=
  fold_right tensor_add (zeros rows cols) ts.

Definition tensor_mean (rows cols : nat) (ts : list Tensor) : Tensor :=
  tensor_div (tensor_sum rows cols ts) (INR (length ts)).

(** A small instance of the collaborators, for concrete runs: a model is
    the number of updates it has received, it answers every input row with
    the logits [(updates, 0)], the optimizer has one parameter group, and
    the validation score is the number of snapshots. *)
Definition toy : Collaborators := {|
  Model := Z;
  Batch := unit;
  TestBatch := unit;
  Buf := unit;
  estimator_forward := fun m X => map (fun _ => [IZR m; 0%R]) X;
  _decide_n_outputs := fun _ _ => 2%nat;
  _make_estimator := 0%Z;
  set_optimizer := fun _ _ lr _ => mkOptimizer [lr] tt;
  train_step := fun m _ _ => ((m + 1)%Z, tt);
  validation_accuracy := fun self _ => INR (length (estimators_ self));
  validation_mse := fun self _ => INR (length (estimators_ self))
|}.

(** The toy run of 1 epoch of 2 batches for 2 estimators, and the world it
    leaves. *)
Definition toy_short_run : @World toy * Result (@Locals toy classifier) :=
  @fit toy classifier [tt; tt] 0.1 ClipNone 0.0005 1 Adam 100 None true
       (@fresh toy 2).

(** A toy state in the middle of training: no snapshot yet, the counter at
    zero, a scheduler of period 1. *)
Definition toy_locals : @Locals toy classifier :=
  mkLocals (@classifier toy) 0%Z (mkOptimizer [0.1%R] tt)
           (mkLambdaLR 1 [0.1%R] 0) 0%R 0%Z.

Definition toy_world : @World toy :=
  @mkWorld toy (mkEnsemble 2 (Some 2%nat) []) [].

(** * The rest of the module *)

(** ** Construction *)

(** The [estimator] argument of [__init__]: a class, as required, or an
    instance of one. *)
Inductive EstimatorArg (Model : Type) : Type :=
| AClass
| AnInstance (m : Model).
Arguments AClass {Model}.
Arguments AnInstance {Model} m.

(** The outcome of a constructor call. *)
Inductive Constructed (A : Type) : Type :=
| Built (a : A)
| RuntimeError.
Arguments Built {A} a.
Arguments RuntimeError {A}.

(** [_BaseSnapshotEnsemble.__init__]: of the attributes it assigns, the
    ones the rest of the code reads. [n_outputs] is not among them. *)
Definition __init__ {Model : Type} (estimator : EstimatorArg Model)
  (n_estimators : Z) : Constructed (Ensemble Model) :=
  match estimator with
  | AnInstance _ => RuntimeError
  | AClass => Built (mkEnsemble n_estimators None [])
  end.

(** ** Documentation decorator *)

Section Documentation.
Import String.

Inductive Documented : Type :=
| Doc (text : String.string)
| KeyError (key : String.string).

Definition newline : String.string :=
  String.String (Ascii.ascii_of_nat 10) String.EmptyString.

(** [doc.extend(text)] on a list of strings: one element per character. *)
Definition characters (text : String.string) : list String.string :=
  map (fun c => String.String c String.EmptyString)
      (String.list_ascii_of_string text).

(** [_snapshot_ensemble_model_doc(header, item)(cls)]: the [__doc__] it
    assigns, for the text [fit_doc] of [__fit_doc]. *)
Definition _snapshot_ensemble_model_doc (fit_doc : String.string)
  (header item : String.string) : Documented :=
  let get_doc item :=
    if String.eqb item "fit"%string then Doc fit_doc else KeyError item in
  let doc := [String.append header (String.append newline newline)] in
  match get_doc item with
  | KeyError key => KeyError key
  | Doc text =>
      let doc := doc ++ characters text in
      Doc (String.concat String.EmptyString doc)
  end.

End Documentation.

(** ** Evaluation *)

(** A test loader as [predict] uses it: the batches it yields, each a pair
    of data and target, and the size of its dataset. *)
Record DataLoader (Target : Type) : Type := mkDataLoader {
  loader_batches_ : list (Tensor * Target);
  dataset_size : Z
}.

(** The index of the first greatest entry of a non-empty row. *)
Fixpoint argmax_from (best_index : nat) (best : R) (index : nat)
  (row : list R) : nat :=
  match row with
  | [] => best_index
  | x :: row' =>
      if Rltb best x
      then argmax_from index x (S index) row'
      else argmax_from best_index best (S index) row'
  end.

Definition argmax (row : list R) : Result nat :=
  match row with
  | [] => Raise IndexError
  | x :: row' => Ok (argmax_from 0 x 1 row')
  end.

(** [output.data.max(1)[1]] *)
Definition argmax_rows (output : Tensor) : Result (list nat) :=
  for_each output (fun row pred => i <- argmax row ;; Ok (pred ++ [i])) [].

(** [pred.eq(target.view(-1).data).sum()], for as many targets as
    predictions. *)
Definition count_equal (pred : list nat) (target : list Z) : Z :=
  Z.of_nat
    (length (filter (fun hit : bool => hit)
               (zip_with (fun p t => (Z.of_nat p =? t)%Z) pred target))).

(** The squared differences [nn.MSELoss] averages, for an output and a
    target of one shape, and their mean. *)
Definition squared_errors (output target : Tensor) : list R :=
  concat (zip_with (zip_with (fun o t => ((o - t) * (o - t))%R)) output target).

Definition mse_loss (output target : Tensor) : R :=
  (Rsum (squared_errors output target)
   / INR (length (squared_errors output target)))%R.

Section Predict.
Context `{Collaborators}.

(** [SnapshotEnsembleClassifier.predict] *)
Definition classifier_predict (self : Ensemble Model)
  (test_loader : DataLoader (list Z)) : Result R :=
  correct <-
    for_each (loader_batches_ test_loader)
      (fun batch correct =>
         let '(data, target) := batch in
         output <- SnapshotEnsembleClassifier.forward self data ;;
         pred <- argmax_rows output ;;
         Ok (correct + count_equal pred target)%Z)
      0%Z ;;
  if (dataset_size test_loader =? 0)%Z then Raise ZeroDivisionError
  else Ok (100 * IZR correct / IZR (dataset_size test_loader))%R.

(** [SnapshotEnsembleRegressor.predict] *)
Definition regressor_predict (self : Ensemble Model)
  (test_loader : DataLoader Tensor) : Result R :=
  mse <-
    for_each (loader_batches_ test_loader)
      (fun batch mse =>
         let '(data, target) := batch in
         output <- SnapshotEnsembleRegressor.forward self data ;;
         Ok (mse + mse_loss output target)%R)
      0%R ;;
  if Nat.eqb (length (loader_batches_ test_loader)) 0
  then Raise ZeroDivisionError
  else Ok (mse / INR (length (loader_batches_ test_loader)))%R.

End Predict.

(** * Vocabulary of the further statements *)

(** The parameter checks that come before the divisibility test. *)
Definition basic_accepted (init_lr : R) (lr_clip : LrClip) (weight_decay : R)
  (epochs log_interval : Z) : Prop :=
  (0 < init_lr)%R /\ clip_accepted lr_clip /\ (0 <= weight_decay)%R /\
  (0 < epochs)%Z /\ (0 < log_interval)%Z.


(** The scheduler and the optimizer agree: the scheduler has period [T] and
    base rates [base], it has been stepped [counter] times, and the
    optimizer holds the rates it prescribes. *)
Definition in_step `{Collaborators} {T : Task} (period : Z) (base : list R)
  (l : Locals T) : Prop :=
  T_M (scheduler l) = period /\ base_lrs (scheduler l) = base /\
  last_epoch (scheduler l) = counter l /\
  get_lr (scheduler l) = Ok (param_groups (optimizer l)).


(** A variant of the toy collaborators whose validation accuracy is always
    zero. *)
Definition toy_blind : Collaborators := {|
  Model := Z;
  Batch := unit;
  TestBatch := unit;
  Buf := unit;
  estimator_forward := fun m X => map (fun _ => [IZR m; 0%R]) X;
  _decide_n_outputs := fun _ _ => 2%nat;
  _make_estimator := 0%Z;
  set_optimizer := fun _ _ lr _ => mkOptimizer [lr] tt;
  train_step := fun m _ _ => ((m + 1)%Z, tt);
  validation_accuracy := fun _ _ => 0%R;
  validation_mse := fun _ _ => 0%R
|}.


(** A row of probabilities: positive entries, at most one, summing to one. *)
Definition distribution (row : list R) : Prop :=
  Forall (fun p => (0 < p <= 1)%R) row /\ Rsum row = 1%R.

(** The number of samples a test loader yields. *)
Definition samples {Target : Type} (test_loader : DataLoader Target) : Z :=
  Z.of_nat (length (concat (map fst (loader_batches_ test_loader)))).

(** Every snapshot answers the batch [data] with [len(data)] rows of [n]
    entries. *)
Definition batch_shaped `{Collaborators} (self : Ensemble Model) (n : nat)
  (data : Tensor) : Prop :=
  Forall (fun e => shape (estimator_forward e data) (length data) n)
         (estimators_ self).

(** A classification test loader: every batch is answered in shape and
    carries one label per sample. *)
Definition labelled `{Collaborators} (self : Ensemble Model) (n : nat)
  (test_loader : DataLoader (list Z)) : Prop :=
  Forall (fun batch => batch_shaped self n (fst batch) /\
                       length (snd batch) = length (fst batch))
         (loader_batches_ test_loader).

(** A regression test loader whose batches all have [rows] samples, with
    targets of [rows] rows of [n] entries. *)
Definition targeted `{Collaborators} (self : Ensemble Model) (rows n : nat)
  (test_loader : DataLoader Tensor) : Prop :=
  Forall (fun batch => batch_shaped self n (fst batch) /\
                       length (fst batch) = rows /\
                       shape (snd batch) rows n)
         (loader_batches_ test_loader).

(** A regression test loader the ensemble can evaluate once fitted: for
    the [n_outputs] assigned, every snapshot answers every batch in shape
    and every target has the shape of the answer. *)
Definition answered `{Collaborators} (self : Ensemble Model)
  (test_loader : DataLoader Tensor) : Prop :=
  forall n, n_outputs self = Some n ->
    Forall (fun batch => batch_shaped self n (fst batch) /\
                         shape (snd batch) (length (fst batch)) n)
           (loader_batches_ test_loader).

(** The squared errors of all the batches together. *)
Definition pooled_errors (outputs targets : list Tensor) : list R :=
  concat (zip_with squared_errors outputs targets).

(** * Properties *)

(** ** Basic facts *)

Lemma Rltb_true (x y : R) : Rltb x y = true <-> (x < y)%R.
Proof.
  unfold Rltb. destruct (Rlt_dec x y); split; intros; congruence || assumption.
Qed.

Lemma Rltb_false (x y : R) : Rltb x y = false <-> (y <= x)%R.
Proof.
  unfold Rltb. destruct (Rlt_dec x y); split; intros; try congruence; try lra.
Qed.

Lemma Rgeb_true (x y : R) : Rgeb x y = true <-> (x >= y)%R.
Proof.
  unfold Rgeb. destruct (Rge_dec x y); split; intros; congruence || assumption.
Qed.

Lemma Rgeb_false (x y : R) : Rgeb x y = false <-> (x < y)%R.
Proof.
  unfold Rgeb. destruct (Rge_dec x y); split; intros; try congruence; try lra.
Qed.

Lemma pyceildiv_pos (a b : Z) :
  (0 < a)%Z -> (0 < b)%Z -> exists t, pyceildiv a b = Ok t /\ (0 < t)%Z.
Proof.
  intros Ha Hb. unfold pyceildiv.
  destruct (Z.eqb_spec b 0) as [E | _]; [lia |].
  eexists; split; [reflexivity |].
  assert ((- a) / b < 0)%Z by (apply Z.div_lt_upper_bound; lia).
  lia.
Qed.

(** ** The cyclic scheduler *)

Lemma lr_lambda_value (T i : Z) :
  T <> 0%Z ->
  lr_lambda T i = Ok (0.5 * (cos (PI * IZR (i mod T) / IZR T) + 1))%R.
Proof.
  intros HT. unfold lr_lambda, pymod.
  destruct (Z.eqb_spec T 0) as [E | _]; [contradiction | reflexivity].
Qed.

Lemma last_phase_cos (T : Z) :
  (0 < T)%Z -> (-1 < cos (PI * IZR (T - 1) / IZR T))%R.
Proof.
  intros HT.
  assert (HTr : (0 < IZR T)%R) by (apply IZR_lt; exact HT).
  assert (Hpi := PI_RGT_0).
  rewrite minus_IZR.
  replace (PI * (IZR T - 1) / IZR T)%R with (PI - PI / IZR T)%R
    by (field; lra).
  assert (Hq : (0 < PI / IZR T)%R) by (apply Rdiv_lt_0_compat; lra).
  assert (Hq1 : (PI / IZR T <= PI)%R).
  { apply Rle_trans with (PI / 1)%R; [| lra].
    unfold Rdiv. apply Rmult_le_compat_l; [lra |].
    apply Rinv_le_contravar; [lra |].
    change 1%R with (IZR 1). apply IZR_le. lia. }
  rewrite <- cos_PI.
  apply cos_decreasing_1; lra.
Qed.

(** ** Floating point *)

Section FloatingPoint.
Local Open Scope R_scope.

Lemma Zfloor_spec (x : R) : IZR (Zfloor x) <= x < IZR (Zfloor x) + 1.
Proof.
  unfold Zfloor. rewrite minus_IZR. destruct (archimed x) as [H1 H2]. lra.
Qed.

Lemma Zfloor_unique (x : R) (n : Z) : IZR n <= x < IZR n + 1 -> Zfloor x = n.
Proof.
  intros [H1 H2]. pose proof (Zfloor_spec x) as [H3 H4].
  assert (Ha : (Zfloor x < n + 1)%Z).
  { apply lt_IZR. rewrite plus_IZR. lra. }
  assert (Hb : (n < Zfloor x + 1)%Z).
  { apply lt_IZR. rewrite plus_IZR. lra. }
  lia.
Qed.

Lemma Zfloor_IZR (n : Z) : Zfloor (IZR n) = n.
Proof. apply Zfloor_unique. lra. Qed.

Lemma Zceil_spec (x : R) : IZR (Zceil x) - 1 < x <= IZR (Zceil x).
Proof.
  unfold Zceil. rewrite opp_IZR. pose proof (Zfloor_spec (- x)). lra.
Qed.

Lemma Zceil_unique (x : R) (n : Z) : IZR n - 1 < x <= IZR n -> Zceil x = n.
Proof.
  intros H. unfold Zceil. rewrite (@Zfloor_unique (- x) (- n)); [lia |].
  rewrite opp_IZR. lra.
Qed.

Lemma Znearest_cases (x : R) :
  Znearest_even x = Zfloor x \/ Znearest_even x = (Zfloor x + 1)%Z.
Proof.
  unfold Znearest_even.
  destruct (Rltb _ _); [auto |]. destruct (Rltb _ _); [auto |].
  destruct (Z.even _); auto.
Qed.

Lemma Rabs_le_inv (a b : R) : Rabs a <= b -> - b <= a <= b.
Proof. unfold Rabs. destruct (Rcase_abs a); lra. Qed.

Lemma Znearest_half (x : R) : - (1 / 2) <= IZR (Znearest_even x) - x <= 1 / 2.
Proof.
  pose proof (Zfloor_spec x) as [H1 H2]. unfold Znearest_even.
  destruct (Rltb (x - IZR (Zfloor x)) (1 / 2)) eqn:E1.
  - apply Rltb_true in E1. lra.
  - apply Rltb_false in E1.
    destruct (Rltb (1 / 2) (x - IZR (Zfloor x))) eqn:E2.
    + apply Rltb_true in E2. rewrite plus_IZR. lra.
    + apply Rltb_false in E2. destruct (Z.even (Zfloor x)).
      * lra.
      * rewrite plus_IZR. lra.
Qed.

Lemma Znearest_near (x : R) (n : Z) :
  Rabs (x - IZR n) < 1 / 2 -> Znearest_even x = n.
Proof.
  intros H. apply Rabs_def2 in H. destruct H as [H1 H2].
  pose proof (Znearest_half x) as H3.
  assert (Ha : (Znearest_even x < n + 1)%Z).
  { apply lt_IZR. rewrite plus_IZR. lra. }
  assert (Hb : (n < Znearest_even x + 1)%Z).
  { apply lt_IZR. rewrite plus_IZR. lra. }
  lia.
Qed.

Lemma Znearest_IZR (n : Z) : Znearest_even (IZR n) = n.
Proof.
  apply Znearest_near. replace (IZR n - IZR n) with 0 by ring.
  rewrite Rabs_R0. lra.
Qed.

Lemma Znearest_le (x : R) (n : Z) : x <= IZR n -> (Znearest_even x <= n)%Z.
Proof.
  intros H. pose proof (Zfloor_spec x) as [H1 H2].
  destruct (Req_dec_T x (IZR n)) as [-> | Hne].
  - rewrite Znearest_IZR. lia.
  - assert (Hf : (Zfloor x < n)%Z) by (apply lt_IZR; lra).
    destruct (Znearest_cases x) as [-> | ->]; lia.
Qed.

Lemma Znearest_ge (x : R) (n : Z) : IZR n <= x -> (n <= Znearest_even x)%Z.
Proof.
  intros H. pose proof (Zfloor_spec x) as [H1 H2].
  assert (Hf : (n < Zfloor x + 1)%Z) by (apply lt_IZR; rewrite plus_IZR; lra).
  destruct (Znearest_cases x) as [-> | ->]; lia.
Qed.


Lemma bpow_pos (e : Z) : 0 < bpow e.
Proof. apply powerRZ_lt. lra. Qed.

Lemma bpow_add (a b : Z) : bpow (a + b) = bpow a * bpow b.
Proof. apply powerRZ_add. lra. Qed.

Lemma bpow_opp (a : Z) : bpow (- a) = / bpow a.
Proof. apply powerRZ_neg'. Qed.

Lemma bpow_0 : bpow 0 = 1.
Proof. reflexivity. Qed.

Lemma bpow_1 : bpow 1 = 2.
Proof. unfold bpow. simpl. lra. Qed.

Lemma bpow_succ (a : Z) : bpow (a + 1) = 2 * bpow a.
Proof. rewrite bpow_add, bpow_1. ring. Qed.

Lemma bpow_nonneg_IZR (k : Z) : (0 <= k)%Z -> bpow k = IZR (2 ^ k).
Proof.
  intros Hk. unfold bpow. rewrite <- (Z2Nat.id k) by exact Hk.
  rewrite <- pow_powerRZ. rewrite <- pow_IZR. reflexivity.
Qed.

Lemma bpow_lt (a b : Z) : (a < b)%Z -> bpow a < bpow b.
Proof.
  intros H. replace b with (a + (b - a))%Z by lia. rewrite bpow_add.
  rewrite (bpow_nonneg_IZR (k := b - a)) by lia.
  assert (H1 : (1 < 2 ^ (b - a))%Z) by (apply Z.pow_gt_1; lia).
  apply IZR_lt in H1. pose proof (bpow_pos a). nra.
Qed.

Lemma bpow_le (a b : Z) : (a <= b)%Z -> bpow a <= bpow b.
Proof.
  intros H. destruct (Z.eq_dec a b) as [-> | Hne]; [lra |].
  left. apply bpow_lt. lia.
Qed.

Lemma bpow_lt_inv (a b : Z) : bpow a < bpow b -> (a < b)%Z.
Proof.
  intros H. destruct (Z_lt_le_dec a b) as [Hl | Hl]; [exact Hl |].
  apply bpow_le in Hl. lra.
Qed.

Lemma bpow_exp (e : Z) : bpow e = exp (IZR e * ln 2).
Proof.
  unfold bpow. rewrite powerRZ_Rpower by lra. reflexivity.
Qed.

Lemma ln2_pos : 0 < ln 2.
Proof. rewrite <- ln_1. apply ln_increasing; lra. Qed.

Lemma mag_spec (x : R) : x <> 0 -> bpow (mag x - 1) <= Rabs x < bpow (mag x).
Proof.
  intros Hx. unfold mag.
  pose proof (Zfloor_spec (ln (Rabs x) / ln 2)) as [H1 H2].
  set (f := Zfloor (ln (Rabs x) / ln 2)) in *.
  pose proof ln2_pos as Hl. pose proof (Rabs_pos_lt x Hx) as Hp.
  assert (Ha : IZR f * ln 2 <= ln (Rabs x)).
  { apply Rmult_le_reg_r with (/ ln 2); [now apply Rinv_0_lt_compat |].
    rewrite Rmult_assoc, Rinv_r by lra. unfold Rdiv in H1. lra. }
  assert (Hb : ln (Rabs x) < (IZR f + 1) * ln 2).
  { apply Rmult_lt_reg_r with (/ ln 2); [now apply Rinv_0_lt_compat |].
    rewrite Rmult_assoc, Rinv_r by lra. unfold Rdiv in H2. lra. }
  rewrite !bpow_exp. rewrite <- (exp_ln (Rabs x) Hp) at 1 2.
  replace (f + 1 - 1)%Z with f by lia. rewrite plus_IZR. split.
  - destruct Ha as [Ha | Ha]; [left; now apply exp_increasing | right; now rewrite Ha].
  - now apply exp_increasing.
Qed.

Lemma mag_unique (x : R) (e : Z) : bpow (e - 1) <= Rabs x < bpow e -> mag x = e.
Proof.
  intros [H1 H2].
  assert (Hx : x <> 0).
  { intros ->. rewrite Rabs_R0 in H1. pose proof (bpow_pos (e - 1)). lra. }
  pose proof (mag_spec Hx) as [H3 H4].
  assert (Ha : (mag x - 1 < e)%Z) by (apply bpow_lt_inv; lra).
  assert (Hb : (e - 1 < mag x)%Z) by (apply bpow_lt_inv; lra).
  lia.
Qed.

Lemma round_ne_0 (p : Z) : round_ne p 0 = 0.
Proof. unfold round_ne. destruct (Req_dec_T 0 0); [reflexivity | congruence]. Qed.

Lemma round_ne_nonzero (p : Z) (x : R) :
  x <> 0 ->
  round_ne p x
  = IZR (Znearest_even (x * bpow (- (mag x - p)))) * bpow (mag x - p).
Proof. intros Hx. unfold round_ne. destruct (Req_dec_T x 0); [contradiction | reflexivity]. Qed.

Lemma bpow_cancel (e : Z) : bpow (- e) * bpow e = 1.
Proof. rewrite <- bpow_add. replace (- e + e)%Z with 0%Z by lia. apply bpow_0. Qed.

Lemma round_ne_error (p : Z) (x : R) :
  x <> 0 ->
  - (/ 2 * bpow (mag x - p)) <= round_ne p x - x <= / 2 * bpow (mag x - p).
Proof.
  intros Hx. rewrite (round_ne_nonzero p Hx).
  set (e := (mag x - p)%Z).
  pose proof (Znearest_half (x * bpow (- e))) as [H1 H2].
  pose proof (bpow_pos e) as He. pose proof (bpow_cancel e) as Hc.
  assert (Hd : IZR (Znearest_even (x * bpow (- e))) * bpow e - x
               = (IZR (Znearest_even (x * bpow (- e))) - x * bpow (- e)) * bpow e).
  { rewrite Rmult_minus_distr_r, (Rmult_assoc x), Hc. ring. }
  rewrite Hd.
  set (d := IZR (Znearest_even (x * bpow (- e))) - x * bpow (- e)) in *.
  split; nra.
Qed.

Lemma round_ne_rel_error (p : Z) (x : R) :
  Rabs (round_ne p x - x) <= bpow (- p) * Rabs x.
Proof.
  destruct (Req_dec_T x 0) as [-> | Hx].
  - rewrite round_ne_0, Rabs_R0. replace (0 - 0) with 0 by ring.
    rewrite Rabs_R0. lra.
  - pose proof (round_ne_error p Hx) as H. pose proof (mag_spec Hx) as [Hm _].
    assert (Hb : / 2 * bpow (mag x - p) = bpow (- p) * bpow (mag x - 1)).
    { replace (mag x - p)%Z with ((mag x - 1) + 1 + - p)%Z by lia.
      rewrite !bpow_add, bpow_1. field. }
    rewrite Hb in H. pose proof (bpow_pos (- p)) as Hp.
    apply Rabs_le. split.
    + apply Rle_trans with (- (bpow (- p) * bpow (mag x - 1))); [| lra].
      apply Ropp_le_contravar. apply Rmult_le_compat_l; lra.
    + apply Rle_trans with (bpow (- p) * bpow (mag x - 1)); [lra |].
      apply Rmult_le_compat_l; lra.
Qed.

Lemma round_ne_exact (p m e : Z) :
  Rabs (IZR m) < bpow p -> round_ne p (IZR m * bpow e) = IZR m * bpow e.
Proof.
  intros Hm. pose proof (bpow_pos e) as He.
  destruct (Z.eq_dec m 0) as [-> | Hm0].
  - rewrite Rmult_0_l. apply round_ne_0.
  - assert (Hx : IZR m * bpow e <> 0).
    { apply Rmult_integral_contrapositive. split; [| lra].
      intros H. apply eq_IZR in H. contradiction. }
    rewrite (round_ne_nonzero p Hx).
    set (x := IZR m * bpow e) in *.
    pose proof (mag_spec Hx) as [H1 _].
    assert (Hk : (mag x - p <= e)%Z).
    { assert (Hlt : bpow (mag x - 1) < bpow (p + e)).
      { eapply Rle_lt_trans; [exact H1 |]. unfold x.
        rewrite Rabs_mult, (Rabs_pos_eq (bpow e)) by lra.
        rewrite bpow_add. apply Rmult_lt_compat_r; lra. }
      apply bpow_lt_inv in Hlt. lia. }
    set (ex := (mag x - p)%Z) in *.
    assert (Hs : x * bpow (- ex) = IZR (m * 2 ^ (e - ex))).
    { unfold x. rewrite mult_IZR, <- bpow_nonneg_IZR by lia.
      replace (e - ex)%Z with (e + - ex)%Z by lia. rewrite bpow_add. ring. }
    rewrite Hs, Znearest_IZR, <- Hs.
    rewrite Rmult_assoc, bpow_cancel. ring.
Qed.

Lemma round_ne_bpow (p k : Z) : (0 < p)%Z -> round_ne p (bpow k) = bpow k.
Proof.
  intros Hp. rewrite <- (Rmult_1_l (bpow k)). apply round_ne_exact.
  rewrite Rabs_R1. rewrite <- bpow_0. apply bpow_lt. exact Hp.
Qed.

Lemma round_ne_nonneg (p : Z) (x : R) : 0 <= x -> 0 <= round_ne p x.
Proof.
  intros Hx. destruct (Req_dec_T x 0) as [-> | Hne].
  - rewrite round_ne_0. lra.
  - rewrite (round_ne_nonzero p Hne).
    pose proof (bpow_pos (mag x - p)). pose proof (bpow_pos (- (mag x - p))).
    apply Rmult_le_pos; [| lra]. apply IZR_le.
    apply Znearest_ge. simpl. apply Rmult_le_pos; lra.
Qed.

Lemma round_ne_abs_le_bpow (p k : Z) (x : R) :
  (0 < p)%Z -> Rabs x <= bpow k -> Rabs (round_ne p x) <= bpow k.
Proof.
  intros Hp Hx. pose proof (bpow_pos k) as Hk.
  destruct (Req_dec_T x 0) as [-> | Hne].
  { rewrite round_ne_0, Rabs_R0. lra. }
  destruct Hx as [Hlt | Heq].
  - rewrite (round_ne_nonzero p Hne).
    pose proof (mag_spec Hne) as [H1 _].
    assert (Hm : (mag x <= k)%Z).
    { assert (H : bpow (mag x - 1) < bpow k) by lra.
      apply bpow_lt_inv in H. lia. }
    set (ex := (mag x - p)%Z) in *.
    pose proof (bpow_pos ex) as Hex. pose proof (bpow_pos (- ex)) as Hex'.
    assert (Hs : Rabs (x * bpow (- ex)) <= IZR (2 ^ (k - ex))).
    { rewrite Rabs_mult, (Rabs_pos_eq (bpow (- ex))) by lra.
      rewrite <- bpow_nonneg_IZR by lia.
      replace (k - ex)%Z with (k + - ex)%Z by lia. rewrite bpow_add.
      apply Rmult_le_compat_r; lra. }
    apply Rabs_le_inv in Hs. destruct Hs as [Hs1 Hs2].
    rewrite <- opp_IZR in Hs1.
    apply Znearest_ge in Hs1. apply Znearest_le in Hs2.
    apply IZR_le in Hs1, Hs2. rewrite opp_IZR in Hs1.
    rewrite Rabs_mult, (Rabs_pos_eq (bpow ex)) by lra.
    replace (bpow k) with (IZR (2 ^ (k - ex)) * bpow ex).
    + apply Rmult_le_compat_r; [lra |]. apply Rabs_le. lra.
    + rewrite <- bpow_nonneg_IZR by lia. rewrite <- bpow_add. f_equal. lia.
  - assert (Hx : x = IZR 1 * bpow k \/ x = IZR (-1) * bpow k).
    { unfold Rabs in Heq. destruct (Rcase_abs x); [right | left]; lra. }
    assert (H1 : Rabs (IZR 1) < bpow p).
    { rewrite Rabs_R1, <- bpow_0. now apply bpow_lt. }
    assert (Hm1 : Rabs (IZR (-1)) = 1).
    { unfold Rabs. destruct (Rcase_abs (-1)); lra. }
    assert (H2 : Rabs (IZR (-1)) < bpow p).
    { rewrite Hm1, <- bpow_0. now apply bpow_lt. }
    destruct Hx as [-> | ->]; rewrite round_ne_exact by assumption.
    + rewrite Rmult_1_l, Rabs_pos_eq; lra.
    + rewrite Rabs_mult, Hm1, Rabs_pos_eq; lra.
Qed.

Lemma round_ne_near (p n : Z) (x : R) :
  x <> 0 ->
  Rabs (x - IZR n * bpow (mag x - p)) < / 2 * bpow (mag x - p) ->
  round_ne p x = IZR n * bpow (mag x - p).
Proof.
  intros Hx Hn. rewrite (round_ne_nonzero p Hx).
  set (e := (mag x - p)%Z) in *. f_equal. f_equal.
  apply Znearest_near. pose proof (bpow_pos e) as He.
  pose proof (bpow_pos (- e)) as He'. pose proof (bpow_cancel e) as Hc.
  replace (x * bpow (- e) - IZR n) with ((x - IZR n * bpow e) * bpow (- e)).
  - rewrite Rabs_mult, (Rabs_pos_eq (bpow (- e))) by lra.
    apply Rmult_lt_reg_r with (bpow e); [exact He |].
    rewrite Rmult_assoc, Hc. lra.
  - rewrite Rmult_minus_distr_r, Rmult_assoc.
    rewrite (Rmult_comm (bpow e)), Hc. ring.
Qed.

Lemma PI_bounds : 3.1415926 < PI < 3.1415927.
Proof.
  pose proof (PI_2_3_7_ineq 4) as [Hlo Hhi].
  unfold sum_f_R0, tg_alt, PI_2_3_7_tg, Ratan_seq in Hlo, Hhi.
  simpl in Hlo, Hhi.
  split; lra.
Qed.

Lemma math_pi_close : Rabs (math_pi - PI) <= 1 / 10000000.
Proof. pose proof PI_bounds. unfold math_pi. apply Rabs_le. lra. Qed.

Lemma sin_abs_le (t : R) : Rabs (sin t) <= Rabs t.
Proof.
  destruct (Rtotal_order t 0) as [Hneg | [-> | Hpos]].
  - pose proof (sin_gt_x t Hneg) as H1. pose proof (SIN_bound t) as [H2 H3].
    rewrite (Rabs_left t) by lra. apply Rabs_le. split; [lra |].
    destruct (Rle_or_lt (-1) t) as [Hs | Hs].
    + assert (H4 : 0 < sin (- t)).
      { pose proof PI_bounds. apply sin_gt_0; lra. }
      rewrite sin_neg in H4. lra.
    + lra.
  - rewrite sin_0, Rabs_R0. lra.
  - pose proof (sin_lt_x t Hpos) as H1. pose proof (SIN_bound t) as [H2 H3].
    rewrite (Rabs_pos_eq t) by lra. apply Rabs_le. split; [| lra].
    destruct (Rle_or_lt t 1) as [Hs | Hs].
    + assert (H4 : 0 < sin t).
      { pose proof PI_bounds. apply sin_gt_0; lra. }
      lra.
    + lra.
Qed.

Lemma cos_lipschitz (a b : R) : Rabs (cos a - cos b) <= Rabs (a - b).
Proof.
  rewrite form2. rewrite !Rabs_mult.
  pose proof (sin_abs_le ((a - b) / 2)) as H1.
  pose proof (SIN_bound ((a + b) / 2)) as H2.
  assert (H3 : Rabs (sin ((a + b) / 2)) <= 1) by (apply Rabs_le; lra).
  assert (H4 : Rabs (-2) = 2) by (unfold Rabs; destruct (Rcase_abs (-2)); lra).
  rewrite H4.
  assert (H5 : Rabs ((a - b) / 2) = Rabs (a - b) / 2).
  { unfold Rdiv. rewrite Rabs_mult, (Rabs_pos_eq (/ 2)) by lra. reflexivity. }
  rewrite H5 in H1.
  pose proof (Rabs_pos (sin ((a - b) / 2))). pose proof (Rabs_pos (sin ((a + b) / 2))).
  pose proof (Rabs_pos (a - b)).
  nra.
Qed.

Lemma one_minus_cos (d : R) : 0 <= 1 - cos d <= d * d / 2.
Proof.
  replace d with (2 * (d / 2)) at 1 2 by field. rewrite cos_2a_sin.
  pose proof (sin_abs_le (d / 2)) as H.
  assert (H5 : Rabs (d / 2) = Rabs d / 2).
  { unfold Rdiv. rewrite Rabs_mult, (Rabs_pos_eq (/ 2)) by lra. reflexivity. }
  rewrite H5 in H.
  assert (Hs : sin (d / 2) * sin (d / 2) <= (Rabs d / 2) * (Rabs d / 2)).
  { pose proof (Rabs_pos (sin (d / 2))) as Hp.
    replace (sin (d / 2) * sin (d / 2))
      with (Rabs (sin (d / 2)) * Rabs (sin (d / 2))).
    - apply Rmult_le_compat; lra.
    - unfold Rabs. destruct (Rcase_abs (sin (d / 2))); ring. }
  assert (Hd : Rabs d * Rabs d = d * d).
  { unfold Rabs. destruct (Rcase_abs d); ring. }
  pose proof (Rle_0_sqr (sin (d / 2))) as Hq. unfold Rsqr in Hq.
  split; nra.
Qed.

Lemma cos_near_PI (x : R) : -1 <= cos x <= -1 + (PI - x) * (PI - x) / 2.
Proof.
  replace x with (- (PI - x) + PI) at 1 2 by ring.
  rewrite neg_cos, cos_neg. pose proof (one_minus_cos (PI - x)). lra.
Qed.

Lemma u64_value : bpow (-53) = / 9007199254740992.
Proof.
  change (bpow (-53)) with (bpow (Z.opp 53)).
  rewrite (bpow_opp 53), (bpow_nonneg_IZR (k := 53)) by lia. reflexivity.
Qed.

Lemma u32_value : bpow (-24) = / 16777216.
Proof.
  change (bpow (-24)) with (bpow (Z.opp 24)).
  rewrite (bpow_opp 24), (bpow_nonneg_IZR (k := 24)) by lia. reflexivity.
Qed.

Lemma float_of_int_exact (n : Z) :
  (Z.abs n < 2 ^ 53)%Z -> float_of_int n = IZR n.
Proof.
  intros Hn. unfold float_of_int, float64.
  rewrite <- (Rmult_1_r (IZR n)) at 1 2. rewrite <- bpow_0.
  apply round_ne_exact. rewrite <- abs_IZR, (bpow_nonneg_IZR (k := 53)) by lia.
  now apply IZR_lt.
Qed.

Lemma float_error_abs (p : Z) (x b : R) :
  Rabs x <= b ->
  - (bpow (- p) * b) <= round_ne p x - x <= bpow (- p) * b.
Proof.
  intros Hx. pose proof (round_ne_rel_error p x) as H.
  pose proof (bpow_pos (- p)) as Hp.
  apply Rabs_le_inv in H.
  assert (bpow (- p) * Rabs x <= bpow (- p) * b)
    by (apply Rmult_le_compat_l; lra).
  lra.
Qed.

Lemma angle_error (T_M phase : Z) :
  (0 <= phase < T_M)%Z -> (T_M < 2 ^ 53)%Z ->
  Rabs (angle32 T_M phase - PI * IZR phase / IZR T_M) <= 3 / 10000000.
Proof.
  intros Hp HT. unfold angle32.
  rewrite !float_of_int_exact by lia.
  assert (HTr : 1 <= IZR T_M) by (apply IZR_le; lia).
  assert (HP0 : 0 <= IZR phase) by (apply IZR_le; lia).
  assert (HP1 : IZR phase <= IZR T_M) by (apply IZR_le; lia).
  set (P := IZR phase) in *. set (Tr := IZR T_M) in *.
  assert (Hit : 0 < / Tr) by (apply Rinv_0_lt_compat; lra).
  set (r := P * / Tr).
  assert (Hr : 0 <= r <= 1).
  { unfold r. split; [apply Rmult_le_pos; lra |].
    apply Rmult_le_reg_r with Tr; [lra |].
    rewrite Rmult_assoc, Rinv_l by lra. lra. }
  assert (Hpi : 3.14 <= math_pi <= 3.15) by (unfold math_pi; lra).
  pose proof math_pi_close as Hclose. apply Rabs_le_inv in Hclose.
  (* first rounding *)
  set (y1 := math_pi * P).
  assert (Hy1 : 0 <= y1) by (unfold y1; apply Rmult_le_pos; lra).
  pose proof (@float_error_abs 53 y1 y1) as He1.
  rewrite (Rabs_pos_eq y1 Hy1) in He1. specialize (He1 (Rle_refl _)).
  cbn [Z.opp] in He1.
  fold (float64 y1) in He1. set (a1 := float64 y1) in *.
  (* second rounding *)
  set (y2 := a1 / Tr).
  assert (Hy2 : - (bpow (-53) * (math_pi * r)) <= y2 - math_pi * r
                <= bpow (-53) * (math_pi * r)).
  { unfold y2, Rdiv.
    replace (a1 * / Tr - math_pi * r) with ((a1 - y1) * / Tr)
      by (unfold y1, r; ring).
    replace (bpow (-53) * (math_pi * r)) with (bpow (-53) * y1 * / Tr)
      by (unfold y1, r; ring).
    split.
    - replace (- (bpow (-53) * y1 * / Tr)) with (- (bpow (-53) * y1) * / Tr) by ring.
      apply Rmult_le_compat_r; lra.
    - apply Rmult_le_compat_r; lra. }
  assert (Hmr : 0 <= math_pi * r <= 3.15).
  { split; [apply Rmult_le_pos; lra |]. nra. }
  rewrite u64_value in Hy2.
  assert (Hy2abs : Rabs y2 <= 3.16) by (apply Rabs_le; lra).
  pose proof (@float_error_abs 53 y2 3.16 Hy2abs) as He2. cbn [Z.opp] in He2.
  rewrite u64_value in He2.
  fold (float64 y2) in He2. set (a2 := float64 y2) in *.
  (* conversion to float32 *)
  assert (Ha2abs : Rabs a2 <= 3.17) by (apply Rabs_le; lra).
  pose proof (@float_error_abs 24 a2 3.17 Ha2abs) as He3. cbn [Z.opp] in He3.
  rewrite u32_value in He3.
  fold (float32 a2) in He3. set (x := float32 a2) in *.
  replace (PI * P / Tr) with (PI * r) by (unfold r, Rdiv; ring).
  assert (Hpr : - (1 / 10000000) <= math_pi * r - PI * r <= 1 / 10000000).
  { replace (math_pi * r - PI * r) with ((math_pi - PI) * r) by ring.
    split; nra. }
  apply Rabs_le. lra.
Qed.

Lemma float32_abs_le_1 (x : R) : Rabs x <= 1 -> Rabs (float32 x) <= 1.
Proof.
  intros H. rewrite <- bpow_0 in *. apply round_ne_abs_le_bpow; [lia | exact H].
Qed.

Lemma float32_abs_le_2 (x : R) : Rabs x <= 2 -> Rabs (float32 x) <= 2.
Proof.
  intros H. rewrite <- bpow_1 in *. apply round_ne_abs_le_bpow; [lia | exact H].
Qed.

Lemma float32_1 : float32 1 = 1.
Proof. rewrite <- bpow_0. apply round_ne_bpow. lia. Qed.

Lemma float32_2 : float32 2 = 2.
Proof. rewrite <- bpow_1. apply round_ne_bpow. lia. Qed.

Lemma torch_cos_range (x : R) : -1 <= torch_cos x <= 1.
Proof.
  unfold torch_cos. apply Rabs_le_inv. apply float32_abs_le_1.
  apply Rabs_le. pose proof (COS_bound x). lra.
Qed.

Lemma multiplier_range (T_M phase : Z) : 0 <= multiplier32 T_M phase <= 1.
Proof.
  unfold multiplier32.
  pose proof (torch_cos_range (angle32 T_M phase)) as Hc.
  set (c := torch_cos (angle32 T_M phase)) in *.
  assert (Hs0 : 0 <= float32 (c + 1)) by (apply round_ne_nonneg; lra).
  assert (Hs2 : Rabs (float32 (c + 1)) <= 2).
  { apply float32_abs_le_2. apply Rabs_le. lra. }
  apply Rabs_le_inv in Hs2. set (s := float32 (c + 1)) in *.
  split.
  - apply round_ne_nonneg. lra.
  - assert (H : Rabs (float32 (0.5 * s)) <= 1).
    { apply float32_abs_le_1. apply Rabs_le. lra. }
    apply Rabs_le_inv in H. lra.
Qed.

Lemma angle_phase_0 (T_M : Z) : angle32 T_M 0 = 0.
Proof.
  unfold angle32, float_of_int, float64, float32.
  rewrite (round_ne_0 53), Rmult_0_r, (round_ne_0 53).
  unfold Rdiv. rewrite Rmult_0_l, (round_ne_0 53). apply round_ne_0.
Qed.

Lemma multiplier_phase_0 (T_M : Z) : multiplier32 T_M 0 = 1.
Proof.
  unfold multiplier32, torch_cos. rewrite angle_phase_0, cos_0, float32_1.
  replace (1 + 1) with 2 by ring. rewrite float32_2.
  replace (0.5 * 2) with 1 by lra. apply float32_1.
Qed.

Lemma multiplier_error (T_M phase : Z) :
  (0 <= phase < T_M)%Z -> (T_M < 2 ^ 53)%Z ->
  Rabs (multiplier32 T_M phase - 0.5 * (cos (PI * IZR phase / IZR T_M) + 1))
  <= / 2 ^ 21.
Proof.
  intros Hp HT. pose proof (angle_error Hp HT) as Ha.
  unfold multiplier32, torch_cos.
  set (x := angle32 T_M phase) in *. set (t := PI * IZR phase / IZR T_M) in *.
  pose proof (cos_lipschitz x t) as Hl.
  apply Rabs_le_inv in Hl.
  pose proof (COS_bound x) as Hcx.
  assert (Hcabs : Rabs (cos x) <= 1) by (apply Rabs_le; lra).
  pose proof (@float_error_abs 24 (cos x) 1 Hcabs) as He1.
  cbn [Z.opp] in He1. rewrite u32_value in He1. fold (float32 (cos x)) in He1.
  pose proof (float32_abs_le_1 (cos x) Hcabs) as Hc. apply Rabs_le_inv in Hc.
  set (c := float32 (cos x)) in *.
  assert (Hsabs : Rabs (c + 1) <= 2) by (apply Rabs_le; lra).
  pose proof (@float_error_abs 24 (c + 1) 2 Hsabs) as He2.
  cbn [Z.opp] in He2. rewrite u32_value in He2. fold (float32 (c + 1)) in He2.
  pose proof (float32_abs_le_2 (c + 1) Hsabs) as Hs. apply Rabs_le_inv in Hs.
  set (s := float32 (c + 1)) in *.
  assert (Hmabs : Rabs (0.5 * s) <= 1) by (apply Rabs_le; lra).
  pose proof (@float_error_abs 24 (0.5 * s) 1 Hmabs) as He3.
  cbn [Z.opp] in He3. rewrite u32_value in He3. fold (float32 (0.5 * s)) in He3.
  set (m := float32 (0.5 * s)) in *.
  apply Rabs_le. simpl. lra.
Qed.

Lemma float32_near_minus_1 (y : R) :
  -1 <= y < -1 + / 2 ^ 25 -> float32 y = -1.
Proof.
  intros [H1 H2].
  assert (Hy : y <> 0) by lra.
  destruct H1 as [H1 | <-].
  - assert (Hmag : mag y = 0%Z).
    { apply mag_unique. rewrite Rabs_left by lra.
      replace (bpow (0 - 1)) with (/ 2) by (unfold bpow; simpl; lra).
      rewrite bpow_0. simpl in H2. lra. }
    unfold float32. rewrite (@round_ne_near 24 (- 2 ^ 24) y Hy); rewrite Hmag.
    + change (0 - 24)%Z with (-24)%Z. rewrite u32_value.
      change (- 2 ^ 24)%Z with (-16777216)%Z. lra.
    + change (0 - 24)%Z with (-24)%Z. rewrite u32_value.
      change (- 2 ^ 24)%Z with (-16777216)%Z.
      apply Rabs_def1; simpl in H2; lra.
  - unfold float32. replace (-1) with (IZR (-1) * bpow 0) by (rewrite bpow_0; lra).
    apply round_ne_exact.
    replace (Rabs (-1)) with 1 by (unfold Rabs; destruct (Rcase_abs (-1)); lra).
    rewrite <- bpow_0. apply bpow_lt. lia.
Qed.

Lemma multiplier_last_phase_zero (T_M : Z) :
  (13000 <= T_M < 2 ^ 53)%Z -> multiplier32 T_M (T_M - 1) = 0.
Proof.
  intros HT.
  assert (Ha : Rabs (angle32 T_M (T_M - 1) - PI * IZR (T_M - 1) / IZR T_M)
               <= 3 / 10000000) by (apply angle_error; lia).
  apply Rabs_le_inv in Ha.
  assert (HTr : 13000 <= IZR T_M) by (apply IZR_le; lia).
  pose proof PI_bounds as Hpi.
  assert (Hd : 0 < PI / IZR T_M <= 3.1415927 / 13000).
  { split; [apply Rdiv_lt_0_compat; lra |].
    apply Rmult_le_reg_r with (IZR T_M); [lra |].
    unfold Rdiv. rewrite Rmult_assoc, Rinv_l by lra.
    apply Rle_trans with (3.1415927 * / 13000 * 13000); [lra |].
    apply Rmult_le_compat_l; lra. }
  replace (PI * IZR (T_M - 1) / IZR T_M) with (PI - PI / IZR T_M) in Ha
    by (rewrite minus_IZR; field; lra).
  set (x := angle32 T_M (T_M - 1)) in *.
  pose proof (cos_near_PI x) as [Hc1 Hc2].
  assert (Hsq : (PI - x) * (PI - x) <= (2.42 / 10000) * (2.42 / 10000)).
  { assert (H0 : - (2.42 / 10000) <= PI - x <= 2.42 / 10000) by lra.
    nra. }
  unfold multiplier32, torch_cos. fold x.
  rewrite (@float32_near_minus_1 (cos x)) by (simpl; lra).
  replace (-1 + 1) with 0 by ring. unfold float32.
  rewrite (round_ne_0 24), Rmult_0_r. apply round_ne_0.
Qed.

Lemma round_ne_pos (p : Z) (x : R) : (0 < p)%Z -> 0 < x -> 0 < round_ne p x.
Proof.
  intros Hp Hx. pose proof (round_ne_rel_error p x) as H.
  apply Rabs_le_inv in H. rewrite (Rabs_pos_eq x) in H by lra.
  assert (Hu : bpow (- p) <= / 2).
  { replace (/ 2) with (bpow (-1)) by (unfold bpow; simpl; lra).
    apply bpow_le. lia. }
  pose proof (bpow_pos (- p)). nra.
Qed.

Lemma cos_small_angle : cos (261 / 1000000) < 1 - / 2 ^ 25 - / 2 ^ 25 / 8.
Proof.
  replace (261 / 1000000) with (2 * (261 / 2000000)) by field.
  rewrite cos_2a_sin.
  assert (H : 261 / 2000000 - (261 / 2000000) ^ 3 / 6 <= sin (261 / 2000000)).
  { pose proof (pre_sin_bound (261 / 2000000) 0) as [Hlo _]; [lra | lra |].
    unfold sin_approx, sum_f_R0, sin_term in Hlo. simpl in Hlo. lra. }
  simpl in H.
  assert (H0 : 13 / 100000 <= sin (261 / 2000000)) by lra.
  simpl. nra.
Qed.

Lemma float32_above_minus_1 (y : R) :
  -1 + / 2 ^ 25 < y <= 1 -> -1 < float32 y.
Proof.
  intros [H1 H2]. simpl in H1.
  destruct (Req_dec_T y 0) as [-> | Hy].
  { unfold float32. rewrite round_ne_0. lra. }
  destruct (Rle_or_lt 0 y) as [Hpos | Hneg].
  { pose proof (round_ne_nonneg 24 Hpos). unfold float32. lra. }
  pose proof (mag_spec Hy) as [Hm _].
  assert (Hmag : (mag y <= 0)%Z).
  { assert (H : bpow (mag y - 1) < bpow 0).
    { rewrite bpow_0. rewrite Rabs_left in Hm by lra. lra. }
    apply bpow_lt_inv in H. lia. }
  pose proof (round_ne_error 24 Hy) as [He _].
  assert (Hb : bpow (mag y - 24) <= bpow (-24)) by (apply bpow_le; lia).
  rewrite u32_value in Hb. unfold float32. lra.
Qed.

Lemma multiplier_last_phase_positive (T_M : Z) :
  (1 <= T_M <= 12000)%Z -> 0 < multiplier32 T_M (T_M - 1).
Proof.
  intros HT.
  assert (Ha : Rabs (angle32 T_M (T_M - 1) - PI * IZR (T_M - 1) / IZR T_M)
               <= 3 / 10000000) by (apply angle_error; lia).
  apply Rabs_le_inv in Ha.
  assert (HTr : 1 <= IZR T_M <= 12000) by (split; apply IZR_le; lia).
  pose proof PI_bounds as Hpi.
  assert (Hd : 3.1415926 / 12000 <= PI / IZR T_M <= PI).
  { split.
    - apply Rmult_le_reg_r with (IZR T_M); [lra |].
      unfold Rdiv at 2. rewrite Rmult_assoc, Rinv_l by lra.
      apply Rle_trans with (3.1415926 / 12000 * 12000); [| lra].
      apply Rmult_le_compat_l; lra.
    - apply Rmult_le_reg_r with (IZR T_M); [lra |].
      unfold Rdiv. rewrite Rmult_assoc, Rinv_l by lra. nra. }
  replace (PI * IZR (T_M - 1) / IZR T_M) with (PI - PI / IZR T_M) in Ha
    by (rewrite minus_IZR; field; lra).
  set (x := angle32 T_M (T_M - 1)) in *.
  assert (Hcos : -1 + / 2 ^ 25 < cos x <= 1).
  { split; [| apply COS_bound].
    replace x with (- (PI - x) + PI) by ring. rewrite neg_cos, cos_neg.
    pose proof cos_small_angle as Hs.
    destruct (Rle_or_lt (PI - x) PI) as [Hle | Hgt].
    - assert (cos (PI - x) <= cos (261 / 1000000)) by (apply cos_decr_1; lra).
      simpl in *. lra.
    - (* the angle32 is just below zero: its cosine is close to one *)
      assert (Hx : - (3 / 10000000) <= x < 0) by lra.
      replace (PI - x) with (- x + PI) by ring. rewrite neg_cos, cos_neg.
      pose proof (one_minus_cos x) as [_ Hq].
      assert (x * x <= 1) by nra. simpl. lra. }
  unfold multiplier32, torch_cos. fold x.
  pose proof (float32_above_minus_1 Hcos) as Hc.
  apply round_ne_pos; [lia |].
  assert (0 < float32 (float32 (cos x) + 1)) by (apply round_ne_pos; [lia | lra]).
  lra.
Qed.

Lemma ceil_of_rounded_quotient (a b : Z) :
  (0 < a < 2 ^ 53)%Z -> (0 < b)%Z ->
  Zceil (float64 (IZR a / IZR b)) = (- (- a / b))%Z /\
  (b * (- (- a / b) - 1) < a <= b * - (- a / b))%Z.
Proof.
  intros Ha Hb.
  set (T := (- (- a / b))%Z).
  assert (HT : (b * (T - 1) < a <= b * T)%Z).
  { unfold T. pose proof (Z.div_mod (- a) b ltac:(lia)) as Hdm.
    pose proof (Z.mod_pos_bound (- a) b Hb) as Hr. nia. }
  split; [| exact HT].
  assert (HT1 : (1 <= T <= a)%Z) by nia.
  assert (HA : 1 <= IZR a) by (apply IZR_le; lia).
  assert (HA' : IZR a < 9007199254740992) by (apply IZR_lt; lia).
  assert (HB : 1 <= IZR b) by (apply IZR_le; lia).
  assert (Hib : 0 < / IZR b) by (apply Rinv_0_lt_compat; lra).
  assert (Hbi : IZR b * / IZR b = 1) by (apply Rinv_r; lra).
  apply Zceil_unique.
  destruct (Z.eq_dec a (b * T)) as [Heq | Hne].
  - assert (Hq : IZR a / IZR b = IZR T).
    { rewrite Heq, mult_IZR. field. lra. }
    rewrite Hq. fold (float_of_int T). rewrite float_of_int_exact by lia. lra.
  - assert (H1 : IZR a <= IZR b * IZR T - 1).
    { rewrite <- mult_IZR, <- minus_IZR. apply IZR_le. lia. }
    assert (H2 : IZR b * (IZR T - 1) + 1 <= IZR a).
    { rewrite <- minus_IZR, <- mult_IZR, <- plus_IZR. apply IZR_le. lia. }
    set (q := IZR a / IZR b).
    assert (Hq1 : q <= IZR T - / IZR b).
    { unfold q, Rdiv.
      replace (IZR T - / IZR b) with ((IZR b * IZR T - 1) * / IZR b)
        by (rewrite Rmult_minus_distr_r, (Rmult_comm (IZR b)), Rmult_assoc, Hbi; ring).
      apply Rmult_le_compat_r; lra. }
    assert (Hq2 : IZR T - 1 + / IZR b <= q).
    { unfold q, Rdiv.
      replace (IZR T - 1 + / IZR b) with ((IZR b * (IZR T - 1) + 1) * / IZR b)
        by (rewrite Rmult_plus_distr_r, (Rmult_comm (IZR b)), Rmult_assoc, Hbi; ring).
      apply Rmult_le_compat_r; lra. }
    assert (Hq0 : 0 <= q) by (unfold q; apply Rmult_le_pos; lra).
    pose proof (@float_error_abs 53 q q) as He.
    rewrite (Rabs_pos_eq q Hq0) in He. specialize (He (Rle_refl _)).
    cbn [Z.opp] in He. rewrite u64_value in He. fold (float64 q) in He.
    assert (Hu : / 9007199254740992 * q < / IZR b).
    { unfold q, Rdiv. rewrite <- Rmult_assoc.
      rewrite <- (Rmult_1_l (/ IZR b)) at 2.
      apply Rmult_lt_compat_r; [exact Hib |]. lra. }
    lra.
Qed.

End FloatingPoint.

(** C6. For an iteration budget below [2 ^ 53] and a positive number of
    cycles, the period [T] that [_set_scheduler] gives its scheduler is the
    ceiling of [n_iters / n_cycles], also as [math.ceil] computes it in
    floating point. At every iteration index [i] the exact multiplier is
    [0.5 * (cos(pi * (i mod T) / T) + 1)] and the multiplier the code
    computes in float32 is within [2 ^ -21] of it; the float32 multiplier
    lies in [[0, 1]], is exactly [1] at phase [0], and is the same at [i]
    and [i + T]. At phase [T - 1] it is strictly positive when
    [T <= 12000] and exactly [0] when [T >= 13000]. *)
Theorem lr_lambda_cosine_annealing {Buf : Type} (optimizer : Optimizer Buf)
  (n_iters n_cycles i : Z) :
  (0 < n_iters < 2 ^ 53)%Z -> (0 < n_cycles)%Z ->
  exists T sch optimizer' m,
    (n_cycles * (T - 1) < n_iters <= n_cycles * T)%Z /\
    math_ceil_truediv n_iters n_cycles = Ok T /\
    _set_scheduler n_cycles optimizer n_iters = Ok (sch, optimizer') /\
    T_M sch = T /\
    lr_lambda T i = Ok (0.5 * (cos (PI * IZR (i mod T) / IZR T) + 1))%R /\
    lr_lambda_float32 T i = Ok m /\
    (Rabs (m - 0.5 * (cos (PI * IZR (i mod T) / IZR T) + 1)) <= / 2 ^ 21)%R /\
    (0 <= m <= 1)%R /\
    ((i mod T = 0)%Z -> m = 1%R) /\
    ((i mod T = T - 1)%Z -> (T <= 12000)%Z -> (0 < m)%R) /\
    ((i mod T = T - 1)%Z -> (13000 <= T)%Z -> m = 0%R) /\
    lr_lambda_float32 T (i + T) = Ok m.
Proof.
  intros Hn Hc.
  destruct (ceil_of_rounded_quotient Hn Hc) as [Hceil Hbounds].
  set (T := (- (- n_iters / n_cycles))%Z) in *.
  assert (HT : (1 <= T <= n_iters)%Z) by nia.
  assert (Hmod : (0 <= i mod T < T)%Z) by (apply Z.mod_pos_bound; lia).
  assert (Hset : exists sch optimizer',
             _set_scheduler n_cycles optimizer n_iters = Ok (sch, optimizer') /\
             T_M sch = T).
  { unfold _set_scheduler, pyceildiv.
    destruct (Z.eqb_spec n_cycles 0) as [E | _]; [lia |]. cbn [bind]. fold T.
    unfold scheduler_step, get_lr. cbn [T_M last_epoch base_lrs].
    rewrite lr_lambda_value by lia. cbn [bind].
    eexists. eexists. split; reflexivity. }
  destruct Hset as (sch & optimizer' & Hset & HTM).
  assert (Hl : forall j, lr_lambda_float32 T j = Ok (multiplier32 T (j mod T))).
  { intros j. unfold lr_lambda_float32, pymod.
    destruct (Z.eqb_spec T 0) as [E | _]; [lia | reflexivity]. }
  exists T, sch, optimizer', (multiplier32 T (i mod T)).
  split; [exact Hbounds |].
  split.
  { unfold math_ceil_truediv.
    destruct (Z.eqb_spec n_cycles 0) as [E | _]; [lia |]. now rewrite Hceil. }
  split; [exact Hset |]. split; [exact HTM |].
  split; [apply lr_lambda_value; lia |].
  split; [apply Hl |].
  split; [apply multiplier_error; lia |].
  split; [apply multiplier_range |].
  split; [intros ->; apply multiplier_phase_0 |].
  split; [intros -> Hsmall; apply multiplier_last_phase_positive; lia |].
  split; [intros -> Hlarge; apply multiplier_last_phase_zero; lia |].
  rewrite Hl. do 2 f_equal.
  rewrite <- (Z_mod_plus_full i 1 T). f_equal. lia.
Qed.

Lemma lr_lambda_cosine_annealing_witness :
  exists T sch optimizer' m,
    (3 * (T - 1) < 60 <= 3 * T)%Z /\
    math_ceil_truediv 60 3 = Ok T /\
    _set_scheduler 3 (mkOptimizer [0.1%R] tt) 60 = Ok (sch, optimizer') /\
    T_M sch = T /\
    lr_lambda T 19 = Ok (0.5 * (cos (PI * IZR (19 mod T) / IZR T) + 1))%R /\
    lr_lambda_float32 T 19 = Ok m /\
    (Rabs (m - 0.5 * (cos (PI * IZR (19 mod T) / IZR T) + 1)) <= / 2 ^ 21)%R /\
    (0 <= m <= 1)%R /\
    ((19 mod T = 0)%Z -> m = 1%R) /\
    ((19 mod T = T - 1)%Z -> (T <= 12000)%Z -> (0 < m)%R) /\
    ((19 mod T = T - 1)%Z -> (13000 <= T)%Z -> m = 0%R) /\
    lr_lambda_float32 T (19 + T) = Ok m.
Proof.
  apply (@lr_lambda_cosine_annealing unit (mkOptimizer [0.1%R] tt) 60 3 19); lia.
Defined.

(** C6 as stated fails. With one cycle of 20000 iterations the period is
    20000, and at the last phase of the cycle the exact multiplier is
    positive but the multiplier the code computes is exactly zero: the
    cosine of the float32 angle is nearer to [-1] than to the next float32
    number. *)
Lemma lr_lambda_reaches_zero_counterexample :
  math_ceil_truediv 20000 1 = Ok 20000%Z /\
  (19999 mod 20000 = 20000 - 1)%Z /\
  (exists exact, lr_lambda 20000 19999 = Ok exact /\ (0 < exact)%R) /\
  lr_lambda_float32 20000 19999 = Ok 0%R.
Proof.
  split.
  { unfold math_ceil_truediv. cbn [Z.eqb]. f_equal.
    apply (@ceil_of_rounded_quotient 20000 1); lia. }
  split; [reflexivity |].
  split.
  { eexists. split; [apply lr_lambda_value; lia |].
    change (19999 mod 20000)%Z with (20000 - 1)%Z.
    pose proof (@last_phase_cos 20000 ltac:(lia)). lra. }
  unfold lr_lambda_float32, pymod. cbn [Z.eqb bind].
  change (19999 mod 20000)%Z with (20000 - 1)%Z.
  f_equal. apply multiplier_last_phase_zero. lia.
Qed.

(** ** The learning-rate clipper *)

Lemma clip_group_spec (lo hi r : R) :
  (lo < hi)%R ->
  (lo <= clip_group lo hi r <= hi)%R /\
  ((lo <= r <= hi)%R -> clip_group lo hi r = r).
Proof.
  intros Hlt. unfold clip_group, Rgtb.
  destruct (Rltb r lo) eqn:E1.
  - apply Rltb_true in E1.
    destruct (Rltb hi lo) eqn:E2.
    + apply Rltb_true in E2. lra.
    + split; [lra | intros; lra].
  - apply Rltb_false in E1.
    destruct (Rltb hi r) eqn:E2.
    + apply Rltb_true in E2. split; [lra | intros; lra].
    + apply Rltb_false in E2. split; [lra | reflexivity].
Qed.

Lemma clip_loop (lr_clip : LrClip) (lo hi : R) (groups done : list R) :
  is_bound lr_clip lo hi ->
  for_each groups
    (fun lr done =>
       lo <- clip_item lr_clip 0 ;;
       let lr := if Rltb lr lo then lo else lr in
       hi <- clip_item lr_clip 1 ;;
       let lr := if Rgtb lr hi then hi else lr in
       Ok (done ++ [lr]))
    done
  = Ok (done ++ map (clip_group lo hi) groups).
Proof.
  intros Hb. revert done.
  induction groups as [| g groups IH]; intros done; simpl.
  - now rewrite app_nil_r.
  - destruct Hb as [-> | ->]; simpl;
      rewrite IH by (unfold is_bound; auto);
      now rewrite <- app_assoc.
Qed.

Lemma clip_lr_bound {B : Type} (opt : Optimizer B) (lr_clip : LrClip) (lo hi : R) :
  is_bound lr_clip lo hi ->
  _clip_lr opt lr_clip
  = Ok (mkOptimizer (map (clip_group lo hi) (param_groups opt)) (buffers opt)).
Proof.
  intros Hb. unfold _clip_lr.
  assert (Ht : truthy lr_clip = true) by (destruct Hb as [-> | ->]; reflexivity).
  rewrite Ht. simpl. now rewrite (clip_loop _ _ Hb).
Qed.

Lemma clip_lr_falsy {B : Type} (opt : Optimizer B) (lr_clip : LrClip) :
  truthy lr_clip = false -> _clip_lr opt lr_clip = Ok opt.
Proof. intros Ht. unfold _clip_lr. now rewrite Ht. Qed.

(** C8. With a bound [(lo, hi)], [lo < hi], [_clip_lr] returns normally and
    takes the rate [r] of every parameter group to a rate [c] with
    [lo <= c <= hi], and [c = r] when [lo <= r <= hi]; with no bound
    ([None]) it returns the optimizer as it is. *)
Theorem clip_lr_spec {B : Type} (opt : Optimizer B) (lr_clip : LrClip) (lo hi : R) :
  (lo < hi)%R ->
  is_bound lr_clip lo hi ->
  (exists clipped,
     _clip_lr opt lr_clip = Ok (mkOptimizer clipped (buffers opt)) /\
     Forall2 (fun r c => (lo <= c <= hi)%R /\ ((lo <= r <= hi)%R -> c = r))
             (param_groups opt) clipped) /\
  _clip_lr opt ClipNone = Ok opt.
Proof.
  intros Hlt Hb. split; [| reflexivity].
  eexists. split; [apply (clip_lr_bound _ Hb) |].
  induction (param_groups opt) as [| r rs IH]; simpl; constructor.
  - apply clip_group_spec, Hlt.
  - exact IH.
Qed.

Lemma clip_lr_spec_witness :
  (exists clipped,
     _clip_lr (mkOptimizer [0.125; 0.5; 1]%R tt) (ClipTuple [0.25; 0.75]%R)
     = Ok (mkOptimizer clipped tt) /\
     Forall2 (fun r c => (0.25 <= c <= 0.75)%R /\
                         ((0.25 <= r <= 0.75)%R -> c = r))
             [0.125; 0.5; 1]%R clipped) /\
  _clip_lr (mkOptimizer [0.125; 0.5; 1]%R tt) ClipNone
  = Ok (mkOptimizer [0.125; 0.5; 1]%R tt).
Proof.
  apply (@clip_lr_spec unit (mkOptimizer [0.125; 0.5; 1]%R tt)
           (ClipTuple [0.25; 0.75]%R) 0.25 0.75).
  - lra.
  - right. reflexivity.
Defined.

(** ** Tensor algebra *)

Lemma zip_with_comm {A B : Type} (f : A -> A -> B) :
  (forall x y, f x y = f y x) ->
  forall a b, zip_with f a b = zip_with f b a.
Proof.
  intros Hf a. induction a as [| x a IH]; intros [| y b]; simpl; try reflexivity.
  now rewrite Hf, IH.
Qed.

Lemma zip_with_assoc {A : Type} (f : A -> A -> A) :
  (forall x y z, f (f x y) z = f x (f y z)) ->
  forall a b c, zip_with f (zip_with f a b) c = zip_with f a (zip_with f b c).
Proof.
  intros Hf a. induction a as [| x a IH]; intros [| y b] [| z c]; simpl;
    try reflexivity.
  now rewrite Hf, IH.
Qed.

Lemma tensor_add_comm (a b : Tensor) : tensor_add a b = tensor_add b a.
Proof.
  apply zip_with_comm. intros x y. apply zip_with_comm. intros; apply Rplus_comm.
Qed.

Lemma tensor_add_assoc (a b c : Tensor) :
  tensor_add (tensor_add a b) c = tensor_add a (tensor_add b c).
Proof.
  apply zip_with_assoc. intros x y z. apply zip_with_assoc.
  intros; apply Rplus_assoc.
Qed.

Lemma row_add_zeros (row : list R) :
  zip_with Rplus (repeat 0%R (length row)) row = row.
Proof.
  induction row as [| x row IH]; simpl; [reflexivity |].
  now rewrite IH, Rplus_0_l.
Qed.

Lemma tensor_add_zeros_l (t : Tensor) (rows cols : nat) :
  shape t rows cols -> tensor_add (zeros rows cols) t = t.
Proof.
  intros [Hlen Hrows]. subst rows. unfold tensor_add, zeros.
  induction Hrows as [| row t Hrow _ IH]; simpl; [reflexivity |].
  rewrite IH. subst cols. now rewrite row_add_zeros.
Qed.

Lemma tensor_add_zeros_r (t : Tensor) (rows cols : nat) :
  shape t rows cols -> tensor_add t (zeros rows cols) = t.
Proof. intros Hs. rewrite tensor_add_comm. now apply tensor_add_zeros_l. Qed.

Lemma shape_zeros (rows cols : nat) : shape (zeros rows cols) rows cols.
Proof.
  unfold shape, zeros. split; [apply repeat_length |].
  apply Forall_forall. intros row Hin. apply repeat_spec in Hin. subst row.
  apply repeat_length.
Qed.

Lemma zip_with_length {A B C : Type} (f : A -> B -> C) (a : list A) (b : list B) :
  length a = length b -> length (zip_with f a b) = length a.
Proof.
  revert b. induction a as [| x a IH]; intros [| y b]; simpl; intros Hl;
    try reflexivity; try discriminate.
  f_equal. apply IH. now injection Hl.
Qed.

Lemma shape_add (a b : Tensor) (rows cols : nat) :
  shape a rows cols -> shape b rows cols -> shape (tensor_add a b) rows cols.
Proof.
  intros [Ha Hra] [Hb Hrb]. subst rows. unfold shape, tensor_add.
  split; [apply zip_with_length; congruence |].
  revert b Hb Hrb.
  induction Hra as [| x a Hx _ IH]; intros [| y b] Hb Hrb; simpl;
    try constructor; try discriminate.
  - inversion Hrb; subst. rewrite zip_with_length; congruence.
  - inversion Hrb; subst. apply IH; [now injection Hb | assumption].
Qed.

Lemma shape_div (a : Tensor) (c : R) (rows cols : nat) :
  shape a rows cols -> shape (tensor_div a c) rows cols.
Proof.
  intros [Ha Hra]. unfold shape, tensor_div. split; [now rewrite length_map |].
  apply Forall_map. eapply Forall_impl; [| exact Hra].
  intros row Hrow. simpl. now rewrite length_map.
Qed.

Lemma tensor_div_add (a b : Tensor) (c : R) :
  tensor_div (tensor_add a b) c = tensor_add (tensor_div a c) (tensor_div b c).
Proof.
  unfold tensor_div, tensor_add. revert b.
  induction a as [| x a IH]; intros [| y b]; simpl; try reflexivity.
  rewrite IH. f_equal.
  clear. revert y. induction x as [| u x IHx]; intros [| v y]; simpl;
    try reflexivity.
  rewrite IHx. f_equal. unfold Rdiv. ring.
Qed.

Lemma tensor_div_zeros (rows cols : nat) (c : R) :
  tensor_div (zeros rows cols) c = zeros rows cols.
Proof.
  unfold tensor_div, zeros. rewrite map_repeat. f_equal.
  rewrite map_repeat. f_equal. unfold Rdiv. ring.
Qed.

Lemma shape_tensor_sum (rows cols : nat) (ts : list Tensor) :
  Forall (fun t => shape t rows cols) ts -> shape (tensor_sum rows cols ts) rows cols.
Proof.
  induction 1 as [| t ts Ht _ IH]; simpl.
  - apply shape_zeros.
  - now apply shape_add.
Qed.

Lemma tensor_sum_div (rows cols : nat) (ts : list Tensor) (c : R) :
  tensor_sum rows cols (map (fun t => tensor_div t c) ts)
  = tensor_div (tensor_sum rows cols ts) c.
Proof.
  induction ts as [| t ts IH]; simpl.
  - now rewrite tensor_div_zeros.
  - now rewrite IH, tensor_div_add.
Qed.

(** The accumulation loop of [_forward], from any accumulator of the right
    shape. *)
Lemma accumulate_sum (rows cols : nat) (ts : list Tensor) (acc : Tensor) :
  shape acc rows cols ->
  Forall (fun t => shape t rows cols) ts ->
  fold_left tensor_add ts acc = tensor_add acc (tensor_sum rows cols ts).
Proof.
  intros Hacc Hts. revert acc Hacc.
  induction Hts as [| t ts Ht _ IH]; intros acc Hacc; simpl.
  - now rewrite tensor_add_zeros_r.
  - rewrite IH by now apply shape_add.
    apply tensor_add_assoc.
Qed.

Lemma fold_left_map {A B C : Type} (f : A -> B -> A) (g : C -> B) (l : list C) (a : A) :
  fold_left (fun acc x => f acc (g x)) l a = fold_left f (map g l) a.
Proof. revert a. induction l as [| x l IH]; intros a; simpl; [reflexivity | apply IH]. Qed.

Lemma fold_left_permutation {A B : Type} (f : A -> B -> A) :
  (forall a x y, f (f a x) y = f (f a y) x) ->
  forall l l', Permutation l l' -> forall a, fold_left f l a = fold_left f l' a.
Proof.
  intros Hf l l' Hp.
  induction Hp as [| x l l' _ IH | x y l | l l' l'' _ IH1 _ IH2]; intros a; simpl.
  - reflexivity.
  - apply IH.
  - now rewrite Hf.
  - now rewrite IH1, IH2.
Qed.

(** ** The ensemble predictor *)

Section Predictor.
Context `{Collaborators}.

Lemma forward_as_sum (self : Ensemble Model) (X : Tensor) (n : nat) :
  n_outputs self = Some n ->
  Forall (fun e => shape (estimator_forward e X) (length X) n) (estimators_ self) ->
  _forward self X
  = Ok (tensor_mean (length X) n
          (map (fun e => estimator_forward e X) (estimators_ self))).
Proof.
  intros Hn Hshape. unfold _forward. rewrite Hn. f_equal.
  set (c := INR (length (estimators_ self))).
  rewrite (fold_left_map tensor_add
             (fun e => tensor_div (estimator_forward e X) c)).
  rewrite (@accumulate_sum (length X) n).
  - rewrite tensor_add_zeros_l.
    + unfold tensor_mean. rewrite length_map. fold c.
      rewrite <- tensor_sum_div. now rewrite map_map.
    + apply shape_tensor_sum. apply Forall_map.
      eapply Forall_impl; [| exact Hshape]. intros e He. now apply shape_div.
  - apply shape_zeros.
  - apply Forall_map. eapply Forall_impl; [| exact Hshape].
    intros e He. now apply shape_div.
Qed.

Lemma forward_permutation (n_est : Z) (n_out : option nat)
  (ests ests' : list Model) (X : Tensor) :
  Permutation ests ests' ->
  _forward (mkEnsemble n_est n_out ests) X
  = _forward (mkEnsemble n_est n_out ests') X.
Proof.
  intros Hp. unfold _forward. simpl. destruct n_out as [n |]; [| reflexivity].
  f_equal. rewrite (Permutation_length Hp).
  apply fold_left_permutation; [| exact Hp].
  intros a x y. rewrite !tensor_add_assoc. f_equal. apply tensor_add_comm.
Qed.

Lemma forward_empty (self : Ensemble Model) (X : Tensor) (n : nat) :
  n_outputs self = Some n -> estimators_ self = [] ->
  _forward self X = Ok (zeros (length X) n).
Proof. intros Hn He. unfold _forward. now rewrite Hn, He. Qed.

(** C5. On a non-empty collection of snapshots whose outputs on the batch
    [X] all have the shape of the accumulator ([len(X)] rows of [n_outputs]
    entries), the classifier's prediction is the row-wise softmax, applied
    once, of the elementwise arithmetic mean of the snapshots' raw
    outputs. *)
Theorem classifier_forward_softmax_of_mean (self : Ensemble Model) (X : Tensor)
  (n : nat) :
  n_outputs self = Some n ->
  estimators_ self <> [] ->
  Forall (fun e => shape (estimator_forward e X) (length X) n) (estimators_ self) ->
  SnapshotEnsembleClassifier.forward self X
  = Ok (softmax (tensor_mean (length X) n
                   (map (fun e => estimator_forward e X) (estimators_ self)))).
Proof.
  intros Hn _ Hshape. unfold SnapshotEnsembleClassifier.forward.
  now rewrite (forward_as_sum _ _ Hn Hshape).
Qed.

(** C9. The prediction does not depend on the order of the snapshots in
    the collection: two ensembles whose collections are permutations of one
    another give the same [_forward], and so the same classifier and
    regressor predictions, on every batch (exact arithmetic). *)
Theorem forward_order_invariant (n_est : Z) (n_out : option nat)
  (ests ests' : list Model) (X : Tensor) :
  ests <> [] ->
  Permutation ests ests' ->
  _forward (mkEnsemble n_est n_out ests) X
  = _forward (mkEnsemble n_est n_out ests') X /\
  SnapshotEnsembleClassifier.forward (mkEnsemble n_est n_out ests) X
  = SnapshotEnsembleClassifier.forward (mkEnsemble n_est n_out ests') X /\
  SnapshotEnsembleRegressor.forward (mkEnsemble n_est n_out ests) X
  = SnapshotEnsembleRegressor.forward (mkEnsemble n_est n_out ests') X.
Proof.
  intros _ Hp. unfold SnapshotEnsembleClassifier.forward,
    SnapshotEnsembleRegressor.forward.
  rewrite (forward_permutation n_est n_out X Hp). auto.
Qed.

(** C10, as the code has it. On an empty collection the predictor is not
    guarded and does not fail for want of snapshots: once [fit] has assigned
    [n_outputs], [_forward] returns the all-zero tensor of [len(X)] rows by
    [n_outputs] entries (the regressor's prediction), and the classifier
    returns its softmax; on an object whose [n_outputs] was never assigned
    the attribute lookup raises [AttributeError]. *)
Theorem forward_empty_collection (self : Ensemble Model) (X : Tensor) :
  estimators_ self = [] ->
  match n_outputs self with
  | Some n =>
      _forward self X = Ok (zeros (length X) n) /\
      SnapshotEnsembleRegressor.forward self X = Ok (zeros (length X) n) /\
      SnapshotEnsembleClassifier.forward self X = Ok (softmax (zeros (length X) n))
  | None =>
      _forward self X = Raise AttributeError /\
      SnapshotEnsembleRegressor.forward self X = Raise AttributeError /\
      SnapshotEnsembleClassifier.forward self X = Raise AttributeError
  end.
Proof.
  intros He. unfold SnapshotEnsembleClassifier.forward,
    SnapshotEnsembleRegressor.forward.
  destruct (n_outputs self) as [n |] eqn:Hn.
  - rewrite (forward_empty _ X Hn He). auto.
  - unfold _forward. rewrite Hn. auto.
Qed.

End Predictor.

Lemma classifier_forward_softmax_of_mean_witness :
  @SnapshotEnsembleClassifier.forward toy (mkEnsemble 2 (Some 2%nat) [3; 5]%Z) [[1]; [2]]%R
  = Ok (softmax (tensor_mean 2 2
                   (map (fun e => @estimator_forward toy e [[1]; [2]]%R)
                        [3; 5]%Z))).
Proof.
  apply (@classifier_forward_softmax_of_mean toy
           (mkEnsemble 2 (Some 2%nat) [3; 5]%Z) [[1]; [2]]%R 2).
  - reflexivity.
  - discriminate.
  - repeat constructor.
Defined.

Lemma forward_order_invariant_witness :
  @_forward toy (mkEnsemble 2 (Some 2%nat) [3; 5]%Z) [[1]; [2]]%R
  = @_forward toy (mkEnsemble 2 (Some 2%nat) [5; 3]%Z) [[1]; [2]]%R /\
  @SnapshotEnsembleClassifier.forward toy (mkEnsemble 2 (Some 2%nat) [3; 5]%Z) [[1]; [2]]%R
  = @SnapshotEnsembleClassifier.forward toy (mkEnsemble 2 (Some 2%nat) [5; 3]%Z) [[1]; [2]]%R /\
  @SnapshotEnsembleRegressor.forward toy (mkEnsemble 2 (Some 2%nat) [3; 5]%Z) [[1]; [2]]%R
  = @SnapshotEnsembleRegressor.forward toy (mkEnsemble 2 (Some 2%nat) [5; 3]%Z) [[1]; [2]]%R.
Proof.
  apply (@forward_order_invariant toy 2 (Some 2%nat) [3; 5]%Z [5; 3]%Z).
  - discriminate.
  - apply perm_swap.
Defined.

Lemma forward_empty_collection_witness :
  @_forward toy (mkEnsemble 3 (Some 2%nat) []) [[1]]%R = Ok (zeros 1 2) /\
  @SnapshotEnsembleRegressor.forward toy (mkEnsemble 3 (Some 2%nat) []) [[1]]%R
  = Ok (zeros 1 2) /\
  @SnapshotEnsembleClassifier.forward toy (mkEnsemble 3 (Some 2%nat) []) [[1]]%R
  = Ok (softmax (zeros 1 2)).
Proof.
  apply (@forward_empty_collection toy (mkEnsemble 3 (Some 2%nat) []) [[1]]%R).
  reflexivity.
Defined.

(** The order of the two operations matters: for two snapshots with the
    logits [(0, 0)] and [(2, 0)] the prediction, the softmax of the mean, is
    not the mean of the two softmaxes. *)
Lemma softmax_of_mean_differs_from_mean_of_softmaxes :
  @SnapshotEnsembleClassifier.forward toy (mkEnsemble 2 (Some 2%nat) [0; 2]%Z) [[1]]%R
  <> Ok (tensor_mean 1 2
           (map (fun e => softmax (@estimator_forward toy e [[1]]%R)) [0; 2]%Z)).
Proof.
  intros Heq.
  assert (Hfst : forall a b : Tensor,
             Ok a = Ok b -> nth 0 (nth 0 a []) 0%R = nth 0 (nth 0 b []) 0%R)
    by (intros a b [= ->]; reflexivity).
  apply Hfst in Heq. cbn in Heq.
  replace (0 + 0 / (1 + 1) + 2 / (1 + 1))%R with 1%R in Heq by field.
  replace (0 + 0 / (1 + 1) + 0 / (1 + 1))%R with 0%R in Heq by field.
  replace 2%R with (1 + 1)%R in Heq by ring.
  rewrite exp_plus, exp_0 in Heq.
  pose proof (exp_ineq1 1 ltac:(lra)) as Hu.
  set (u := exp 1) in *.
  assert (H1 : (u + (1 + 0) <> 0)%R) by lra.
  assert (H2 : (u * u + (1 + 0) <> 0)%R) by nra.
  apply (f_equal (fun x => (x * (u + (1 + 0)) * (u * u + (1 + 0)) * 4)%R)) in Heq.
  field_simplify in Heq; [| nra | lra].
  assert ((u - 1) * (u - 1) * (u - 1) > 0)%R.
  { apply Rmult_lt_0_compat; [apply Rmult_lt_0_compat |]; lra. }
  nra.
Qed.

(** ** Parameter validation *)

Lemma check_lr_clip_accepted (lr_clip : LrClip) :
  clip_accepted lr_clip -> check_lr_clip lr_clip = Ok tt.
Proof.
  intros [Hf | (lo & hi & Hb & Hlt)]; unfold check_lr_clip.
  - now rewrite Hf.
  - apply Rltb_true in Hlt.
    destruct Hb as [-> | ->]; simpl; now rewrite Hlt.
Qed.

Lemma check_lr_clip_rejected (lr_clip : LrClip) :
  ~ clip_accepted lr_clip ->
  exists why, check_lr_clip lr_clip = Raise (ValueError why).
Proof.
  intros Hno. unfold check_lr_clip.
  destruct (truthy lr_clip) eqn:Ht; [| exfalso; apply Hno; now left].
  assert (Hseq : forall l, lr_clip = ClipList l \/ lr_clip = ClipTuple l ->
            exists why,
              (raise_if (negb (is_list_or_tuple lr_clip)) (ValueError BadLrClipType) ;;;
               len <- clip_len lr_clip ;;
               raise_if (negb (len =? 2)%Z) (ValueError BadLrClipLength) ;;;
               lo <- clip_item lr_clip 0 ;;
               hi <- clip_item lr_clip 1 ;;
               raise_if (negb (Rltb lo hi)) (ValueError BadLrClipOrder))
              = Raise (ValueError why)).
  { intros l Hl.
    destruct l as [| lo [| hi [| x l]]].
    - destruct Hl as [-> | ->]; discriminate Ht.
    - destruct Hl as [-> | ->]; eexists; reflexivity.
    - destruct (Rltb lo hi) eqn:E.
      + exfalso. apply Hno. right. exists lo, hi. split.
        * exact Hl.
        * now apply Rltb_true.
      + destruct Hl as [-> | ->]; simpl; rewrite E; eexists; reflexivity.
    - assert (Hlen : (Z.of_nat (length (lo :: hi :: x :: l)) =? 2)%Z = false)
        by (apply Z.eqb_neq; simpl length; lia).
      destruct Hl as [-> | ->];
        cbv beta iota delta [clip_len is_list_or_tuple bind negb];
        unfold raise_if at 1; rewrite Hlen; eexists; reflexivity. }
  destruct lr_clip as [| l | l | b].
  - discriminate Ht.
  - apply (Hseq l). now left.
  - apply (Hseq l). now right.
  - eexists. reflexivity.
Qed.

Lemma clip_accepted_dec (lr_clip : LrClip) :
  clip_accepted lr_clip \/ ~ clip_accepted lr_clip.
Proof.
  destruct (truthy lr_clip) eqn:Ht; [| left; now left].
  assert (Hseq : forall l, lr_clip = ClipList l \/ lr_clip = ClipTuple l ->
            clip_accepted lr_clip \/ ~ clip_accepted lr_clip).
  { intros l Hl.
    assert (Hinv : forall lo hi, is_bound lr_clip lo hi -> l = [lo; hi])
      by (intros lo hi [Hb | Hb]; destruct Hl as [-> | ->]; congruence).
    destruct l as [| lo [| hi [| x l]]];
      try (right; intros [Hf | (lo' & hi' & Hb & _)];
           [congruence | apply Hinv in Hb; discriminate Hb]).
    destruct (Rlt_dec lo hi) as [Hlt | Hge].
    - left. right. exists lo, hi. split; [exact Hl | exact Hlt].
    - right. intros [Hf | (lo' & hi' & Hb & Hlt)]; [congruence |].
      apply Hinv in Hb. injection Hb as -> ->. contradiction. }
  destruct lr_clip as [| l | l | b].
  - discriminate Ht.
  - apply (Hseq l). now left.
  - apply (Hseq l). now right.
  - right. intros [Hf | (lo & hi & [Hb | Hb] & _)]; congruence.
Qed.

Section Validation.
Context `{Collaborators}.
Variables (self : Ensemble Model) (init_lr : R) (lr_clip : LrClip).
Variables (weight_decay : R) (epochs log_interval : Z).

Lemma validate_accepted :
  n_estimators self <> 0%Z ->
  config_accepted (n_estimators self) init_lr lr_clip weight_decay epochs
                  log_interval ->
  _validate_parameters self init_lr lr_clip weight_decay epochs log_interval
  = Ok tt.
Proof.
  intros Hn (Hlr & Hclip & Hwd & He & Hlog & Hmod).
  unfold _validate_parameters, Rgtb, pymod.
  apply Rltb_true in Hlr. rewrite Hlr. simpl.
  rewrite (check_lr_clip_accepted Hclip). simpl.
  assert (Hwd' : Rgeb weight_decay 0 = true) by (apply Rgeb_true; lra).
  rewrite Hwd'. simpl.
  assert (He' : (epochs >? 0)%Z = true) by lia. rewrite He'. simpl.
  assert (Hlog' : (log_interval >? 0)%Z = true) by lia. rewrite Hlog'. simpl.
  destruct (Z.eqb_spec (n_estimators self) 0); [contradiction |]. simpl.
  now rewrite Hmod.
Qed.

Lemma validate_rejected :
  n_estimators self <> 0%Z ->
  ~ config_accepted (n_estimators self) init_lr lr_clip weight_decay epochs
                    log_interval ->
  exists why,
    _validate_parameters self init_lr lr_clip weight_decay epochs log_interval
    = Raise (ValueError why).
Proof.
  intros Hn Hno. unfold _validate_parameters, Rgtb, pymod.
  destruct (Rltb 0 init_lr) eqn:Hlr; simpl; [| eexists; reflexivity].
  apply Rltb_true in Hlr.
  destruct (clip_accepted_dec lr_clip) as [Hclip | Hclip].
  2: { destruct (check_lr_clip_rejected Hclip) as (why & ->).
       eexists; reflexivity. }
  rewrite (check_lr_clip_accepted Hclip). simpl.
  destruct (Rgeb weight_decay 0) eqn:Hwd; simpl; [| eexists; reflexivity].
  apply Rgeb_true in Hwd.
  destruct (epochs >? 0)%Z eqn:He; simpl; [| eexists; reflexivity].
  destruct (log_interval >? 0)%Z eqn:Hlog; simpl; [| eexists; reflexivity].
  destruct (Z.eqb_spec (n_estimators self) 0); [contradiction |]. simpl.
  destruct (Z.eqb_spec (epochs mod n_estimators self) 0) as [Hmod | Hmod];
    simpl; [| eexists; reflexivity].
  exfalso. apply Hno. repeat split; try assumption; try lia; lra.
Qed.

Lemma validate_bad_multiple :
  (0 < init_lr)%R -> clip_accepted lr_clip -> (0 <= weight_decay)%R ->
  (0 < epochs)%Z -> (0 < log_interval)%Z ->
  n_estimators self <> 0%Z -> (epochs mod n_estimators self <> 0)%Z ->
  _validate_parameters self init_lr lr_clip weight_decay epochs log_interval
  = Raise (ValueError BadMultiple).
Proof.
  intros Hlr Hclip Hwd He Hlog Hn Hmod.
  unfold _validate_parameters, Rgtb, pymod.
  apply Rltb_true in Hlr. rewrite Hlr. simpl.
  rewrite (check_lr_clip_accepted Hclip). simpl.
  assert (Hwd' : Rgeb weight_decay 0 = true) by (apply Rgeb_true; lra).
  rewrite Hwd'. simpl.
  assert (He' : (epochs >? 0)%Z = true) by lia. rewrite He'. simpl.
  assert (Hlog' : (log_interval >? 0)%Z = true) by lia. rewrite Hlog'. simpl.
  destruct (Z.eqb_spec (n_estimators self) 0); [contradiction |]. simpl.
  destruct (Z.eqb_spec (epochs mod n_estimators self) 0); [contradiction |].
  reflexivity.
Qed.

End Validation.

(** ** The training loop *)

Lemma for_each_app {A S : Type} (xs ys : list A) (body : A -> S -> Result S) (s : S) :
  for_each (xs ++ ys) body s = (s' <- for_each xs body s ;; for_each ys body s').
Proof.
  revert s. induction xs as [| x xs IH]; intros s; simpl; [reflexivity |].
  destruct (body x s); simpl; [apply IH | reflexivity].
Qed.

Lemma range_succ (m : nat) :
  range (Z.of_nat (S m)) = range (Z.of_nat m) ++ [Z.of_nat m].
Proof.
  unfold range. rewrite !Nat2Z.id, seq_S, map_app. reflexivity.
Qed.

Lemma pymod_ok (a b : Z) : b <> 0%Z -> pymod a b = Ok (a mod b)%Z.
Proof. intros Hb. unfold pymod. now destruct (Z.eqb_spec b 0). Qed.

Lemma scheduler_step_ok {B : Type} (sch : LambdaLR) (opt : Optimizer B) :
  T_M sch <> 0%Z ->
  exists lrs,
    scheduler_step sch opt
    = Ok (mkLambdaLR (T_M sch) (base_lrs sch) (last_epoch sch + 1),
          mkOptimizer lrs (buffers opt)).
Proof.
  intros HT. unfold scheduler_step, get_lr. simpl.
  rewrite (lr_lambda_value _ HT). simpl. eexists. reflexivity.
Qed.

Lemma clip_lr_accepted {B : Type} (opt : Optimizer B) (lr_clip : LrClip) :
  clip_accepted lr_clip ->
  exists lrs, _clip_lr opt lr_clip = Ok (mkOptimizer lrs (buffers opt)).
Proof.
  intros [Hf | (lo & hi & Hb & _)].
  - rewrite (clip_lr_falsy _ _ Hf). exists (param_groups opt). now destruct opt.
  - rewrite (clip_lr_bound _ Hb). eexists. reflexivity.
Qed.

Section Run.
Context `{Collaborators}.
Variable T : Task.
Variable train_loader : list Batch.
Variable lr_clip : LrClip.
Variable test_loader : option (list TestBatch).
Variable save_model : bool.

(** Whatever one batch does, it adds one to the counter and leaves the
    best score and the scheduler's period alone. *)
Lemma fit_batch_inv (batch : Batch) (l l' : Locals T) :
  fit_batch lr_clip batch l = Ok l' ->
  counter l' = (counter l + 1)%Z /\ best l' = best l /\
  T_M (scheduler l') = T_M (scheduler l).
Proof.
  unfold fit_batch.
  destruct (_clip_lr (optimizer l) lr_clip) as [opt |]; simpl; [| discriminate].
  destruct (train_step (estimator_ l) opt batch) as [est buf].
  unfold scheduler_step.
  destruct (get_lr _) as [lrs |]; simpl; [| discriminate].
  intros [= <-]. simpl. auto.
Qed.

Lemma fit_batch_ok (batch : Batch) (l : Locals T) :
  clip_accepted lr_clip -> T_M (scheduler l) <> 0%Z ->
  exists l', fit_batch lr_clip batch l = Ok l'.
Proof.
  intros Hclip HT. unfold fit_batch.
  destruct (clip_lr_accepted (optimizer l) Hclip) as (lrs & ->). simpl.
  destruct (train_step _ _ batch) as [est buf].
  destruct (scheduler_step_ok (scheduler l) (mkOptimizer lrs buf) HT) as (lrs' & ->).
  simpl. eexists. reflexivity.
Qed.

Lemma batches_inv (batches : list Batch) (l l' : Locals T) :
  for_each batches (fit_batch lr_clip) l = Ok l' ->
  counter l' = (counter l + Z.of_nat (length batches))%Z /\
  best l' = best l /\ T_M (scheduler l') = T_M (scheduler l).
Proof.
  revert l. induction batches as [| b batches IH]; intros l; simpl.
  - intros [= <-]. repeat split. lia.
  - destruct (fit_batch lr_clip b l) as [l1 |] eqn:E; simpl; [| discriminate].
    intros Hrest. apply fit_batch_inv in E as (Hc & Hb & HT).
    apply IH in Hrest as (Hc' & Hb' & HT').
    repeat split; [lia | congruence | congruence].
Qed.

Lemma batches_ok (batches : list Batch) (l : Locals T) :
  clip_accepted lr_clip -> T_M (scheduler l) <> 0%Z ->
  exists l', for_each batches (fit_batch lr_clip) l = Ok l'.
Proof.
  intros Hclip. revert l.
  induction batches as [| b batches IH]; intros l HT; simpl.
  - eexists. reflexivity.
  - destruct (fit_batch_ok b l Hclip HT) as (l1 & E). rewrite E. simpl.
    apply IH. apply fit_batch_inv in E as (_ & _ & ->). exact HT.
Qed.

(** One epoch, in full. If it returns, the batches returned some locals
    [l1], the divisor is not zero, the collection grew by the live estimator
    exactly when the counter of [l1] is a multiple of
    [n_iters_per_estimator], and the gate ran exactly when moreover the test
    loader is true. If it raises, the world is as it was. *)
Lemma fit_epoch_spec (ipe epoch : Z) (l : Locals T) (w : World) :
  match fit_epoch train_loader lr_clip test_loader save_model ipe epoch l w with
  | (w', Ok l') =>
      exists l1,
        for_each train_loader (fit_batch lr_clip) l = Ok l1 /\ ipe <> 0%Z /\
        let boundary := (counter l1 mod ipe =? 0)%Z in
        let ests :=
          estimators_ (self_ w) ++ (if boundary then [estimator_ l1] else []) in
        let self' :=
          mkEnsemble (n_estimators (self_ w)) (n_outputs (self_ w)) ests in
        let score := sweep T self' (loader_batches test_loader) in
        let better :=
          loader_truthy test_loader && boundary && improves T score (best l1) in
        w' = mkWorld self'
               (saved w ++ (if better && save_model then [ests] else [])) /\
        l' = mkLocals T (estimator_ l1) (optimizer l1) (scheduler l1)
               (if better then score else best l1) (counter l1)
  | (w', Raise e) => w' = w
  end.
Proof.
  unfold fit_epoch, bindM, lift.
  destruct (for_each train_loader (fit_batch lr_clip) l) as [l1 |]; [| reflexivity].
  unfold pymod. destruct (Z.eqb_spec ipe 0) as [| Hipe]; [reflexivity |].
  destruct w as [[n o ests] sv], l1 as [e1 o1 s1 b1 c1]. simpl.
  destruct (c1 mod ipe =? 0)%Z eqn:Eb; simpl;
    destruct (loader_truthy test_loader) eqn:El; simpl;
    unfold fit_validate, bindM, get_self, lift, ret, save; simpl;
    try (destruct (improves T _ b1) eqn:Ei; simpl; try destruct save_model; simpl);
    (eexists; split; [reflexivity |]; split; [exact Hipe |]; simpl;
     rewrite ?Eb, ?Ei; simpl; rewrite ?app_nil_r; auto).
Qed.

Lemma fit_epoch_ok (ipe epoch : Z) (l : Locals T) (w : World) :
  clip_accepted lr_clip -> T_M (scheduler l) <> 0%Z -> ipe <> 0%Z ->
  exists w' l',
    fit_epoch train_loader lr_clip test_loader save_model ipe epoch l w
    = (w', Ok l').
Proof.
  intros Hclip HT Hipe. unfold fit_epoch, bindM, lift.
  destruct (batches_ok train_loader l Hclip HT) as (l1 & ->).
  rewrite (pymod_ok _ Hipe).
  destruct (counter l1 mod ipe =? 0)%Z; simpl;
    destruct (loader_truthy test_loader); simpl;
    unfold fit_validate, bindM, get_self, lift, ret, save; simpl;
    try (destruct (improves T _ _); simpl; try destruct save_model; simpl);
    eexists; eexists; reflexivity.
Qed.

Lemma for_eachM_app {A S : Type} (xs ys : list A) (body : A -> S -> M S)
  (s : S) (w : World) :
  for_eachM (xs ++ ys) body s w
  = match for_eachM xs body s w with
    | (w', Ok s') => for_eachM ys body s' w'
    | (w', Raise e) => (w', Raise e)
    end.
Proof.
  revert s w. induction xs as [| x xs IH]; intros s w; simpl.
  - reflexivity.
  - unfold bindM. destruct (body x s w) as [w1 [s1 | e]]; [apply IH | reflexivity].
Qed.

Local Abbreviation epoch_body ipe :=
  (fit_epoch train_loader lr_clip test_loader save_model ipe).

(** With no test loader, or an empty one, the training loop never saves. *)
Lemma loop_no_save (ipe : Z) (xs : list Z) (l : Locals T) (w w' : World)
  (r : Result (Locals T)) :
  loader_truthy test_loader = false ->
  for_eachM xs (epoch_body ipe) l w = (w', r) ->
  saved w' = saved w.
Proof.
  intros Hno. revert l w.
  induction xs as [| x xs IH]; intros l w; simpl.
  - unfold ret. now intros [= <- _].
  - unfold bindM. pose proof (fit_epoch_spec ipe x l w) as Hs.
    destruct (epoch_body ipe x l w) as [w1 [l1 | e]].
    + destruct Hs as (l2 & _ & _ & Hw & _). rewrite Hno in Hw. simpl in Hw.
      intros Hrest. apply IH in Hrest. rewrite Hrest, Hw. simpl.
      now rewrite app_nil_r.
    + intros [= <- _]. now rewrite Hs.
Qed.

(** Along the training loop the best score only moves along [improves]:
    any preorder that contains every improvement relates the best score
    before to the best score after. *)
Lemma loop_best (P : Score T -> Score T -> Prop) :
  (forall b, P b b) ->
  (forall a b c, P a b -> P b c -> P a c) ->
  (forall score b, improves T score b = true -> P b score) ->
  forall (ipe : Z) (xs : list Z) (l l' : Locals T) (w w' : World),
    for_eachM xs (epoch_body ipe) l w = (w', Ok l') ->
    P (best l) (best l').
Proof.
  intros Hrefl Htrans Himp ipe xs.
  induction xs as [| x xs IH]; intros l l' w w'; simpl.
  - unfold ret. intros [= _ <-]. apply Hrefl.
  - unfold bindM. pose proof (fit_epoch_spec ipe x l w) as Hs.
    destruct (epoch_body ipe x l w) as [w1 [l1 | e]]; [| discriminate].
    destruct Hs as (l2 & Hb & _ & _ & Hl). intros Hrest.
    apply IH in Hrest. apply batches_inv in Hb as (_ & Hbest & _).
    apply Htrans with (best l1); [| exact Hrest].
    rewrite Hl. simpl.
    match goal with |- P _ (if ?c then _ else _) => destruct c eqn:Ec end.
    + rewrite <- Hbest. apply Himp.
      apply andb_true_iff in Ec as [_ Ec]. exact Ec.
    + rewrite Hbest. apply Hrefl.
Qed.

End Run.

(** ** Cycle boundaries *)

Lemma div_succ_boundary (m k : Z) :
  (0 <= m)%Z -> (0 < k)%Z -> ((m + 1) mod k = 0)%Z ->
  ((m + 1) / k = m / k + 1)%Z.
Proof.
  intros Hm Hk Hmod.
  pose proof (Z.div_mod (m + 1) k ltac:(lia)) as E. rewrite Hmod in E.
  assert (m / k = (m + 1) / k - 1)%Z.
  { symmetry. apply Z.div_unique with (r := (k - 1)%Z); lia. }
  lia.
Qed.

Lemma div_succ_inside (m k : Z) :
  (0 <= m)%Z -> (0 < k)%Z -> ((m + 1) mod k <> 0)%Z ->
  ((m + 1) / k = m / k)%Z.
Proof.
  intros Hm Hk Hmod.
  pose proof (Z.div_mod (m + 1) k ltac:(lia)) as E.
  pose proof (Z.mod_pos_bound (m + 1) k Hk) as Hb.
  apply Z.div_unique with (r := ((m + 1) mod k - 1)%Z); lia.
Qed.

Lemma boundary_iff (c k b : Z) :
  (0 < k)%Z -> (0 < b)%Z ->
  ((c * b) mod (k * b) =? 0)%Z = (c mod k =? 0)%Z.
Proof.
  intros Hk Hb. rewrite Z.mul_mod_distr_r by lia.
  destruct (Z.eqb_spec (c mod k) 0) as [-> | Hne]; [reflexivity |].
  apply Z.eqb_neq. nia.
Qed.

Section Cycles.
Context `{Collaborators}.
Variable T : Task.
Variable train_loader : list Batch.
Variable lr_clip : LrClip.
Variable test_loader : option (list TestBatch).
Variable save_model : bool.
Variable k : Z.
Variable l0 : Locals T.
Variable w0 : World.

Local Abbreviation B := (Z.of_nat (length train_loader)).
Local Abbreviation loop m :=
  (for_eachM (range m)
     (fit_epoch train_loader lr_clip test_loader save_model (k * B)%Z) l0 w0).

Hypothesis Hclip : clip_accepted lr_clip.
Hypothesis Hk : (0 < k)%Z.
Hypothesis HB : train_loader <> [].
Hypothesis Hc0 : counter l0 = 0%Z.
Hypothesis HT0 : T_M (scheduler l0) <> 0%Z.

(** With [n_iters_per_estimator = k * len(train_loader)], after [m] epochs
    the counter is [m * len(train_loader)] and the collection has grown by
    [m // k] snapshots, the [j]-th of them being the live estimator at the
    end of epoch [(j + 1) * k], when the counter is
    [(j + 1) * n_iters_per_estimator]. *)
Lemma cycles_invariant (m : nat) :
  exists w l,
    loop (Z.of_nat m) = (w, Ok l) /\
    counter l = (Z.of_nat m * B)%Z /\
    T_M (scheduler l) = T_M (scheduler l0) /\
    n_estimators (self_ w) = n_estimators (self_ w0) /\
    n_outputs (self_ w) = n_outputs (self_ w0) /\
    exists snaps,
      estimators_ (self_ w) = estimators_ (self_ w0) ++ snaps /\
      Z.of_nat (length snaps) = (Z.of_nat m / k)%Z /\
      forall j : nat,
        ((Z.of_nat j + 1) * k <= Z.of_nat m)%Z ->
        exists wj lj,
          loop ((Z.of_nat j + 1) * k)%Z = (wj, Ok lj) /\
          counter lj = ((Z.of_nat j + 1) * (k * B))%Z /\
          nth_error snaps j = Some (estimator_ lj).
Proof.
  assert (HBpos : (0 < B)%Z) by (destruct train_loader; [congruence | simpl; lia]).
  induction m as [| m IH].
  - exists w0, l0. split; [reflexivity |]. split; [rewrite Hc0; lia |].
    repeat (split; [reflexivity |]).
    exists []. split; [now rewrite app_nil_r |]. split; [reflexivity |].
    intros j Hj. exfalso. nia.
  - destruct IH as (w & l & Hrun & Hc & HTl & Hn & Ho & snaps & Hs & Hlen & Hpre).
    assert (Hloop : exists w' l',
               loop (Z.of_nat (S m)) = (w', Ok l') /\
               fit_epoch train_loader lr_clip test_loader save_model (k * B)%Z
                         (Z.of_nat m) l w = (w', Ok l')).
    { rewrite range_succ, for_eachM_app, Hrun. simpl. unfold bindM, ret.
      destruct (@fit_epoch_ok _ T train_loader lr_clip test_loader save_model
                  (k * B)%Z (Z.of_nat m) l w Hclip)
        as (w' & l' & Hep); [congruence | nia |].
      rewrite Hep. exists w', l'. split; reflexivity. }
    destruct Hloop as (w' & l' & Hrun' & Hep).
    pose proof (fit_epoch_spec train_loader lr_clip test_loader save_model
                  (k * B)%Z (Z.of_nat m) l w) as Hspec.
    rewrite Hep in Hspec. destruct Hspec as (l1 & Hb & _ & Hw & Hl).
    apply batches_inv in Hb as (Hc1 & _ & HT1).
    assert (Hc1' : counter l1 = (Z.of_nat (S m) * B)%Z) by (rewrite Hc1, Hc; lia).
    assert (Hbd : (counter l1 mod (k * B) =? 0)%Z
                  = ((Z.of_nat m + 1) mod k =? 0)%Z).
    { rewrite Hc1'. replace (Z.of_nat (S m)) with (Z.of_nat m + 1)%Z by lia.
      apply boundary_iff; lia. }
    rewrite Hbd in Hw.
    exists w', l'. split; [exact Hrun' |].
    rewrite Hl, Hw.
    cbn [counter scheduler self_ n_estimators n_outputs estimators_ estimator_].
    split; [exact Hc1' |]. split; [congruence |].
    split; [exact Hn |]. split; [exact Ho |].
    destruct (Z.eqb_spec ((Z.of_nat m + 1) mod k) 0) as [Hz | Hnz].
    + exists (snaps ++ [estimator_ l1]).
      split; [rewrite Hs; now rewrite app_assoc |].
      split.
      { rewrite length_app. simpl length.
        replace (Z.of_nat (S m)) with (Z.of_nat m + 1)%Z by lia.
        rewrite div_succ_boundary by lia. lia. }
      intros j Hj.
      destruct (Z.eq_dec ((Z.of_nat j + 1) * k) (Z.of_nat (S m))) as [Heq | Hne].
      * exists w', l'. rewrite Heq. split; [exact Hrun' |].
        split; [rewrite Hl; simpl; rewrite Hc1', <- Heq; ring |].
        assert (Hjlen : j = length snaps).
        { assert (Z.of_nat j + 1 = Z.of_nat m / k + 1)%Z; [| lia].
          rewrite <- (@div_succ_boundary (Z.of_nat m) k) by lia.
          replace (Z.of_nat m + 1)%Z with ((Z.of_nat j + 1) * k)%Z by lia.
          rewrite Z.div_mul by lia. reflexivity. }
        rewrite Hjlen, nth_error_app2 by lia.
        rewrite Nat.sub_diag, Hl. reflexivity.
      * destruct (Hpre j) as (wj & lj & Hrj & Hcj & Hnj); [lia |].
        exists wj, lj. split; [exact Hrj |]. split; [exact Hcj |].
        rewrite nth_error_app1; [exact Hnj |].
        apply nth_error_Some. congruence.
    + exists snaps. split; [rewrite Hs; now rewrite app_nil_r |].
      split.
      { replace (Z.of_nat (S m)) with (Z.of_nat m + 1)%Z by lia.
        rewrite div_succ_inside by lia. exact Hlen. }
      intros j Hj.
      assert (Hne : ((Z.of_nat j + 1) * k <> Z.of_nat m + 1)%Z).
      { intros Heq. apply Hnz. rewrite <- Heq. apply Z.mod_mul. lia. }
      apply Hpre. lia.
Qed.

End Cycles.

(** ** Whole runs of [fit] *)

Section FitRun.
Context `{Collaborators}.
Variable T : Task.
Variable train_loader : list Batch.
Variables (init_lr : R) (lr_clip : LrClip) (weight_decay : R) (epochs : Z).
Variables (optimizer_name : OptimizerKind) (log_interval : Z).
Variable test_loader : option (list TestBatch).
Variable save_model : bool.
Variable w0 : World.

Local Abbreviation N := (n_estimators (self_ w0)).
Local Abbreviation B := (Z.of_nat (length train_loader)).
Local Abbreviation setup :=
  (fit_setup T train_loader init_lr lr_clip weight_decay epochs optimizer_name
             log_interval).
Local Abbreviation run :=
  (fit T train_loader init_lr lr_clip weight_decay epochs optimizer_name
       log_interval test_loader save_model).
Local Abbreviation run_upto :=
  (fit_upto T train_loader init_lr lr_clip weight_decay epochs optimizer_name
            log_interval test_loader save_model).

(** A rejected configuration: [fit] raises what the checks raise, having
    done nothing but assign [n_outputs]. *)
Lemma fit_rejected (e : Exn) :
  _validate_parameters (self_ (entered T train_loader w0)) init_lr lr_clip
    weight_decay epochs log_interval = Raise e ->
  run w0 = (entered T train_loader w0, Raise e).
Proof.
  intros Hv. unfold fit, fit_setup, bindM, set_n_outputs, get_self, lift.
  cbn [self_]. unfold entered in Hv. cbn [self_] in Hv. rewrite Hv. reflexivity.
Qed.

(** [fit] is its first [epochs] epochs followed by the closing save. *)
Lemma fit_then_save :
  run w0
  = match run_upto epochs w0 with
    | (w, Ok l) =>
        (if save_model && negb (loader_truthy test_loader)
         then mkWorld (self_ w) (saved w ++ [estimators_ (self_ w)])
         else w,
         Ok l)
    | (w, Raise e) => (w, Raise e)
    end.
Proof.
  unfold fit, fit_upto, bindM.
  destruct (setup w0) as [w1 [[l ipe] | e]]; [| reflexivity].
  destruct (for_eachM _ _ l w1) as [w2 [l2 | e]]; [| reflexivity].
  destruct (save_model && negb (loader_truthy test_loader)); reflexivity.
Qed.

(** The setup changes the world by assigning [n_outputs] only. *)
Lemma fit_setup_world (w1 : World) (r : Result (Locals T * Z)) :
  setup w0 = (w1, r) -> w1 = entered T train_loader w0.
Proof.
  unfold fit_setup, bindM, set_n_outputs, get_self, lift, ret, entered.
  cbn [self_ saved n_estimators estimators_].
  destruct (_validate_parameters _ _ _ _ _ _); [| now intros [= <- _]].
  destruct (_set_scheduler _ _ _) as [[sch opt] |]; [| now intros [= <- _]].
  destruct (pyfloordiv _ _); now intros [= <- _].
Qed.

(** Without a (true) test loader nothing is saved before the loop ends. *)
Lemma fit_upto_no_save (m : Z) (w : World) (r : Result (Locals T)) :
  loader_truthy test_loader = false ->
  run_upto m w0 = (w, r) -> saved w = saved w0.
Proof.
  intros Hno. unfold fit_upto, bindM.
  destruct (setup w0) as [w1 [[l ipe] | e]] eqn:Hsetup;
    apply fit_setup_world in Hsetup; subst w1.
  - intros Hloop. eapply loop_no_save in Hloop; [| exact Hno].
    rewrite Hloop. reflexivity.
  - now intros [= <- _].
Qed.

Hypothesis Haccepted :
  config_accepted N init_lr lr_clip weight_decay epochs log_interval.
Hypothesis HN : (0 < N)%Z.
Hypothesis HB : train_loader <> [].

Lemma cycle_length : (0 < epochs / N)%Z /\ (epochs = N * (epochs / N))%Z.
Proof.
  destruct Haccepted as (_ & _ & _ & He & _ & Hmod).
  assert (Hd : (epochs = N * (epochs / N))%Z)
    by (apply Z_div_exact_full_2; [lia | exact Hmod]).
  split; [| exact Hd]. nia.
Qed.

Lemma fit_setup_ok :
  exists l0,
    setup w0 = (entered T train_loader w0, Ok (l0, (epochs / N * B)%Z)) /\
    counter l0 = 0%Z /\ best l0 = best_init T /\
    T_M (scheduler l0) <> 0%Z.
Proof.
  destruct cycle_length as (Hk & Hd).
  assert (HBpos : (0 < B)%Z) by (destruct train_loader; [congruence | simpl; lia]).
  pose proof Haccepted as (_ & _ & _ & He & _).
  unfold fit_setup, bindM, set_n_outputs, get_self, lift. cbn [self_].
  rewrite validate_accepted;
    [| cbn [n_estimators]; lia | cbn [n_estimators]; exact Haccepted].
  cbn [n_estimators]. unfold _set_scheduler.
  destruct (@pyceildiv_pos (epochs * B) N) as (t & Ht & Htpos); [nia | lia |].
  rewrite Ht. cbn [bind].
  match goal with
  | |- context [scheduler_step ?s ?o] =>
      destruct (@scheduler_step_ok _ s o) as (lrs & Hstep);
      [cbn [T_M]; lia | rewrite Hstep]
  end.
  unfold pyfloordiv. destruct (Z.eqb_spec N 0); [lia |].
  eexists. split.
  - unfold ret, entered. f_equal. f_equal. f_equal.
    rewrite Hd at 1.
    replace (N * (epochs / N) * B)%Z with (epochs / N * B * N)%Z by ring.
    apply Z.div_mul. lia.
  - cbn. repeat split. lia.
Qed.

(** An accepted configuration on a non-empty training loader runs to the
    end of every epoch, and the snapshots are taken at the cycle
    boundaries. *)
Lemma fit_upto_ok (m : nat) :
  exists w l,
    run_upto (Z.of_nat m) w0 = (w, Ok l) /\
    counter l = (Z.of_nat m * B)%Z /\
    n_estimators (self_ w) = N /\
    exists snaps,
      estimators_ (self_ w) = estimators_ (self_ w0) ++ snaps /\
      Z.of_nat (length snaps) = (Z.of_nat m / (epochs / N))%Z /\
      forall j : nat,
        ((Z.of_nat j + 1) * (epochs / N) <= Z.of_nat m)%Z ->
        exists wj lj,
          run_upto ((Z.of_nat j + 1) * (epochs / N))%Z w0 = (wj, Ok lj) /\
          counter lj = ((Z.of_nat j + 1) * (epochs / N * B))%Z /\
          nth_error snaps j = Some (estimator_ lj).
Proof.
  destruct cycle_length as (Hk & Hd).
  destruct fit_setup_ok as (l0 & Hsetup & Hc0 & _ & HT0).
  pose proof Haccepted as (_ & Hclip & _).
  destruct (@cycles_invariant _ T train_loader lr_clip test_loader save_model
              (epochs / N)%Z l0 (entered T train_loader w0)
              Hclip Hk HB Hc0 HT0 m)
    as (w & l & Hrun & Hc & _ & Hn & _ & snaps & Hs & Hlen & Hpre).
  exists w, l. unfold fit_upto, bindM. rewrite Hsetup.
  split; [exact Hrun |]. split; [exact Hc |]. split; [exact Hn |].
  exists snaps. split; [exact Hs |]. split; [exact Hlen |].
  intros j Hj. destruct (Hpre j Hj) as (wj & lj & Hrj & Hcj & Hnj).
  exists wj, lj. auto.
Qed.

Lemma iters_per_estimator : (epochs * B / N = epochs / N * B)%Z.
Proof.
  destruct cycle_length as (_ & Hd). rewrite Hd at 1.
  replace (N * (epochs / N) * B)%Z with (epochs / N * B * N)%Z by ring.
  apply Z.div_mul. lia.
Qed.

Lemma fit_ok :
  exists wl l snaps,
    run_upto epochs w0 = (wl, Ok l) /\
    run w0
    = (if save_model && negb (loader_truthy test_loader)
       then mkWorld (self_ wl) (saved wl ++ [estimators_ (self_ wl)])
       else wl,
       Ok l) /\
    estimators_ (self_ wl) = estimators_ (self_ w0) ++ snaps /\
    Z.of_nat (length snaps) = N /\
    forall j : nat,
      (Z.of_nat j < N)%Z ->
      exists wj lj,
        run_upto ((Z.of_nat j + 1) * (epochs / N))%Z w0 = (wj, Ok lj) /\
        counter lj = ((Z.of_nat j + 1) * (epochs * B / N))%Z /\
        nth_error snaps j = Some (estimator_ lj).
Proof.
  destruct cycle_length as (Hk & Hd).
  pose proof Haccepted as (_ & _ & _ & He & _).
  destruct (fit_upto_ok (Z.to_nat epochs))
    as (wl & l & Hrun & _ & _ & snaps & Hs & Hlen & Hpre).
  rewrite Z2Nat.id in Hrun, Hlen, Hpre by lia.
  exists wl, l, snaps. split; [exact Hrun |].
  split; [rewrite fit_then_save, Hrun; reflexivity |].
  split; [exact Hs |].
  split.
  { rewrite Hlen. set (k := (epochs / N)%Z) in *. rewrite Hd.
    apply Z.div_mul. lia. }
  intros j Hj. rewrite iters_per_estimator. apply Hpre. nia.
Qed.

End FitRun.

(** C1, as the code has it. The parameter checks require [epochs] itself,
    not [epochs * len(train_loader)], to be a multiple of [n_estimators].
    For every configuration the checks accept, with a positive number of
    estimators and a non-empty training loader, [fit] returns normally and
    has appended exactly [n_estimators] snapshots to [estimators_], in
    cycle order: the [j]-th is the live estimator at the end of epoch
    [(j + 1) * epochs / n_estimators], when the counter is
    [(j + 1) * n_iters_per_estimator]. *)
Theorem fit_one_snapshot_per_cycle `{Collaborators} (T : Task)
  (train_loader : list Batch) (init_lr : R) (lr_clip : LrClip)
  (weight_decay : R) (epochs : Z) (optimizer_name : OptimizerKind)
  (log_interval : Z) (test_loader : option (list TestBatch))
  (save_model : bool) (w0 : World) :
  let n_cycles := n_estimators (self_ w0) in
  let batches_per_epoch := Z.of_nat (length train_loader) in
  config_accepted n_cycles init_lr lr_clip weight_decay epochs log_interval ->
  (0 < n_cycles)%Z ->
  train_loader <> [] ->
  exists w l snaps,
    fit T train_loader init_lr lr_clip weight_decay epochs optimizer_name
        log_interval test_loader save_model w0 = (w, Ok l) /\
    estimators_ (self_ w) = estimators_ (self_ w0) ++ snaps /\
    Z.of_nat (length snaps) = n_cycles /\
    forall j : nat,
      (Z.of_nat j < n_cycles)%Z ->
      exists wj lj,
        fit_upto T train_loader init_lr lr_clip weight_decay epochs
                 optimizer_name log_interval test_loader save_model
                 ((Z.of_nat j + 1) * (epochs / n_cycles))%Z w0
        = (wj, Ok lj) /\
        counter lj
        = ((Z.of_nat j + 1) * (epochs * batches_per_epoch / n_cycles))%Z /\
        nth_error snaps j = Some (estimator_ lj).
Proof.
  intros n_cycles bpe Hacc HN HB.
  destruct (@fit_ok _ T train_loader init_lr lr_clip weight_decay epochs
              optimizer_name log_interval test_loader save_model w0
              Hacc HN HB)
    as (wl & l & snaps & _ & Hfit & Hs & Hlen & Hpre).
  eexists. exists l, snaps. split; [exact Hfit |].
  split; [| split; [exact Hlen | exact Hpre]].
  destruct (save_model && negb (loader_truthy test_loader)); exact Hs.
Qed.

(** ** The validation gate *)

Lemma ExtR_ltb_true (a b : ExtR) : ExtR_ltb a b = true <-> ExtR_lt a b.
Proof.
  destruct a, b; simpl; try (split; [discriminate | contradiction]);
    try (split; auto); apply Rltb_true.
Qed.

Lemma ExtR_ltb_false (a b : ExtR) : ExtR_ltb a b = false <-> ExtR_le b a.
Proof.
  destruct a, b; simpl; try (split; [auto | reflexivity]);
    try (split; [discriminate | contradiction]); apply Rltb_false.
Qed.

Lemma ExtR_le_refl (a : ExtR) : ExtR_le a a.
Proof. destruct a; simpl; [exact I | lra]. Qed.

Lemma ExtR_le_trans (a b c : ExtR) : ExtR_le a b -> ExtR_le b c -> ExtR_le a c.
Proof. destruct a, b, c; simpl; try tauto; lra. Qed.

Lemma range_le_split (m1 m2 : Z) :
  (m1 <= m2)%Z -> exists rest, range m2 = range m1 ++ rest.
Proof.
  intros Hle. unfold range.
  replace (Z.to_nat m2) with (Z.to_nat m1 + (Z.to_nat m2 - Z.to_nat m1))%nat
    by lia.
  rewrite seq_app, map_app. eexists. reflexivity.
Qed.

Section Gate.
Context `{Collaborators}.
Variable T : Task.
Variable train_loader : list Batch.
Variables (init_lr : R) (lr_clip : LrClip) (weight_decay : R) (epochs : Z).
Variables (optimizer_name : OptimizerKind) (log_interval : Z).
Variable test_loader : option (list TestBatch).
Variable save_model : bool.

Local Abbreviation run_upto :=
  (fit_upto T train_loader init_lr lr_clip weight_decay epochs optimizer_name
            log_interval test_loader save_model).

(** One validation call: a better score is recorded and, if [save_model],
    the ensemble is saved once; any other score changes nothing. *)
Lemma fit_validate_spec (batches : list TestBatch) (l : Locals T) (w : World) :
  fit_validate save_model batches l w
  = if improves T (sweep T (self_ w) batches) (best l)
    then (mkWorld (self_ w)
            (saved w ++ (if save_model then [estimators_ (self_ w)] else [])),
          Ok (mkLocals T (estimator_ l) (optimizer l) (scheduler l)
                (sweep T (self_ w) batches) (counter l)))
    else (w, Ok l).
Proof.
  unfold fit_validate, bindM, get_self, lift, ret, save.
  destruct (improves T _ (best l)); [| reflexivity].
  destruct save_model; [reflexivity |].
  destruct w as [slf sv]. simpl. now rewrite app_nil_r.
Qed.

Lemma fit_setup_best (w ws : World) (l0 : Locals T) (ipe : Z) :
  fit_setup T train_loader init_lr lr_clip weight_decay epochs optimizer_name
            log_interval w = (ws, Ok (l0, ipe)) ->
  best l0 = best_init T /\ counter l0 = 0%Z /\
  ipe = (epochs * Z.of_nat (length train_loader) / n_estimators (self_ w))%Z.
Proof.
  unfold fit_setup, bindM, set_n_outputs, get_self, lift, ret.
  cbn [self_ saved n_estimators estimators_].
  destruct (_validate_parameters _ _ _ _ _ _); [| discriminate].
  destruct (_set_scheduler _ _ _) as [[sch opt] |]; [| discriminate].
  unfold pyfloordiv. destruct (n_estimators (self_ w) =? 0)%Z; [discriminate |].
  intros [= _ <- <-]. auto.
Qed.

(** Between two points of one run the best score moves along a preorder
    that contains every improvement, starting from its initial value. *)
Lemma fit_upto_best (P : Score T -> Score T -> Prop) :
  (forall b, P b b) ->
  (forall a b c, P a b -> P b c -> P a c) ->
  (forall score b, improves T score b = true -> P b score) ->
  forall (w0 : World) (m1 m2 : Z) (w1 w2 : World) (l1 l2 : Locals T),
    (m1 <= m2)%Z ->
    run_upto m1 w0 = (w1, Ok l1) ->
    run_upto m2 w0 = (w2, Ok l2) ->
    P (best_init T) (best l1) /\ P (best l1) (best l2).
Proof.
  intros Hrefl Htrans Himp w0 m1 m2 w1 w2 l1 l2 Hle.
  unfold fit_upto, bindM.
  destruct (fit_setup _ _ _ _ _ _ _ _ w0) as [ws [[l0 ipe] | e]] eqn:Hsetup;
    [| discriminate].
  apply fit_setup_best in Hsetup as (Hb0 & _ & _).
  destruct (range_le_split Hle) as (rest & ->).
  intros H1. rewrite for_eachM_app, H1. intros H2. rewrite <- Hb0. split.
  - eapply loop_best; eauto.
  - eapply loop_best; eauto.
Qed.

(** One epoch changes the best score and the saved state only through the
    gate: either both are as before, or the test loader is true, the best
    score is the score of the ensemble as it is after the epoch, it improves
    on the best score before, and at most one save was made. *)
Lemma fit_epoch_gate (ipe epoch : Z) (l l' : Locals T) (w w' : World) :
  fit_epoch train_loader lr_clip test_loader save_model ipe epoch l w
  = (w', Ok l') ->
  (best l' = best l /\ saved w' = saved w) \/
  (loader_truthy test_loader = true /\
   best l' = sweep T (self_ w') (loader_batches test_loader) /\
   improves T (best l') (best l) = true /\
   saved w'
   = saved w ++ (if save_model then [estimators_ (self_ w')] else [])).
Proof.
  intros Hep.
  pose proof (fit_epoch_spec train_loader lr_clip test_loader save_model
                ipe epoch l w) as Hs.
  rewrite Hep in Hs. destruct Hs as (l1 & Hb & _ & Hw & Hl).
  apply batches_inv in Hb as (_ & Hbest & _).
  rewrite Hw, Hl. cbn [best saved self_ estimators_].
  match goal with
  | |- context [if ?c then sweep _ _ _ else _] => destruct c eqn:Ec
  end.
  - right. apply andb_true_iff in Ec as [Ec Himp].
    apply andb_true_iff in Ec as [Ht _].
    rewrite <- Hbest. cbn [andb]. auto.
  - left. cbn [andb]. rewrite app_nil_r. auto.
Qed.

End Gate.

(** ** Only the parameter checks raise [ValueError] *)

Lemma quiet_bind {A B : Type} (m : Result A) (k : A -> Result B) :
  quiet m -> (forall a, quiet (k a)) -> quiet (bind m k).
Proof. destruct m as [a | e]; simpl; auto. Qed.

Lemma quiet_for_each {A S : Type} (body : A -> S -> Result S) (xs : list A) (s : S) :
  (forall x s', quiet (body x s')) -> quiet (for_each xs body s).
Proof.
  intros Hbody. revert s. induction xs as [| x xs IH]; intros s; simpl.
  - exact I.
  - apply quiet_bind; [apply Hbody | apply IH].
Qed.

Lemma quiet_pymod (a b : Z) : quiet (pymod a b).
Proof. unfold pymod. destruct (b =? 0)%Z; exact I. Qed.

Lemma quiet_clip_item (c : LrClip) (i : nat) : quiet (clip_item c i).
Proof.
  unfold clip_item. destruct c; try exact I; destruct (nth_error _ i); exact I.
Qed.

Lemma quiet_clip_lr {B : Type} (opt : Optimizer B) (c : LrClip) :
  quiet (_clip_lr opt c).
Proof.
  unfold _clip_lr. destruct (negb (truthy c)); [exact I |].
  apply quiet_bind; [| intros; exact I].
  apply quiet_for_each. intros lr done.
  apply quiet_bind; [apply quiet_clip_item | intros lo].
  apply quiet_bind; [apply quiet_clip_item | intros hi; exact I].
Qed.

Lemma quiet_scheduler_step {B : Type} (sch : LambdaLR) (opt : Optimizer B) :
  quiet (scheduler_step sch opt).
Proof.
  unfold scheduler_step, get_lr, lr_lambda.
  repeat (apply quiet_bind; [| intros; try exact I]).
  apply quiet_pymod.
Qed.

Section Quiet.
Context `{Collaborators}.
Variable T : Task.

Lemma quiet_fit_batch (lr_clip : LrClip) (batch : Batch) (l : Locals T) :
  quiet (fit_batch lr_clip batch l).
Proof.
  unfold fit_batch. apply quiet_bind; [apply quiet_clip_lr | intros opt].
  destruct (train_step _ opt batch) as [est buf].
  apply quiet_bind; [apply quiet_scheduler_step | intros [sch opt']; exact I].
Qed.

Lemma quiet_fit_epoch (train_loader : list Batch) (lr_clip : LrClip)
  (test_loader : option (list TestBatch)) (save_model : bool)
  (ipe epoch : Z) (l : Locals T) (w : World) :
  quiet (snd (fit_epoch train_loader lr_clip test_loader save_model ipe epoch l w)).
Proof.
  pose proof (quiet_for_each (fit_batch lr_clip) train_loader l
                (quiet_fit_batch lr_clip)) as Hb.
  pose proof (quiet_pymod) as Hm.
  unfold fit_epoch, bindM, lift.
  destruct (for_each train_loader (fit_batch lr_clip) l) as [l1 | e];
    [| exact Hb].
  specialize (Hm (counter l1) ipe).
  destruct (pymod (counter l1) ipe) as [r | e]; [| exact Hm].
  destruct (r =? 0)%Z; unfold append_estimator, ret; simpl;
    destruct (loader_truthy test_loader); simpl; try exact I;
    rewrite fit_validate_spec; destruct (improves T _ _); exact I.
Qed.

Lemma quiet_loop (train_loader : list Batch) (lr_clip : LrClip)
  (test_loader : option (list TestBatch)) (save_model : bool)
  (ipe : Z) (xs : list Z) (l : Locals T) (w : World) :
  quiet (snd (for_eachM xs
                (fit_epoch train_loader lr_clip test_loader save_model ipe)
                l w)).
Proof.
  revert l w. induction xs as [| x xs IH]; intros l w; simpl; [exact I |].
  unfold bindM.
  pose proof (quiet_fit_epoch train_loader lr_clip test_loader save_model
                ipe x l w) as Hq.
  destruct (fit_epoch _ _ _ _ ipe x l w) as [w1 [l1 | e]]; [apply IH | exact Hq].
Qed.

(** Past the parameter checks, [fit] raises no [ValueError]. *)
Lemma quiet_fit (train_loader : list Batch) (init_lr : R) (lr_clip : LrClip)
  (weight_decay : R) (epochs : Z) (optimizer_name : OptimizerKind)
  (log_interval : Z) (test_loader : option (list TestBatch))
  (save_model : bool) (w0 : World) :
  _validate_parameters (self_ w0) init_lr lr_clip weight_decay epochs
                       log_interval = Ok tt ->
  quiet (snd (fit T train_loader init_lr lr_clip weight_decay epochs
                  optimizer_name log_interval test_loader save_model w0)).
Proof.
  intros Hv. unfold fit, fit_setup, bindM, set_n_outputs, get_self, lift, ret.
  cbn [self_ saved n_estimators estimators_].
  change (_validate_parameters _ init_lr lr_clip weight_decay epochs log_interval)
    with (_validate_parameters (self_ w0) init_lr lr_clip weight_decay epochs
                               log_interval).
  rewrite Hv. unfold _set_scheduler, pyceildiv, pyfloordiv.
  destruct (n_estimators (self_ w0) =? 0)%Z; [exact I |]. cbn [bind].
  match goal with
  | |- context [scheduler_step ?s ?o] =>
      pose proof (quiet_scheduler_step s o) as Hs;
      destruct (scheduler_step s o) as [[sch opt] | e]; [| exact Hs]
  end.
  match goal with
  | |- context [for_eachM ?xs (fit_epoch _ _ _ _ ?ipe) ?l ?w] =>
      pose proof (quiet_loop train_loader lr_clip test_loader save_model
                    ipe xs l w) as Hl;
      destruct (for_eachM xs _ l w) as [w1 [l1 | e]]; [| exact Hl]
  end.
  destruct (save_model && negb (loader_truthy test_loader)); exact I.
Qed.

End Quiet.

(** ** The claims about [fit] *)

(** The budget of the running example: 6 epochs of 10 batches, 3 cycles. *)
Lemma toy_config_accepted : config_accepted 3 0.1 ClipNone 0.0005 6 100.
Proof.
  unfold config_accepted. repeat split; try lra; try lia.
  left. reflexivity.
Qed.

Lemma fit_one_snapshot_per_cycle_witness :
  exists w l snaps,
    @fit toy classifier (repeat tt 10) 0.1 ClipNone 0.0005 6 Adam 100 None true
         (@fresh toy 3) = (w, Ok l) /\
    estimators_ (self_ w) = estimators_ (self_ (@fresh toy 3)) ++ snaps /\
    Z.of_nat (length snaps) = 3%Z /\
    forall j : nat,
      (Z.of_nat j < 3)%Z ->
      exists wj lj,
        @fit_upto toy classifier (repeat tt 10) 0.1 ClipNone 0.0005 6 Adam 100
                  None true ((Z.of_nat j + 1) * (6 / 3))%Z (@fresh toy 3)
        = (wj, Ok lj) /\
        counter lj = ((Z.of_nat j + 1) * (6 * 10 / 3))%Z /\
        nth_error snaps j = Some (estimator_ lj).
Proof.
  apply (@fit_one_snapshot_per_cycle toy classifier (repeat tt 10) 0.1 ClipNone
           0.0005 6 Adam 100 None true (@fresh toy 3)).
  - exact toy_config_accepted.
  - simpl. lia.
  - discriminate.
Defined.

(** The run of 1 epoch of 2 batches for 2 estimators is rejected. *)
Lemma rejected_toy_run :
  @fit toy classifier [tt; tt] 0.1 ClipNone 0.0005 1 Adam 100 None true
       (@fresh toy 2)
  = (@entered toy classifier [tt; tt] (@fresh toy 2),
     Raise (ValueError BadMultiple)) /\
  estimators_ (self_ (@entered toy classifier [tt; tt] (@fresh toy 2))) = [].
Proof.
  split; [| reflexivity].
  apply fit_rejected. apply validate_bad_multiple; simpl; try lra; try lia.
  - left. reflexivity.
  - discriminate.
Qed.

(** C1 as stated fails: with 1 epoch of 2 batches and 2 cycles the product
    is divisible by the number of cycles, yet [fit] raises the
    "multiple of n_estimators" error and no snapshot is collected. *)
Lemma fit_divisible_product_counterexample :
  ((1 * Z.of_nat (length [tt; tt])) mod 2 = 0)%Z /\
  @fit toy classifier [tt; tt] 0.1 ClipNone 0.0005 1 Adam 100 None true (@fresh toy 2)
  = (@entered toy classifier [tt; tt] (@fresh toy 2),
     Raise (ValueError BadMultiple)) /\
  estimators_ (self_ (@entered toy classifier [tt; tt] (@fresh toy 2))) = [].
Proof. split; [reflexivity | exact rejected_toy_run]. Qed.


Lemma config_accepted_dec (n : Z) (init_lr : R) (lr_clip : LrClip)
  (weight_decay : R) (epochs log_interval : Z) :
  config_accepted n init_lr lr_clip weight_decay epochs log_interval \/
  ~ config_accepted n init_lr lr_clip weight_decay epochs log_interval.
Proof.
  unfold config_accepted.
  destruct (Rlt_dec 0 init_lr); [| right; tauto].
  destruct (clip_accepted_dec lr_clip); [| right; tauto].
  destruct (Rle_dec 0 weight_decay); [| right; tauto].
  destruct (Z_lt_dec 0 epochs); [| right; tauto].
  destruct (Z_lt_dec 0 log_interval); [| right; tauto].
  destruct (Z.eq_dec (epochs mod n) 0); [left | right]; tauto.
Qed.

(** C2, as the code has it. For an ensemble whose [n_estimators] is not
    zero, the parameter checks pass exactly on the accepted configurations:
    [init_lr > 0], [lr_clip] false ([None], empty, ...) or a list or tuple
    of two numbers in increasing order, [weight_decay >= 0], [epochs > 0],
    [log_interval > 0] and [epochs] a multiple of [n_estimators]. [fit]
    raises a [ValueError] exactly on the other configurations, and then it
    has only assigned [n_outputs]: no estimator is built, nothing is
    collected or saved. The number of batches per epoch enters no check. *)
Theorem fit_rejects_exactly `{Collaborators} (T : Task)
  (train_loader : list Batch) (init_lr : R) (lr_clip : LrClip)
  (weight_decay : R) (epochs : Z) (optimizer_name : OptimizerKind)
  (log_interval : Z) (test_loader : option (list TestBatch))
  (save_model : bool) (w0 : World) :
  n_estimators (self_ w0) <> 0%Z ->
  (config_accepted (n_estimators (self_ w0)) init_lr lr_clip weight_decay
                   epochs log_interval <->
   _validate_parameters (self_ w0) init_lr lr_clip weight_decay epochs
                        log_interval = Ok tt) /\
  (~ config_accepted (n_estimators (self_ w0)) init_lr lr_clip weight_decay
                     epochs log_interval <->
   exists why,
     fit T train_loader init_lr lr_clip weight_decay epochs optimizer_name
         log_interval test_loader save_model w0
     = (entered T train_loader w0, Raise (ValueError why))).
Proof.
  intros HN.
  destruct (config_accepted_dec (n_estimators (self_ w0)) init_lr lr_clip
              weight_decay epochs log_interval) as [Hacc | Hrej].
  - assert (Hv : _validate_parameters (self_ w0) init_lr lr_clip weight_decay
                   epochs log_interval = Ok tt)
      by (apply validate_accepted; assumption).
    split; [tauto |]. split; [tauto |].
    intros (why & Hfit).
    pose proof (quiet_fit T train_loader init_lr lr_clip weight_decay epochs
                  optimizer_name log_interval test_loader save_model w0 Hv)
      as Hq.
    rewrite Hfit in Hq. contradiction.
  - assert (Hv : exists why,
               _validate_parameters (self_ w0) init_lr lr_clip weight_decay
                 epochs log_interval = Raise (ValueError why))
      by (apply validate_rejected; assumption).
    destruct Hv as (why & Hv).
    split.
    + split; [tauto |]. rewrite Hv. discriminate.
    + split; [| tauto]. intros _. exists why. now apply fit_rejected.
Qed.

Lemma fit_rejects_exactly_witness :
  (config_accepted 3 0.1 ClipNone 0.0005 6 100 <->
   @_validate_parameters toy (self_ (@fresh toy 3)) 0.1 ClipNone 0.0005 6 100
   = Ok tt) /\
  (~ config_accepted 3 0.1 ClipNone 0.0005 6 100 <->
   exists why,
     @fit toy classifier (repeat tt 10) 0.1 ClipNone 0.0005 6 Adam 100 None true
          (@fresh toy 3)
     = (@entered toy classifier (repeat tt 10) (@fresh toy 3),
        Raise (ValueError why))).
Proof.
  apply (@fit_rejects_exactly toy classifier (repeat tt 10) 0.1 ClipNone 0.0005
           6 Adam 100 None true (@fresh toy 3)).
  simpl. lia.
Defined.

(** C2 as stated fails: 1 epoch of 2 batches with 2 estimators meets none of
    the listed conditions and has a product divisible by the number of
    cycles, yet the checks raise. *)
Lemma validate_divisible_product_counterexample :
  (0 < 0.1)%R /\ truthy ClipNone = false /\ (0 <= 0.0005)%R /\
  (0 < 1)%Z /\ (0 < 100)%Z /\
  ((1 * Z.of_nat (length [tt; tt])) mod 2 = 0)%Z /\
  @_validate_parameters toy (mkEnsemble 2 None []) 0.1 ClipNone 0.0005 1 100
  = Raise (ValueError BadMultiple).
Proof.
  repeat (split; [first [lra | lia | reflexivity] |]).
  apply validate_bad_multiple; simpl; try lra; try lia.
  - left. reflexivity.
  - discriminate.
Qed.

(** C3. [fit] computes [n_iters_per_estimator] as
    [epochs * len(train_loader) // n_estimators] and starts the counter at
    zero. The boundary test runs once in the body of the epoch loop, after
    the batches, on the counter they leave, which is the counter before the
    epoch plus the number of batches. So whatever the value of
    [n_iters_per_estimator], also below the number of batches, an epoch that
    returns has appended the live estimator exactly when that counter is a
    multiple of it, and nothing otherwise; an epoch that raises has appended
    nothing. In every case at most one snapshot is appended. *)
Theorem epoch_appends_at_most_one `{Collaborators} (T : Task)
  (train_loader : list Batch) (init_lr : R) (lr_clip : LrClip)
  (weight_decay : R) (epochs : Z) (optimizer_name : OptimizerKind)
  (log_interval : Z) (test_loader : option (list TestBatch))
  (save_model : bool) (n_iters_per_estimator epoch : Z) (l : Locals T)
  (w : World) :
  match fit_setup T train_loader init_lr lr_clip weight_decay epochs
                  optimizer_name log_interval w with
  | (_, Ok (l0, ipe)) =>
      ipe = (epochs * Z.of_nat (length train_loader)
             / n_estimators (self_ w))%Z /\
      counter l0 = 0%Z
  | (_, Raise _) => True
  end /\
  match fit_epoch train_loader lr_clip test_loader save_model
                  n_iters_per_estimator epoch l w with
  | (w', Ok l') =>
      counter l' = (counter l + Z.of_nat (length train_loader))%Z /\
      n_iters_per_estimator <> 0%Z /\
      estimators_ (self_ w')
      = estimators_ (self_ w)
        ++ (if (counter l' mod n_iters_per_estimator =? 0)%Z
            then [estimator_ l'] else [])
  | (w', Raise _) => estimators_ (self_ w') = estimators_ (self_ w)
  end /\
  (length (estimators_
             (self_ (fst (fit_epoch train_loader lr_clip test_loader save_model
                                    n_iters_per_estimator epoch l w))))
   <= length (estimators_ (self_ w)) + 1)%nat.
Proof.
  split.
  { destruct (fit_setup _ _ _ _ _ _ _ _ w) as [ws [[l0 ipe] | e]] eqn:Hsetup;
      [| exact I].
    apply fit_setup_best in Hsetup as (_ & Hc & Hipe). auto. }
  pose proof (fit_epoch_spec train_loader lr_clip test_loader save_model
                n_iters_per_estimator epoch l w) as Hs.
  destruct (fit_epoch _ _ _ _ _ epoch l w) as [w' [l' | e]].
  - destruct Hs as (l1 & Hb & Hipe & Hw & Hl).
    apply batches_inv in Hb as (Hc & _ & _).
    rewrite Hw, Hl. cbn [fst self_ estimators_ counter estimator_].
    split; [auto |].
    rewrite length_app.
    destruct (counter l1 mod n_iters_per_estimator =? 0)%Z; simpl; lia.
  - rewrite Hs. split; [reflexivity |]. simpl. lia.
Qed.

(** An epoch of two batches with [n_iters_per_estimator = 1]: the counter
    passes two multiples of it, 1 and 2, and one snapshot is appended. *)
Lemma epoch_appends_at_most_one_witness :
  exists w' l',
    @fit_epoch toy classifier [tt; tt] ClipNone None true 1 0 toy_locals
               toy_world
    = (w', Ok l') /\
    counter l' = 2%Z /\
    estimators_ (self_ w') = [estimator_ l'].
Proof.
  set (l0 := toy_locals). set (w0 := toy_world).
  destruct (@fit_epoch_ok toy classifier [tt; tt] ClipNone None true 1%Z 0%Z
              l0 w0) as (w' & l' & Hep).
  - left. reflexivity.
  - discriminate.
  - discriminate.
  - exists w', l'. split; [exact Hep |].
    destruct (@epoch_appends_at_most_one toy classifier [tt; tt] 0.1%R ClipNone
                0.0005%R 2%Z Adam 100%Z None true 1%Z 0%Z l0 w0)
      as (_ & Hepoch & _).
    rewrite Hep in Hepoch. destruct Hepoch as (Hc & _ & He).
    split; [exact Hc |]. rewrite He, Z.mod_1_r. reflexivity.
Defined.

(** A run without a (true) test loader: nothing is saved during training,
    and the closing save happens exactly when [save_model] is set. *)
Lemma fit_without_test_loader `{Collaborators} (T : Task)
  (train_loader : list Batch) (init_lr : R) (lr_clip : LrClip)
  (weight_decay : R) (epochs : Z) (optimizer_name : OptimizerKind)
  (log_interval : Z) (test_loader : option (list TestBatch))
  (save_model : bool) (w0 : World) :
  config_accepted (n_estimators (self_ w0)) init_lr lr_clip weight_decay epochs
                  log_interval ->
  (0 < n_estimators (self_ w0))%Z ->
  train_loader <> [] ->
  loader_truthy test_loader = false ->
  exists wl w l,
    fit_upto T train_loader init_lr lr_clip weight_decay epochs optimizer_name
             log_interval test_loader save_model epochs w0 = (wl, Ok l) /\
    saved wl = saved w0 /\
    fit T train_loader init_lr lr_clip weight_decay epochs optimizer_name
        log_interval test_loader save_model w0 = (w, Ok l) /\
    self_ w = self_ wl /\
    Z.of_nat (length (estimators_ (self_ w)))
    = (Z.of_nat (length (estimators_ (self_ w0))) + n_estimators (self_ w0))%Z /\
    saved w = saved w0 ++ (if save_model then [estimators_ (self_ w)] else []).
Proof.
  intros Hacc HN HB Hno.
  destruct (@fit_ok _ T train_loader init_lr lr_clip weight_decay epochs
              optimizer_name log_interval test_loader save_model w0
              Hacc HN HB)
    as (wl & l & snaps & Hupto & Hfit & Hs & Hlen & _).
  assert (Hsaved : saved wl = saved w0)
    by (eapply fit_upto_no_save; [exact Hno | exact Hupto]).
  rewrite Hno in Hfit. rewrite andb_true_r in Hfit.
  exists wl. eexists. exists l.
  split; [exact Hupto |]. split; [exact Hsaved |]. split; [exact Hfit |].
  assert (Hcount : Z.of_nat (length (estimators_ (self_ wl)))
                   = (Z.of_nat (length (estimators_ (self_ w0)))
                      + n_estimators (self_ w0))%Z)
    by (rewrite Hs, length_app; lia).
  destruct save_model; cbn [self_ saved].
  - rewrite Hsaved. auto.
  - rewrite Hsaved, app_nil_r. auto.
Qed.

(** C7, as the code has it. The closing save is guarded by [save_model].
    When [fit] is given no test loader ([None], or a loader with no batch)
    and the configuration is accepted, it returns normally; nothing is
    saved while the epochs run; and after the last epoch the ensemble, with
    all its [n_estimators] new snapshots, is saved exactly once if
    [save_model] is true, and not at all if it is false. *)
Theorem fit_saves_once_without_validation `{Collaborators} (T : Task)
  (train_loader : list Batch) (init_lr : R) (lr_clip : LrClip)
  (weight_decay : R) (epochs : Z) (optimizer_name : OptimizerKind)
  (log_interval : Z) (test_loader : option (list TestBatch))
  (save_model : bool) (w0 : World) :
  config_accepted (n_estimators (self_ w0)) init_lr lr_clip weight_decay epochs
                  log_interval ->
  (0 < n_estimators (self_ w0))%Z ->
  train_loader <> [] ->
  loader_truthy test_loader = false ->
  exists wl w l,
    fit_upto T train_loader init_lr lr_clip weight_decay epochs optimizer_name
             log_interval test_loader save_model epochs w0 = (wl, Ok l) /\
    saved wl = saved w0 /\
    fit T train_loader init_lr lr_clip weight_decay epochs optimizer_name
        log_interval test_loader save_model w0 = (w, Ok l) /\
    self_ w = self_ wl /\
    Z.of_nat (length (estimators_ (self_ w)))
    = (Z.of_nat (length (estimators_ (self_ w0))) + n_estimators (self_ w0))%Z /\
    saved w = saved w0 ++ (if save_model then [estimators_ (self_ w)] else []).
Proof. apply fit_without_test_loader. Qed.

Lemma fit_saves_once_without_validation_witness :
  exists wl w l,
    @fit_upto toy classifier (repeat tt 10) 0.1 ClipNone 0.0005 6 Adam 100 None
              true 6 (@fresh toy 3) = (wl, Ok l) /\
    saved wl = saved (@fresh toy 3) /\
    @fit toy classifier (repeat tt 10) 0.1 ClipNone 0.0005 6 Adam 100 None true
         (@fresh toy 3) = (w, Ok l) /\
    self_ w = self_ wl /\
    Z.of_nat (length (estimators_ (self_ w)))
    = (Z.of_nat (length (estimators_ (self_ (@fresh toy 3)))) + 3)%Z /\
    saved w = saved (@fresh toy 3) ++ [estimators_ (self_ w)].
Proof.
  apply (@fit_saves_once_without_validation toy classifier (repeat tt 10) 0.1
           ClipNone 0.0005 6 Adam 100 None true (@fresh toy 3)).
  - exact toy_config_accepted.
  - simpl. lia.
  - discriminate.
  - reflexivity.
Defined.

(** C7 as stated fails: with no test loader and [save_model=False] a whole
    run of 6 epochs of 10 batches persists nothing at all. *)
Lemma fit_no_validation_no_save_counterexample :
  exists w l,
    @fit toy classifier (repeat tt 10) 0.1 ClipNone 0.0005 6 Adam 100 None false
         (@fresh toy 3) = (w, Ok l) /\
    saved w = [].
Proof.
  destruct (@fit_without_test_loader toy classifier (repeat tt 10) 0.1 ClipNone
              0.0005 6 Adam 100 None false (@fresh toy 3))
    as (wl & w & l & _ & _ & Hfit & _ & _ & Hsaved).
  - exact toy_config_accepted.
  - simpl. lia.
  - discriminate.
  - reflexivity.
  - exists w, l. split; [exact Hfit | exact Hsaved].
Qed.

Section BestScore.
Context `{Collaborators}.
Variable train_loader : list Batch.
Variables (init_lr : R) (lr_clip : LrClip) (weight_decay : R) (epochs : Z).
Variables (optimizer_name : OptimizerKind) (log_interval : Z).
Variable test_loader : option (list TestBatch).
Variable save_model : bool.
Variable w0 : World.
Variables m1 m2 : Z.
Hypothesis Hle : (m1 <= m2)%Z.

Lemma classifier_run_best (w1 w2 : World) (l1 l2 : Locals classifier) :
  fit_upto classifier train_loader init_lr lr_clip weight_decay epochs
           optimizer_name log_interval test_loader save_model m1 w0
  = (w1, Ok l1) ->
  fit_upto classifier train_loader init_lr lr_clip weight_decay epochs
           optimizer_name log_interval test_loader save_model m2 w0
  = (w2, Ok l2) ->
  (0 <= best l1 <= best l2)%R.
Proof.
  intros H1 H2.
  apply (@fit_upto_best _ classifier train_loader init_lr lr_clip weight_decay
           epochs optimizer_name log_interval test_loader save_model Rle)
    with (w0 := w0) (m1 := m1) (m2 := m2) (w1 := w1) (w2 := w2);
    try assumption.
  - intros; apply Rle_refl.
  - intros a b c; apply Rle_trans.
  - intros score b Hi. cbn [improves classifier] in Hi.
    apply Rltb_true in Hi. now apply Rlt_le.
Qed.

Lemma regressor_run_best (w1 w2 : World) (l1 l2 : Locals regressor) :
  fit_upto regressor train_loader init_lr lr_clip weight_decay epochs
           optimizer_name log_interval test_loader save_model m1 w0
  = (w1, Ok l1) ->
  fit_upto regressor train_loader init_lr lr_clip weight_decay epochs
           optimizer_name log_interval test_loader save_model m2 w0
  = (w2, Ok l2) ->
  ExtR_le (best l2) (best l1).
Proof.
  intros H1 H2.
  apply (@fit_upto_best _ regressor train_loader init_lr lr_clip weight_decay
           epochs optimizer_name log_interval test_loader save_model
           (fun a b => ExtR_le b a))
    with (w0 := w0) (m1 := m1) (m2 := m2) (w1 := w1) (w2 := w2);
    try assumption.
  - intros; apply ExtR_le_refl.
  - intros a b c Hab Hbc. now apply ExtR_le_trans with b.
  - intros score b Hi. cbn [improves regressor] in Hi.
    apply ExtR_ltb_true in Hi.
    destruct score, b; simpl in *; try tauto; lra.
Qed.

End BestScore.

(** C4. One validation call of the classifier records the accuracy and (if
    [save_model]) saves the ensemble, once, when the accuracy is strictly
    above the best so far, and changes neither the best accuracy nor the
    saved state when it is equal or below; likewise for the regressor with a
    mean squared error strictly below the best so far. An epoch of [fit]
    changes the best score or the saved state only in this way: either both
    are as before, or a test loader was given, the best score is the score
    of the ensemble after the epoch, strictly better than before, and at
    most one save was made. Along a run of [fit] the best accuracy starts
    at [0] and never decreases from the end of one epoch to the end of a
    later one, and the best mean squared error, which starts at infinity,
    never increases. *)
Theorem best_score_gate `{Collaborators} (train_loader : list Batch)
  (init_lr : R) (lr_clip : LrClip) (weight_decay : R) (epochs : Z)
  (optimizer_name : OptimizerKind) (log_interval : Z)
  (test_loader : option (list TestBatch)) (save_model : bool) (w0 : World)
  (m1 m2 : Z) :
  (m1 <= m2)%Z ->
  (forall (batches : list TestBatch) (l : Locals classifier) (w : World),
     let acc := validation_accuracy (self_ w) batches in
     ((best l < acc)%R ->
      fit_validate save_model batches l w
      = (mkWorld (self_ w)
           (saved w ++ (if save_model then [estimators_ (self_ w)] else [])),
         Ok (mkLocals classifier (estimator_ l) (optimizer l) (scheduler l)
               acc (counter l)))) /\
     ((acc <= best l)%R -> fit_validate save_model batches l w = (w, Ok l))) /\
  (forall (ipe epoch : Z) (l l' : Locals classifier) (w w' : World),
     fit_epoch train_loader lr_clip test_loader save_model ipe epoch l w
     = (w', Ok l') ->
     (best l' = best l /\ saved w' = saved w) \/
     (loader_truthy test_loader = true /\
      best l' = validation_accuracy (self_ w') (loader_batches test_loader) /\
      (best l < best l')%R /\
      saved w'
      = saved w ++ (if save_model then [estimators_ (self_ w')] else []))) /\
  (forall (w1 w2 : World) (l1 l2 : Locals classifier),
     fit_upto classifier train_loader init_lr lr_clip weight_decay epochs
              optimizer_name log_interval test_loader save_model m1 w0
     = (w1, Ok l1) ->
     fit_upto classifier train_loader init_lr lr_clip weight_decay epochs
              optimizer_name log_interval test_loader save_model m2 w0
     = (w2, Ok l2) ->
     (0 <= best l1 <= best l2)%R) /\
  (forall (batches : list TestBatch) (l : Locals regressor) (w : World),
     let mse := Fin (validation_mse (self_ w) batches) in
     (ExtR_lt mse (best l) ->
      fit_validate save_model batches l w
      = (mkWorld (self_ w)
           (saved w ++ (if save_model then [estimators_ (self_ w)] else [])),
         Ok (mkLocals regressor (estimator_ l) (optimizer l) (scheduler l)
               mse (counter l)))) /\
     (ExtR_le (best l) mse -> fit_validate save_model batches l w = (w, Ok l))) /\
  (forall (ipe epoch : Z) (l l' : Locals regressor) (w w' : World),
     fit_epoch train_loader lr_clip test_loader save_model ipe epoch l w
     = (w', Ok l') ->
     (best l' = best l /\ saved w' = saved w) \/
     (loader_truthy test_loader = true /\
      best l'
      = Fin (validation_mse (self_ w') (loader_batches test_loader)) /\
      ExtR_lt (best l') (best l) /\
      saved w'
      = saved w ++ (if save_model then [estimators_ (self_ w')] else []))) /\
  (forall (w1 w2 : World) (l1 l2 : Locals regressor),
     fit_upto regressor train_loader init_lr lr_clip weight_decay epochs
              optimizer_name log_interval test_loader save_model m1 w0
     = (w1, Ok l1) ->
     fit_upto regressor train_loader init_lr lr_clip weight_decay epochs
              optimizer_name log_interval test_loader save_model m2 w0
     = (w2, Ok l2) ->
     ExtR_le (best l2) (best l1)).
Proof.
  intros Hle.
  split; [| split; [| split; [| split; [| split]]]].
  - intros batches l w acc. split.
    + intros Hlt. rewrite fit_validate_spec. cbn [improves sweep classifier].
      unfold Rgtb. apply Rltb_true in Hlt. fold acc. now rewrite Hlt.
    + intros Hge. rewrite fit_validate_spec. cbn [improves sweep classifier].
      unfold Rgtb. apply Rltb_false in Hge. fold acc. now rewrite Hge.
  - intros ipe epoch l l' w w' Hep.
    apply fit_epoch_gate in Hep as [Hsame | (Ht & Hb & Himp & Hs)];
      [now left | right].
    cbn [improves sweep classifier] in Hb, Himp.
    unfold Rgtb in Himp. apply Rltb_true in Himp. auto.
  - intros w1 w2 l1 l2. now apply classifier_run_best.
  - intros batches l w mse. split.
    + intros Hlt. rewrite fit_validate_spec. cbn [improves sweep regressor].
      apply ExtR_ltb_true in Hlt. fold mse. now rewrite Hlt.
    + intros Hge. rewrite fit_validate_spec. cbn [improves sweep regressor].
      apply ExtR_ltb_false in Hge. fold mse. now rewrite Hge.
  - intros ipe epoch l l' w w' Hep.
    apply fit_epoch_gate in Hep as [Hsame | (Ht & Hb & Himp & Hs)];
      [now left | right].
    cbn [improves sweep regressor] in Hb, Himp.
    apply ExtR_ltb_true in Himp. auto.
  - intros w1 w2 l1 l2. now apply regressor_run_best.
Qed.

Lemma best_score_gate_witness :
  exists (w1 w2 : @World toy) (l1 l2 : @Locals toy classifier),
    @fit_upto toy classifier (repeat tt 10) 0.1 ClipNone 0.0005 6 Adam 100
              (Some [tt]) true 2 (@fresh toy 3) = (w1, Ok l1) /\
    @fit_upto toy classifier (repeat tt 10) 0.1 ClipNone 0.0005 6 Adam 100
              (Some [tt]) true 4 (@fresh toy 3) = (w2, Ok l2) /\
    (0 <= best l1 <= best l2)%R.
Proof.
  destruct (@fit_upto_ok toy classifier (repeat tt 10) 0.1 ClipNone 0.0005 6
              Adam 100 (Some [tt]) true (@fresh toy 3) toy_config_accepted
              ltac:(simpl; lia) ltac:(discriminate) 2%nat)
    as (w1 & l1 & H1 & _).
  destruct (@fit_upto_ok toy classifier (repeat tt 10) 0.1 ClipNone 0.0005 6
              Adam 100 (Some [tt]) true (@fresh toy 3) toy_config_accepted
              ltac:(simpl; lia) ltac:(discriminate) 4%nat)
    as (w2 & l2 & H2 & _).
  exists w1, w2, l1, l2. split; [exact H1 |]. split; [exact H2 |].
  destruct (@best_score_gate toy (repeat tt 10) 0.1 ClipNone 0.0005 6 Adam 100
              (Some [tt]) true (@fresh toy 3) 2 4 ltac:(lia))
    as (_ & _ & Hrun & _).
  exact (Hrun w1 w2 l1 l2 H1 H2).
Defined.

(** C10 as stated fails. A [fit] call rejected by the parameter checks
    leaves an ensemble with [n_outputs] assigned and no snapshot; on it the
    predictors return: zeros for the regressor, the uniform distribution
    for the classifier. *)
Lemma forward_empty_counterexample :
  snd toy_short_run = Raise (ValueError BadMultiple) /\
  estimators_ (self_ (fst toy_short_run)) = [] /\
  @_forward toy (self_ (fst toy_short_run)) [[1]; [2]]%R
  = Ok [[0; 0]; [0; 0]]%R /\
  @SnapshotEnsembleRegressor.forward toy (self_ (fst toy_short_run))
                                     [[1]; [2]]%R
  = Ok [[0; 0]; [0; 0]]%R /\
  @SnapshotEnsembleClassifier.forward toy (self_ (fst toy_short_run))
                                      [[1]; [2]]%R
  = Ok [[1 / 2; 1 / 2]; [1 / 2; 1 / 2]]%R.
Proof.
  destruct rejected_toy_run as (Hfit & Hempty).
  unfold toy_short_run. rewrite Hfit. cbn [fst snd].
  split; [reflexivity |].
  split; [exact Hempty |].
  assert (Hf : @_forward toy (self_ (@entered toy classifier [tt; tt]
                                        (@fresh toy 2))) [[1]; [2]]%R
               = Ok [[0; 0]; [0; 0]]%R) by reflexivity.
  unfold SnapshotEnsembleClassifier.forward,
    SnapshotEnsembleRegressor.forward. rewrite Hf.
  split; [reflexivity |]. split; [reflexivity |].
  cbn. rewrite exp_0. repeat f_equal; field.
Qed.

(** * Further properties *)

(** ** Division by zero in [fit] *)

Section MoreValidation.
Context `{Collaborators}.
Variables (self : Ensemble Model) (init_lr : R) (lr_clip : LrClip).
Variables (weight_decay : R) (epochs log_interval : Z).

Lemma validate_zero_estimators :
  n_estimators self = 0%Z ->
  basic_accepted init_lr lr_clip weight_decay epochs log_interval ->
  _validate_parameters self init_lr lr_clip weight_decay epochs log_interval
  = Raise ZeroDivisionError.
Proof.
  intros Hn (Hlr & Hclip & Hwd & He & Hlog).
  unfold _validate_parameters, Rgtb, pymod.
  apply Rltb_true in Hlr. rewrite Hlr. simpl.
  rewrite (check_lr_clip_accepted Hclip). simpl.
  assert (Hwd' : Rgeb weight_decay 0 = true) by (apply Rgeb_true; lra).
  rewrite Hwd'. simpl.
  assert (He' : (epochs >? 0)%Z = true) by lia. rewrite He'. simpl.
  assert (Hlog' : (log_interval >? 0)%Z = true) by lia. rewrite Hlog'. simpl.
  rewrite Hn. reflexivity.
Qed.

Lemma validate_basic_rejected :
  ~ basic_accepted init_lr lr_clip weight_decay epochs log_interval ->
  exists why,
    _validate_parameters self init_lr lr_clip weight_decay epochs log_interval
    = Raise (ValueError why).
Proof.
  intros Hno. unfold _validate_parameters, Rgtb.
  destruct (Rltb 0 init_lr) eqn:Hlr; simpl; [| eexists; reflexivity].
  apply Rltb_true in Hlr.
  destruct (clip_accepted_dec lr_clip) as [Hclip | Hclip].
  2: { destruct (check_lr_clip_rejected Hclip) as (why & ->).
       eexists; reflexivity. }
  rewrite (check_lr_clip_accepted Hclip). simpl.
  destruct (Rgeb weight_decay 0) eqn:Hwd; simpl; [| eexists; reflexivity].
  apply Rgeb_true in Hwd.
  destruct (epochs >? 0)%Z eqn:He; simpl; [| eexists; reflexivity].
  destruct (log_interval >? 0)%Z eqn:Hlog; simpl; [| eexists; reflexivity].
  exfalso. apply Hno. repeat split; try assumption; try lia; lra.
Qed.

End MoreValidation.

Lemma basic_accepted_dec (init_lr : R) (lr_clip : LrClip) (weight_decay : R)
  (epochs log_interval : Z) :
  basic_accepted init_lr lr_clip weight_decay epochs log_interval \/
  ~ basic_accepted init_lr lr_clip weight_decay epochs log_interval.
Proof.
  unfold basic_accepted.
  destruct (Rlt_dec 0 init_lr); [| right; tauto].
  destruct (clip_accepted_dec lr_clip); [| right; tauto].
  destruct (Rle_dec 0 weight_decay); [| right; tauto].
  destruct (Z_lt_dec 0 epochs); [| right; tauto].
  destruct (Z_lt_dec 0 log_interval); [left | right]; tauto.
Qed.

(** X1. [n_estimators] is never checked against zero. On an ensemble with
    [n_estimators = 0], [fit] raises [ZeroDivisionError] (from
    [epochs % n_estimators]) exactly when every other parameter check
    passes, and the [ValueError] of the first failing check otherwise; in
    both cases it has only assigned [n_outputs]. *)
Theorem fit_zero_estimators `{Collaborators} (T : Task)
  (train_loader : list Batch) (init_lr : R) (lr_clip : LrClip)
  (weight_decay : R) (epochs : Z) (optimizer_name : OptimizerKind)
  (log_interval : Z) (test_loader : option (list TestBatch))
  (save_model : bool) (w0 : World) :
  n_estimators (self_ w0) = 0%Z ->
  (basic_accepted init_lr lr_clip weight_decay epochs log_interval <->
   fit T train_loader init_lr lr_clip weight_decay epochs optimizer_name
       log_interval test_loader save_model w0
   = (entered T train_loader w0, Raise ZeroDivisionError)) /\
  (~ basic_accepted init_lr lr_clip weight_decay epochs log_interval <->
   exists why,
     fit T train_loader init_lr lr_clip weight_decay epochs optimizer_name
         log_interval test_loader save_model w0
     = (entered T train_loader w0, Raise (ValueError why))).
Proof.
  intros HN.
  destruct (basic_accepted_dec init_lr lr_clip weight_decay epochs
              log_interval) as [Hacc | Hrej].
  - assert (Hfit : fit T train_loader init_lr lr_clip weight_decay epochs
                       optimizer_name log_interval test_loader save_model w0
                   = (entered T train_loader w0, Raise ZeroDivisionError))
      by (apply fit_rejected; apply validate_zero_estimators; assumption).
    split; [tauto |]. split; [tauto |].
    intros (why & Hv). rewrite Hfit in Hv. discriminate.
  - assert (Hv : exists why,
               _validate_parameters (self_ (entered T train_loader w0)) init_lr
                 lr_clip weight_decay epochs log_interval
               = Raise (ValueError why))
      by (apply validate_basic_rejected; assumption).
    destruct Hv as (why & Hv). apply fit_rejected with (test_loader := test_loader)
      (save_model := save_model) (optimizer_name := optimizer_name) in Hv.
    split.
    + split; [tauto |]. rewrite Hv. discriminate.
    + split; [| tauto]. intros _. exists why. exact Hv.
Qed.

Lemma fit_zero_estimators_witness :
  (basic_accepted 0.1 ClipNone 0.0005 6 100 <->
   @fit toy classifier (repeat tt 10) 0.1 ClipNone 0.0005 6 Adam 100 None true
        (@fresh toy 0)
   = (@entered toy classifier (repeat tt 10) (@fresh toy 0),
      Raise ZeroDivisionError)) /\
  (~ basic_accepted 0.1 ClipNone 0.0005 6 100 <->
   exists why,
     @fit toy classifier (repeat tt 10) 0.1 ClipNone 0.0005 6 Adam 100 None true
          (@fresh toy 0)
     = (@entered toy classifier (repeat tt 10) (@fresh toy 0),
        Raise (ValueError why))).
Proof.
  apply (@fit_zero_estimators toy classifier (repeat tt 10) 0.1 ClipNone 0.0005
           6 Adam 100 None true (@fresh toy 0)).
  reflexivity.
Defined.

(** X2. An empty training loader is not rejected by the parameter checks:
    on an accepted configuration [fit] then raises [ZeroDivisionError] when
    it builds the scheduler (period [ceil(0 / n_estimators) = 0], and the
    scheduler's first step evaluates [0 % 0]), with nothing collected or
    saved. *)
Theorem fit_empty_train_loader `{Collaborators} (T : Task) (init_lr : R)
  (lr_clip : LrClip) (weight_decay : R) (epochs : Z)
  (optimizer_name : OptimizerKind) (log_interval : Z)
  (test_loader : option (list TestBatch)) (save_model : bool) (w0 : World) :
  n_estimators (self_ w0) <> 0%Z ->
  config_accepted (n_estimators (self_ w0)) init_lr lr_clip weight_decay epochs
                  log_interval ->
  fit T [] init_lr lr_clip weight_decay epochs optimizer_name log_interval
      test_loader save_model w0
  = (entered T [] w0, Raise ZeroDivisionError).
Proof.
  intros HN Hacc.
  unfold fit, fit_setup, bindM, set_n_outputs, get_self, lift. cbn [self_].
  rewrite validate_accepted;
    [| cbn [n_estimators]; exact HN | cbn [n_estimators]; exact Hacc].
  cbn [n_estimators length Z.of_nat]. rewrite Z.mul_0_r.
  unfold _set_scheduler, pyceildiv.
  destruct (Z.eqb_spec (n_estimators (self_ w0)) 0) as [| _]; [contradiction |].
  cbn [bind]. unfold scheduler_step, get_lr, lr_lambda, pymod.
  cbn [T_M last_epoch bind]. rewrite Z.opp_0, Z.div_0_l by exact HN.
  reflexivity.
Qed.

Lemma fit_empty_train_loader_witness :
  @fit toy classifier [] 0.1 ClipNone 0.0005 6 Adam 100 None true (@fresh toy 3)
  = (@entered toy classifier [] (@fresh toy 3), Raise ZeroDivisionError).
Proof.
  apply (@fit_empty_train_loader toy classifier 0.1 ClipNone 0.0005 6 Adam 100
           None true (@fresh toy 3)).
  - discriminate.
  - exact toy_config_accepted.
Defined.

(** ** What [fit] never undoes *)

Section Frame.
Context `{Collaborators}.
Variable T : Task.
Variable train_loader : list Batch.
Variable lr_clip : LrClip.
Variable test_loader : option (list TestBatch).
Variable save_model : bool.

Lemma fit_epoch_frame (ipe epoch : Z) (l : Locals T) (w w' : World)
  (r : Result (Locals T)) :
  fit_epoch train_loader lr_clip test_loader save_model ipe epoch l w = (w', r) ->
  n_estimators (self_ w') = n_estimators (self_ w) /\
  n_outputs (self_ w') = n_outputs (self_ w) /\
  exists added saves,
    estimators_ (self_ w') = estimators_ (self_ w) ++ added /\
    saved w' = saved w ++ saves /\
    (length added <= 1)%nat /\ (length saves <= length added)%nat.
Proof.
  intros Hep.
  pose proof (fit_epoch_spec train_loader lr_clip test_loader save_model
                ipe epoch l w) as Hs.
  rewrite Hep in Hs. destruct r as [l' | e].
  - destruct Hs as (l1 & _ & _ & Hw & _). rewrite Hw.
    cbn [self_ n_estimators n_outputs estimators_ saved].
    split; [reflexivity |]. split; [reflexivity |].
    eexists. eexists. split; [reflexivity |]. split; [reflexivity |].
    destruct (counter l1 mod ipe =? 0)%Z; rewrite ?andb_false_r; cbn [andb];
      [| simpl; lia].
    match goal with
    | |- context [if ?c then [_] else []] => destruct c
    end; simpl; lia.
  - subst w'. split; [reflexivity |]. split; [reflexivity |].
    exists [], []. rewrite !app_nil_r. simpl. auto.
Qed.

Lemma loop_frame (ipe : Z) (xs : list Z) (l : Locals T) (w w' : World)
  (r : Result (Locals T)) :
  for_eachM xs (fit_epoch train_loader lr_clip test_loader save_model ipe) l w
  = (w', r) ->
  n_estimators (self_ w') = n_estimators (self_ w) /\
  n_outputs (self_ w') = n_outputs (self_ w) /\
  exists added saves,
    estimators_ (self_ w') = estimators_ (self_ w) ++ added /\
    saved w' = saved w ++ saves /\
    (length added <= length xs)%nat /\ (length saves <= length added)%nat.
Proof.
  revert l w. induction xs as [| x xs IH]; intros l w; simpl.
  - unfold ret. intros [= <- _]. split; [reflexivity |]. split; [reflexivity |].
    exists [], []. rewrite !app_nil_r. auto.
  - unfold bindM.
    destruct (fit_epoch train_loader lr_clip test_loader save_model ipe x l w)
      as [w1 r1] eqn:Hep.
    apply fit_epoch_frame in Hep
      as (Hn & Ho & a1 & s1 & He1 & Hs1 & Hla & Hls).
    destruct r1 as [l1 | e].
    + intros Hrest. apply IH in Hrest
        as (Hn' & Ho' & a2 & s2 & He2 & Hs2 & Hla2 & Hls2).
      split; [congruence |]. split; [congruence |].
      exists (a1 ++ a2), (s1 ++ s2).
      rewrite He2, He1, Hs2, Hs1, <- !app_assoc, !length_app.
      repeat split; lia.
    + intros [= <- _]. split; [exact Hn |]. split; [exact Ho |].
      exists a1, s1. repeat split; try assumption. lia.
Qed.

End Frame.

(** X3. Whatever its arguments and whether it returns or raises, [fit]
    leaves [n_estimators] as it was and only appends: the snapshots held
    before are an initial segment of those held after, at most one is added
    per epoch, and the saves made before are an initial segment of those
    made after, with at most one save per added snapshot plus the closing
    one. *)
Theorem fit_only_appends `{Collaborators} (T : Task)
  (train_loader : list Batch) (init_lr : R) (lr_clip : LrClip)
  (weight_decay : R) (epochs : Z) (optimizer_name : OptimizerKind)
  (log_interval : Z) (test_loader : option (list TestBatch))
  (save_model : bool) (w0 : World) :
  let w := fst (fit T train_loader init_lr lr_clip weight_decay epochs
                    optimizer_name log_interval test_loader save_model w0) in
  n_estimators (self_ w) = n_estimators (self_ w0) /\
  n_outputs (self_ w)
  = Some (_decide_n_outputs train_loader (is_classification T)) /\
  exists added saves,
    estimators_ (self_ w) = estimators_ (self_ w0) ++ added /\
    saved w = saved w0 ++ saves /\
    (Z.of_nat (length added) <= Z.max 0 epochs)%Z /\
    (length saves <= length added + 1)%nat.
Proof.
  intros w. subst w. rewrite fit_then_save. unfold fit_upto, bindM.
  destruct (fit_setup T train_loader init_lr lr_clip weight_decay epochs
              optimizer_name log_interval w0) as [w1 [[l ipe] | e]] eqn:Hsetup;
    apply fit_setup_world in Hsetup; subst w1.
  - destruct (for_eachM (range epochs) _ l (entered T train_loader w0))
      as [w2 r] eqn:Hloop.
    apply loop_frame in Hloop as (Hn & Ho & a & s & He & Hs & Hla & Hls).
    assert (Hrange : length (range epochs) = Z.to_nat epochs)
      by (unfold range; now rewrite length_map, length_seq).
    rewrite Hrange in Hla.
    destruct r as [l2 | e];
      [destruct (save_model && negb (loader_truthy test_loader)) |];
      cbn [fst self_ saved];
      (split; [exact Hn |]; split; [exact Ho |]);
      exists a;
      [exists (s ++ [estimators_ (self_ w2)]) | exists s | exists s];
      rewrite ?Hs, ?He, ?length_app; cbn [entered self_ saved estimators_];
      rewrite <- ?app_assoc; repeat split; simpl; lia.
  - cbn [fst]. split; [reflexivity |]. split; [reflexivity |].
    exists [], []. rewrite !app_nil_r. cbn. repeat split; lia.
Qed.

(** ** The learning rate along a run *)

Lemma pyceildiv_exact (a b : Z) :
  b <> 0%Z -> (a mod b = 0)%Z -> pyceildiv a b = Ok (a / b)%Z.
Proof.
  intros Hb Hmod. unfold pyceildiv.
  destruct (Z.eqb_spec b 0); [contradiction |]. f_equal.
  rewrite Z.div_opp_l_z by assumption. lia.
Qed.

Section InStep.
Context `{Collaborators}.
Variable T : Task.
Variable train_loader : list Batch.
Variables (init_lr : R) (lr_clip : LrClip) (weight_decay : R) (epochs : Z).
Variables (optimizer_name : OptimizerKind) (log_interval : Z).
Variable test_loader : option (list TestBatch).
Variable save_model : bool.

Lemma fit_batch_in_step (period : Z) (base : list R) (batch : Batch)
  (l l' : Locals T) :
  in_step period base l ->
  fit_batch lr_clip batch l = Ok l' ->
  in_step period base l'.
Proof.
  intros (HT & Hbase & Hlast & _). unfold fit_batch.
  destruct (_clip_lr (optimizer l) lr_clip) as [opt |]; simpl; [| discriminate].
  destruct (train_step (estimator_ l) opt batch) as [est buf].
  unfold scheduler_step.
  destruct (get_lr (mkLambdaLR (T_M (scheduler l)) (base_lrs (scheduler l))
                               (last_epoch (scheduler l) + 1)))
    as [lrs |] eqn:Hget; simpl; [| discriminate].
  intros [= <-]. unfold in_step. cbn [scheduler optimizer counter T_M base_lrs
                                       last_epoch param_groups].
  repeat split; try assumption. lia.
Qed.

Lemma batches_in_step (period : Z) (base : list R) (batches : list Batch)
  (l l' : Locals T) :
  in_step period base l ->
  for_each batches (fit_batch lr_clip) l = Ok l' ->
  in_step period base l'.
Proof.
  revert l. induction batches as [| b batches IH]; intros l Hin; simpl.
  - now intros [= <-].
  - destruct (fit_batch lr_clip b l) as [l1 |] eqn:E; simpl; [| discriminate].
    apply IH. eapply fit_batch_in_step; eassumption.
Qed.

Lemma loop_in_step (period : Z) (base : list R) (ipe : Z) (xs : list Z)
  (l l' : Locals T) (w w' : World) :
  in_step period base l ->
  for_eachM xs (fit_epoch train_loader lr_clip test_loader save_model ipe) l w
  = (w', Ok l') ->
  in_step period base l'.
Proof.
  revert l w. induction xs as [| x xs IH]; intros l w Hin; simpl.
  - unfold ret. now intros [= _ <-].
  - unfold bindM.
    pose proof (fit_epoch_spec train_loader lr_clip test_loader save_model
                  ipe x l w) as Hs.
    destruct (fit_epoch train_loader lr_clip test_loader save_model ipe x l w)
      as [w1 [l1 | e]]; [| discriminate].
    destruct Hs as (l2 & Hb & _ & _ & Hl).
    apply IH. rewrite Hl.
    apply (batches_in_step _ Hin) in Hb. exact Hb.
Qed.

Lemma fit_setup_in_step (w ws : World) (l0 : Locals T) (ipe : Z) :
  fit_setup T train_loader init_lr lr_clip weight_decay epochs optimizer_name
            log_interval w = (ws, Ok (l0, ipe)) ->
  exists period,
    pyceildiv (epochs * Z.of_nat (length train_loader)) (n_estimators (self_ w))
    = Ok period /\
    in_step period
      (param_groups
         (set_optimizer _make_estimator optimizer_name init_lr weight_decay))
      l0.
Proof.
  unfold fit_setup, bindM, set_n_outputs, get_self, lift, ret.
  cbn [self_ saved n_estimators estimators_].
  destruct (_validate_parameters _ _ _ _ _ _); [| discriminate].
  unfold _set_scheduler.
  destruct (pyceildiv _ _) as [period |]; cbn [bind]; [| discriminate].
  unfold scheduler_step.
  destruct (get_lr _) as [lrs |] eqn:Hget; cbn [bind]; [| discriminate].
  destruct (pyfloordiv _ _); [| discriminate].
  intros [= _ <- _]. exists period. split; [reflexivity |].
  unfold in_step. cbn [scheduler optimizer counter T_M base_lrs last_epoch
                         param_groups].
  repeat split. exact Hget.
Qed.

(** At the end of any number of epochs of any run, the optimizer holds the
    rates the scheduler prescribes for the current counter. *)
Lemma fit_upto_in_step (m : Z) (w0 w : World) (l : Locals T) :
  fit_upto T train_loader init_lr lr_clip weight_decay epochs optimizer_name
           log_interval test_loader save_model m w0 = (w, Ok l) ->
  exists period,
    pyceildiv (epochs * Z.of_nat (length train_loader))
              (n_estimators (self_ w0)) = Ok period /\
    in_step period
      (param_groups
         (set_optimizer _make_estimator optimizer_name init_lr weight_decay))
      l.
Proof.
  unfold fit_upto, bindM.
  destruct (fit_setup _ _ _ _ _ _ _ _ w0) as [ws [[l0 ipe] | e]] eqn:Hsetup;
    [| discriminate].
  apply fit_setup_in_step in Hsetup as (period & Hp & Hin).
  intros Hloop. exists period. split; [exact Hp |].
  eapply loop_in_step; eassumption.
Qed.

End InStep.

(** X4. On an accepted configuration the period of the scheduler is
    [n_iters_per_estimator], the scheduler has been stepped once per batch,
    and at the end of epoch [m] every parameter group holds its initial rate
    times [0.5 * (cos(pi * (c mod period) / period) + 1)], where
    [c = m * len(train_loader)] is the counter: clipping changes the rate an
    update uses, never the rate the schedule continues from. *)
Theorem fit_rate_at_epoch_end `{Collaborators} (T : Task)
  (train_loader : list Batch) (init_lr : R) (lr_clip : LrClip)
  (weight_decay : R) (epochs : Z) (optimizer_name : OptimizerKind)
  (log_interval : Z) (test_loader : option (list TestBatch))
  (save_model : bool) (w0 : World) (m : nat) :
  config_accepted (n_estimators (self_ w0)) init_lr lr_clip weight_decay epochs
                  log_interval ->
  (0 < n_estimators (self_ w0))%Z ->
  train_loader <> [] ->
  let period :=
    (epochs * Z.of_nat (length train_loader) / n_estimators (self_ w0))%Z in
  let c := (Z.of_nat m * Z.of_nat (length train_loader))%Z in
  exists w l,
    fit_upto T train_loader init_lr lr_clip weight_decay epochs optimizer_name
             log_interval test_loader save_model (Z.of_nat m) w0 = (w, Ok l) /\
    counter l = c /\
    T_M (scheduler l) = period /\
    last_epoch (scheduler l) = c /\
    param_groups (optimizer l)
    = map (fun base_lr =>
             (base_lr * (0.5 * (cos (PI * IZR (c mod period) / IZR period) + 1)))%R)
          (param_groups
             (set_optimizer _make_estimator optimizer_name init_lr weight_decay)).
Proof.
  intros Hacc HN HB period c.
  destruct (@fit_upto_ok _ T train_loader init_lr lr_clip weight_decay epochs
              optimizer_name log_interval test_loader save_model w0
              Hacc HN HB m) as (w & l & Hrun & Hc & _).
  destruct (@cycle_length _ init_lr lr_clip weight_decay epochs log_interval w0
              Hacc HN) as (Hk & Hd).
  assert (HBpos : (0 < Z.of_nat (length train_loader))%Z)
    by (destruct train_loader; [congruence | simpl; lia]).
  pose proof (@iters_per_estimator _ train_loader init_lr lr_clip weight_decay
                epochs log_interval w0 Hacc HN) as Hipe.
  exists w, l. split; [exact Hrun |]. split; [exact Hc |].
  apply fit_upto_in_step in Hrun as (p & Hp & HT & Hbase & Hlast & Hget).
  rewrite pyceildiv_exact in Hp.
  - injection Hp as <-. fold period in HT |- *.
    split; [exact HT |]. split; [rewrite Hlast; exact Hc |].
    unfold get_lr in Hget. rewrite HT, Hlast, Hc, Hbase in Hget. fold c in Hget.
    rewrite lr_lambda_value in Hget by (unfold period; rewrite Hipe; nia).
    cbn [bind] in Hget. now injection Hget as <-.
  - lia.
  - rewrite Hd at 1.
    replace (n_estimators (self_ w0) * (epochs / n_estimators (self_ w0))
             * Z.of_nat (length train_loader))%Z
      with (epochs / n_estimators (self_ w0) * Z.of_nat (length train_loader)
            * n_estimators (self_ w0))%Z by ring.
    apply Z.mod_mul. lia.
Qed.

Lemma fit_rate_at_epoch_end_witness :
  exists w l,
    @fit_upto toy classifier (repeat tt 10) 0.1 ClipNone 0.0005 6 Adam 100 None
              true (Z.of_nat 3) (@fresh toy 3) = (w, Ok l) /\
    counter l = (Z.of_nat 3 * Z.of_nat (length (repeat tt 10)))%Z /\
    T_M (scheduler l) = (6 * Z.of_nat (length (repeat tt 10)) / 3)%Z /\
    last_epoch (scheduler l)
    = (Z.of_nat 3 * Z.of_nat (length (repeat tt 10)))%Z /\
    param_groups (optimizer l)
    = map (fun base_lr =>
             (base_lr
              * (0.5 * (cos (PI * IZR ((Z.of_nat 3
                                         * Z.of_nat (length (repeat tt 10)))
                                        mod (6 * Z.of_nat (length (repeat tt 10))
                                             / 3))
                             / IZR (6 * Z.of_nat (length (repeat tt 10)) / 3))
                        + 1)))%R)
          (param_groups (@set_optimizer toy (@_make_estimator toy) Adam 0.1
                                        0.0005)).
Proof.
  apply (@fit_rate_at_epoch_end toy classifier (repeat tt 10) 0.1 ClipNone 0.0005
           6 Adam 100 None true (@fresh toy 3) 3%nat).
  - exact toy_config_accepted.
  - simpl. lia.
  - discriminate.
Defined.

Lemma multiplier_at_boundary (c period : Z) :
  period <> 0%Z -> (c mod period = 0)%Z ->
  lr_lambda period c = Ok 1%R.
Proof.
  intros Hp Hmod. rewrite lr_lambda_value by exact Hp. rewrite Hmod. f_equal.
  replace (PI * 0 / IZR period)%R with 0%R by (unfold Rdiv; ring).
  rewrite cos_0. lra.
Qed.

Lemma map_times_one (l : list R) : map (fun b => (b * 1)%R) l = l.
Proof.
  induction l as [| x l IH]; simpl; [reflexivity |].
  now rewrite IH, Rmult_1_r.
Qed.

Lemma nth_error_last_split {A : Type} (l : list A) (x : A) :
  nth_error l (length l - 1) = Some x ->
  exists earlier, l = earlier ++ [x].
Proof.
  intros Hn. destruct (@exists_last _ l) as (earlier & y & ->).
  - intros ->. discriminate Hn.
  - exists earlier. rewrite length_app in Hn. simpl in Hn.
    rewrite nth_error_app2 in Hn by lia.
    replace (length earlier + 1 - 1 - length earlier)%nat with 0%nat in Hn by lia.
    simpl in Hn. now injection Hn as ->.
Qed.

(** X5. A full run on an accepted configuration ends with the counter, and
    the scheduler's step count, at [epochs * len(train_loader)]; the last
    snapshot of the collection is the live estimator as training left it;
    and the optimizer's rates are back at their initial values (the warm
    restart after the last cycle). *)
Theorem fit_final_state `{Collaborators} (T : Task)
  (train_loader : list Batch) (init_lr : R) (lr_clip : LrClip)
  (weight_decay : R) (epochs : Z) (optimizer_name : OptimizerKind)
  (log_interval : Z) (test_loader : option (list TestBatch))
  (save_model : bool) (w0 : World) :
  config_accepted (n_estimators (self_ w0)) init_lr lr_clip weight_decay epochs
                  log_interval ->
  (0 < n_estimators (self_ w0))%Z ->
  train_loader <> [] ->
  exists w l earlier,
    fit T train_loader init_lr lr_clip weight_decay epochs optimizer_name
        log_interval test_loader save_model w0 = (w, Ok l) /\
    counter l = (epochs * Z.of_nat (length train_loader))%Z /\
    last_epoch (scheduler l) = (epochs * Z.of_nat (length train_loader))%Z /\
    estimators_ (self_ w) = earlier ++ [estimator_ l] /\
    param_groups (optimizer l)
    = param_groups
        (set_optimizer _make_estimator optimizer_name init_lr weight_decay).
Proof.
  intros Hacc HN HB.
  destruct (@cycle_length _ init_lr lr_clip weight_decay epochs log_interval w0
              Hacc HN) as (Hk & Hd).
  pose proof Hacc as (_ & _ & _ & He & _).
  assert (HBpos : (0 < Z.of_nat (length train_loader))%Z)
    by (destruct train_loader; [congruence | simpl; lia]).
  pose proof (@iters_per_estimator _ train_loader init_lr lr_clip weight_decay
                epochs log_interval w0 Hacc HN) as Hipe.
  destruct (@fit_upto_ok _ T train_loader init_lr lr_clip weight_decay epochs
              optimizer_name log_interval test_loader save_model w0
              Hacc HN HB (Z.to_nat epochs))
    as (wl & l & Hrun & Hc & _ & snaps & Hs & Hlen & Hpre).
  rewrite Z2Nat.id in Hrun, Hc, Hlen, Hpre by lia.
  set (k := (epochs / n_estimators (self_ w0))%Z) in *.
  assert (HlenN : Z.of_nat (length snaps) = n_estimators (self_ w0)).
  { rewrite Hlen, Hd. apply Z.div_mul. lia. }
  (* the last snapshot *)
  destruct (Hpre (length snaps - 1)%nat) as (wj & lj & Hrj & _ & Hnj); [nia |].
  replace ((Z.of_nat (length snaps - 1) + 1) * k)%Z with epochs in Hrj by nia.
  rewrite Hrun in Hrj. injection Hrj as <- <-.
  apply nth_error_last_split in Hnj as (earlier & Hsplit).
  (* the rates *)
  pose proof Hrun as Hin.
  apply fit_upto_in_step in Hin as (p & Hp & HT & Hbase & Hlast & Hget).
  assert (Hmod : ((epochs * Z.of_nat (length train_loader))
                  mod n_estimators (self_ w0) = 0)%Z).
  { rewrite Hd.
    replace (n_estimators (self_ w0) * k * Z.of_nat (length train_loader))%Z
      with (k * Z.of_nat (length train_loader) * n_estimators (self_ w0))%Z
      by ring.
    apply Z.mod_mul. lia. }
  rewrite pyceildiv_exact in Hp by (try lia; exact Hmod).
  injection Hp as <-. rewrite Hipe in HT. fold k in HT.
  unfold get_lr in Hget. rewrite HT, Hlast, Hc, Hbase in Hget.
  rewrite multiplier_at_boundary in Hget.
  2: nia.
  2: { rewrite Hd.
       replace (n_estimators (self_ w0) * k * Z.of_nat (length train_loader))%Z
         with (n_estimators (self_ w0) * (k * Z.of_nat (length train_loader)))%Z
         by ring.
       apply Z.mod_mul. nia. }
  cbn [bind] in Hget. rewrite map_times_one in Hget. injection Hget as Hrates.
  eexists. exists l, (estimators_ (self_ w0) ++ earlier).
  split; [rewrite fit_then_save, Hrun; reflexivity |].
  split; [exact Hc |]. split; [rewrite Hlast; exact Hc |].
  split; [| symmetry; exact Hrates].
  rewrite <- app_assoc, <- Hsplit.
  destruct (save_model && negb (loader_truthy test_loader)); exact Hs.
Qed.

Lemma fit_final_state_witness :
  exists w l earlier,
    @fit toy classifier (repeat tt 10) 0.1 ClipNone 0.0005 6 Adam 100 None true
         (@fresh toy 3) = (w, Ok l) /\
    counter l = (6 * Z.of_nat (length (repeat tt 10)))%Z /\
    last_epoch (scheduler l) = (6 * Z.of_nat (length (repeat tt 10)))%Z /\
    estimators_ (self_ w) = earlier ++ [estimator_ l] /\
    param_groups (optimizer l)
    = param_groups (@set_optimizer toy (@_make_estimator toy) Adam 0.1 0.0005).
Proof.
  apply (@fit_final_state toy classifier (repeat tt 10) 0.1 ClipNone 0.0005 6
           Adam 100 None true (@fresh toy 3)).
  - exact toy_config_accepted.
  - simpl. lia.
  - discriminate.
Defined.

(** ** What is persisted *)

Section Persisted.
Context `{Collaborators}.
Variable T : Task.
Variable train_loader : list Batch.
Variable lr_clip : LrClip.
Variable test_loader : option (list TestBatch).
Variable saved0 : list (list Model).



End Persisted.



Section FirstSave.
Context `{Collaborators}.
Variable train_loader : list Batch.
Variable lr_clip : LrClip.
Variable test_loader : option (list TestBatch).

(** The classifier's gate never opens on an accuracy of zero. *)
Lemma loop_blind (save_model : bool) (ipe : Z) (xs : list Z)
  (l l' : Locals classifier) (w w' : World) :
  (forall self, (validation_accuracy self (loader_batches test_loader) <= 0)%R) ->
  best l = 0%R ->
  for_eachM xs (fit_epoch train_loader lr_clip test_loader save_model ipe) l w
  = (w', Ok l') ->
  best l' = 0%R /\ saved w' = saved w.
Proof.
  intros Hzero. revert l w. induction xs as [| x xs IH]; intros l w Hb; simpl.
  - unfold ret. intros [= <- <-]. auto.
  - unfold bindM.
    destruct (fit_epoch train_loader lr_clip test_loader save_model ipe x l w)
      as [w1 [l1 | e]] eqn:Hep; [| discriminate].
    apply fit_epoch_gate in Hep as [(Hsame & Hsv) | (_ & Hscore & Himp & _)].
    + intros Hrest. apply IH in Hrest as (Hb' & Hsv'); [| congruence].
      split; [exact Hb' | congruence].
    + exfalso. cbn [improves sweep classifier] in Hscore, Himp.
      unfold Rgtb in Himp. apply Rltb_true in Himp.
      specialize (Hzero (self_ w1)). rewrite <- Hscore, Hb in *. lra.
Qed.

(** The regressor's gate opens on the first snapshot. *)
Lemma loop_first_save (ipe : Z) (xs : list Z) (l l' : Locals regressor)
  (w w' : World) (ests0 : list Model) (saved0 : list (list Model)) :
  loader_truthy test_loader = true ->
  (estimators_ (self_ w) = ests0 /\ best l = PInf /\ saved w = saved0) \/
  (exists mse s rest,
     best l = Fin mse /\ saved w = saved0 ++ (ests0 ++ [s]) :: rest) ->
  for_eachM xs (fit_epoch train_loader lr_clip test_loader true ipe) l w
  = (w', Ok l') ->
  (estimators_ (self_ w') = ests0 /\ best l' = PInf /\ saved w' = saved0) \/
  (exists mse s rest,
     best l' = Fin mse /\ saved w' = saved0 ++ (ests0 ++ [s]) :: rest).
Proof.
  intros Hloader. revert l w. induction xs as [| x xs IH]; intros l w Hinv; simpl.
  - unfold ret. now intros [= <- <-].
  - unfold bindM.
    pose proof (fit_epoch_spec train_loader lr_clip test_loader true
                  ipe x l w) as Hs.
    destruct (fit_epoch train_loader lr_clip test_loader true ipe x l w)
      as [w1 [l1 | e]]; [| discriminate].
    destruct Hs as (l2 & Hb & _ & Hw & Hl).
    apply batches_inv in Hb as (_ & Hbest & _).
    apply IH. rewrite Hw, Hl, Hloader, Hbest.
    cbn [self_ estimators_ saved best andb improves sweep regressor].
    rewrite andb_true_r.
    destruct Hinv as [(He & Hb0 & Hsv) | (mse & s & rest & Hb0 & Hsv)].
    + rewrite Hb0, He, Hsv. destruct (counter l2 mod ipe =? 0)%Z; cbn [andb].
      * right. cbn [ExtR_ltb]. eexists _, _, []. split; reflexivity.
      * left. rewrite !app_nil_r. auto.
    + right. rewrite Hb0, Hsv.
      match goal with
      | |- context [if ?c then Fin _ else Fin _] => destruct c
      end.
      * eexists _, s, _. split; [reflexivity |].
        rewrite <- app_assoc. reflexivity.
      * exists mse, s, rest. rewrite app_nil_r. auto.
Qed.

End FirstSave.

(** X7. The classifier's best accuracy starts at [0.] and only a strictly
    greater accuracy is saved: a run with a test loader on which the
    ensemble never scores above zero returns normally with all its
    snapshots collected and nothing saved, whatever [save_model] is (the
    closing save is skipped because a test loader was given). *)
Theorem classifier_zero_accuracy_never_saves `{Collaborators}
  (train_loader : list Batch) (init_lr : R) (lr_clip : LrClip)
  (weight_decay : R) (epochs : Z) (optimizer_name : OptimizerKind)
  (log_interval : Z) (test_loader : option (list TestBatch))
  (save_model : bool) (w0 : World) :
  config_accepted (n_estimators (self_ w0)) init_lr lr_clip weight_decay epochs
                  log_interval ->
  (0 < n_estimators (self_ w0))%Z ->
  train_loader <> [] ->
  loader_truthy test_loader = true ->
  (forall self, (validation_accuracy self (loader_batches test_loader) <= 0)%R) ->
  exists w l snaps,
    fit classifier train_loader init_lr lr_clip weight_decay epochs
        optimizer_name log_interval test_loader save_model w0 = (w, Ok l) /\
    estimators_ (self_ w) = estimators_ (self_ w0) ++ snaps /\
    Z.of_nat (length snaps) = n_estimators (self_ w0) /\
    best l = 0%R /\
    saved w = saved w0.
Proof.
  intros Hacc HN HB Hloader Hzero.
  destruct (@fit_ok _ classifier train_loader init_lr lr_clip weight_decay
              epochs optimizer_name log_interval test_loader save_model w0
              Hacc HN HB)
    as (wl & l & snaps & Hupto & Hfit & Hs & Hlen & _).
  rewrite Hloader in Hfit. rewrite andb_false_r in Hfit.
  exists wl, l, snaps. split; [exact Hfit |]. split; [exact Hs |].
  split; [exact Hlen |].
  revert Hupto. unfold fit_upto, bindM.
  destruct (fit_setup classifier train_loader init_lr lr_clip weight_decay
              epochs optimizer_name log_interval w0)
    as [ws [[l0 ipe] | e]] eqn:Hsetup; [| discriminate].
  pose proof Hsetup as Hsetup'. apply fit_setup_best in Hsetup' as (Hb0 & _).
  apply fit_setup_world in Hsetup. subst ws.
  intros Hloop. eapply loop_blind in Hloop; [exact Hloop | exact Hzero | exact Hb0].
Qed.

Lemma classifier_zero_accuracy_never_saves_witness :
  exists w l snaps,
    @fit toy_blind classifier (repeat tt 10) 0.1 ClipNone 0.0005 6 Adam 100
         (Some [tt]) true (@fresh toy_blind 3) = (w, Ok l) /\
    estimators_ (self_ w) = estimators_ (self_ (@fresh toy_blind 3)) ++ snaps /\
    Z.of_nat (length snaps) = 3%Z /\
    best l = 0%R /\
    saved w = saved (@fresh toy_blind 3).
Proof.
  apply (@classifier_zero_accuracy_never_saves toy_blind (repeat tt 10) 0.1
           ClipNone 0.0005 6 Adam 100 (Some [tt]) true (@fresh toy_blind 3)).
  - exact toy_config_accepted.
  - simpl. lia.
  - discriminate.
  - reflexivity.
  - intros self. apply Rle_refl.
Defined.

(** X8. The regressor's best error starts at [float("inf")], which every
    finite error beats: a run with a test loader and [save_model=True] on
    an accepted configuration always saves at its first snapshot (the
    collection as it was plus that one snapshot), and ends with a finite
    best error. *)
Theorem regressor_saves_first_snapshot `{Collaborators}
  (train_loader : list Batch) (init_lr : R) (lr_clip : LrClip)
  (weight_decay : R) (epochs : Z) (optimizer_name : OptimizerKind)
  (log_interval : Z) (test_loader : option (list TestBatch)) (w0 : World) :
  config_accepted (n_estimators (self_ w0)) init_lr lr_clip weight_decay epochs
                  log_interval ->
  (0 < n_estimators (self_ w0))%Z ->
  train_loader <> [] ->
  loader_truthy test_loader = true ->
  exists w l mse first later,
    fit regressor train_loader init_lr lr_clip weight_decay epochs
        optimizer_name log_interval test_loader true w0 = (w, Ok l) /\
    best l = Fin mse /\
    saved w = saved w0 ++ (estimators_ (self_ w0) ++ [first]) :: later.
Proof.
  intros Hacc HN HB Hloader.
  destruct (@fit_ok _ regressor train_loader init_lr lr_clip weight_decay
              epochs optimizer_name log_interval test_loader true w0
              Hacc HN HB)
    as (wl & l & snaps & Hupto & Hfit & Hs & Hlen & _).
  rewrite Hloader in Hfit. cbn [andb negb] in Hfit.
  revert Hupto. unfold fit_upto, bindM.
  destruct (fit_setup regressor train_loader init_lr lr_clip weight_decay
              epochs optimizer_name log_interval w0)
    as [ws [[l0 ipe] | e]] eqn:Hsetup; [| discriminate].
  pose proof Hsetup as Hsetup'. apply fit_setup_best in Hsetup' as (Hb0 & _).
  apply fit_setup_world in Hsetup. subst ws.
  intros Hloop.
  eapply loop_first_save with (ests0 := estimators_ (self_ w0))
                              (saved0 := saved w0) in Hloop;
    [| exact Hloader |].
  - destruct Hloop as [(He & _) | (mse & s & rest & Hb & Hsv)].
    + exfalso. rewrite Hs in He.
      apply (f_equal (@length _)) in He. rewrite length_app in He.
      destruct snaps; [simpl in Hlen; lia | simpl in He; lia].
    + exists wl, l, mse, s, rest. auto.
  - left. cbn. auto.
Qed.

Lemma regressor_saves_first_snapshot_witness :
  exists w l mse first later,
    @fit toy regressor (repeat tt 10) 0.1 ClipNone 0.0005 6 Adam 100 (Some [tt])
         true (@fresh toy 3) = (w, Ok l) /\
    best l = Fin mse /\
    saved w
    = saved (@fresh toy 3)
      ++ (estimators_ (self_ (@fresh toy 3)) ++ [first]) :: later.
Proof.
  apply (@regressor_saves_first_snapshot toy (repeat tt 10) 0.1 ClipNone 0.0005
           6 Adam 100 (Some [tt]) (@fresh toy 3)).
  - exact toy_config_accepted.
  - simpl. lia.
  - discriminate.
  - reflexivity.
Defined.

(** ** More on the clipper *)

Lemma clip_group_clamp (lo hi r : R) :
  clip_group lo hi r = Rmin (Rmax r lo) hi.
Proof.
  unfold clip_group, Rgtb, Rltb, Rmin, Rmax.
  destruct (Rlt_dec r lo), (Rle_dec r lo); try lra;
    repeat match goal with
           | |- context [Rlt_dec ?a ?b] => destruct (Rlt_dec a b)
           | |- context [Rle_dec ?a ?b] => destruct (Rle_dec a b)
           end; lra.
Qed.

Lemma clamp_idempotent (lo hi r : R) :
  Rmin (Rmax (Rmin (Rmax r lo) hi) lo) hi = Rmin (Rmax r lo) hi.
Proof.
  unfold Rmin, Rmax.
  repeat (match goal with
          | |- context [Rle_dec ?a ?b] =>
              is_var a; is_var b; destruct (Rle_dec a b)
          end; cbv beta iota); lra.
Qed.

(** X9. For any two-element [lr_clip], in order or not, [_clip_lr] sets
    every parameter group's rate [r] to [min(max(r, lo), hi)] and keeps the
    number of groups and the optimizer's other state; clipping twice is
    clipping once; and with the bounds inverted or equal ([hi <= lo]) every
    rate becomes [hi]. *)
Theorem clip_lr_clamps {B : Type} (opt : Optimizer B) (lr_clip : LrClip)
  (lo hi : R) :
  is_bound lr_clip lo hi ->
  let clamped :=
    mkOptimizer (map (fun r => Rmin (Rmax r lo) hi) (param_groups opt))
                (buffers opt) in
  _clip_lr opt lr_clip = Ok clamped /\
  _clip_lr clamped lr_clip = Ok clamped /\
  length (param_groups clamped) = length (param_groups opt) /\
  ((hi <= lo)%R -> param_groups clamped = map (fun _ => hi) (param_groups opt)).
Proof.
  intros Hb clamped.
  assert (Hmap : forall rs, map (clip_group lo hi) rs
                            = map (fun r => Rmin (Rmax r lo) hi) rs)
    by (intros rs; apply map_ext; intros; apply clip_group_clamp).
  split; [rewrite (clip_lr_bound _ Hb), Hmap; reflexivity |].
  split.
  - rewrite (clip_lr_bound _ Hb), Hmap. unfold clamped. cbn [param_groups buffers].
    f_equal. f_equal. rewrite map_map. apply map_ext. intros r.
    apply clamp_idempotent.
  - split; [unfold clamped; cbn [param_groups]; apply length_map |].
    intros Hinv. unfold clamped. cbn [param_groups]. apply map_ext. intros r.
    unfold Rmin, Rmax.
    repeat (match goal with
            | |- context [Rle_dec ?a ?b] =>
                is_var a; is_var b; destruct (Rle_dec a b)
            end; cbv beta iota); lra.
Qed.

Lemma clip_lr_clamps_witness :
  @_clip_lr unit (mkOptimizer [0.125; 0.5; 1]%R tt) (ClipList [0.75; 0.25]%R)
  = Ok (mkOptimizer (map (fun r => Rmin (Rmax r 0.75) 0.25) [0.125; 0.5; 1]%R)
                    tt) /\
  @_clip_lr unit
    (mkOptimizer (map (fun r => Rmin (Rmax r 0.75) 0.25) [0.125; 0.5; 1]%R) tt)
    (ClipList [0.75; 0.25]%R)
  = Ok (mkOptimizer (map (fun r => Rmin (Rmax r 0.75) 0.25) [0.125; 0.5; 1]%R)
                    tt) /\
  length (map (fun r => Rmin (Rmax r 0.75) 0.25) [0.125; 0.5; 1]%R)
  = length [0.125; 0.5; 1]%R /\
  ((0.25 <= 0.75)%R ->
   map (fun r => Rmin (Rmax r 0.75) 0.25) [0.125; 0.5; 1]%R
   = map (fun _ => 0.25%R) [0.125; 0.5; 1]%R).
Proof.
  apply (@clip_lr_clamps unit (mkOptimizer [0.125; 0.5; 1]%R tt)
           (ClipList [0.75; 0.25]%R) 0.75 0.25).
  left. reflexivity.
Defined.

(** ** More on the predictor *)

Lemma Rsum_exp_nonneg (row : list R) : (0 <= Rsum (map exp row))%R.
Proof.
  induction row as [| x row IH]; simpl; [lra |].
  pose proof (exp_pos x). lra.
Qed.

Lemma Rsum_exp_pos (row : list R) : row <> [] -> (0 < Rsum (map exp row))%R.
Proof.
  destruct row as [| x row]; [congruence |]. intros _. simpl.
  pose proof (exp_pos x). pose proof (Rsum_exp_nonneg row). lra.
Qed.

Lemma exp_le_Rsum (row : list R) (x : R) :
  In x row -> (exp x <= Rsum (map exp row))%R.
Proof.
  induction row as [| y row IH]; simpl; [contradiction |].
  intros [-> | Hin].
  - pose proof (Rsum_exp_nonneg row). lra.
  - pose proof (exp_pos y). specialize (IH Hin). lra.
Qed.

Lemma Rsum_map_div (f : R -> R) (row : list R) (z : R) :
  Rsum (map (fun x => (f x / z)%R) row) = (Rsum (map f row) / z)%R.
Proof.
  induction row as [| x row IH]; simpl.
  - unfold Rdiv. ring.
  - rewrite IH. unfold Rdiv. ring.
Qed.

Lemma softmax_row_distribution (row : list R) :
  row <> [] -> distribution (softmax_row row).
Proof.
  intros Hne. pose proof (Rsum_exp_pos Hne) as Hz.
  unfold distribution, softmax_row. split.
  - apply Forall_map, Forall_forall. intros x Hin.
    pose proof (exp_pos x). pose proof (exp_le_Rsum row x Hin).
    split.
    + apply Rdiv_lt_0_compat; assumption.
    + apply Rmult_le_reg_r with (Rsum (map exp row)); [assumption |].
      unfold Rdiv. rewrite Rmult_assoc, Rinv_l by lra. lra.
  - rewrite Rsum_map_div. field. lra.
Qed.

Lemma shape_softmax (t : Tensor) (rows cols : nat) :
  shape t rows cols -> shape (softmax t) rows cols.
Proof.
  intros [Hl Hr]. unfold shape, softmax. split; [now rewrite length_map |].
  apply Forall_map. eapply Forall_impl; [| exact Hr].
  intros row Hrow. unfold softmax_row. now rewrite length_map.
Qed.





Lemma zip_with_map_r {A B C : Type} (f : A -> B -> C) (g : A -> B) (l : list A) :
  zip_with f l (map g l) = map (fun x => f x (g x)) l.
Proof. induction l as [| x l IH]; simpl; [reflexivity | now rewrite IH]. Qed.

Lemma tensor_sum_repeat (t : Tensor) (rows cols k : nat) :
  shape t rows cols ->
  tensor_sum rows cols (repeat t k) = map (map (fun x => (INR k * x)%R)) t.
Proof.
  intros Hs. induction k as [| k IH].
  - cbn [repeat tensor_sum fold_right].
    destruct Hs as [Hl Hr]. subst rows. unfold zeros.
    induction Hr as [| row t Hrow _ IHt]; simpl; [reflexivity |].
    rewrite IHt. f_equal. subst cols. clear.
    induction row as [| x row IHr]; simpl; [reflexivity |].
    rewrite IHr. f_equal. ring.
  - cbn [repeat tensor_sum fold_right]. fold (tensor_sum rows cols (repeat t k)).
    rewrite IH. unfold tensor_add. rewrite zip_with_map_r.
    apply map_ext. intros row. rewrite zip_with_map_r.
    apply map_ext. intros x. rewrite S_INR. ring.
Qed.

Section MorePredictor.
Context `{Collaborators}.

(** X10. On snapshots whose outputs have the accumulator's shape, and with
    at least one output column, the classifier's prediction has [len(X)]
    rows of [n_outputs] entries and every row is a probability
    distribution: entries in (0, 1] that sum to one. This holds for an
    empty collection too. *)
Theorem classifier_forward_distribution (self : Ensemble Model) (X : Tensor)
  (n : nat) :
  n_outputs self = Some n ->
  (0 < n)%nat ->
  Forall (fun e => shape (estimator_forward e X) (length X) n) (estimators_ self) ->
  exists proba,
    SnapshotEnsembleClassifier.forward self X = Ok proba /\
    shape proba (length X) n /\
    Forall distribution proba.
Proof.
  intros Hn Hpos Hshape.
  unfold SnapshotEnsembleClassifier.forward.
  rewrite (forward_as_sum _ _ Hn Hshape). cbn [bind].
  assert (Hmean : shape (tensor_mean (length X) n
                           (map (fun e => estimator_forward e X)
                                (estimators_ self))) (length X) n).
  { unfold tensor_mean. apply shape_div, shape_tensor_sum, Forall_map.
    exact Hshape. }
  eexists. split; [reflexivity |]. split; [now apply shape_softmax |].
  destruct Hmean as [_ Hrows]. unfold softmax. apply Forall_map.
  eapply Forall_impl; [| exact Hrows].
  intros row Hrow. apply softmax_row_distribution.
  intros ->. simpl in Hrow. lia.
Qed.


(** X12. If all the snapshots of a non-empty collection give the same
    output on [X] (in particular if there is just one), [_forward] returns
    that output: averaging does not distort a unanimous prediction. *)
Theorem forward_unanimous (self : Ensemble Model) (X t : Tensor) (n : nat) :
  n_outputs self = Some n ->
  estimators_ self <> [] ->
  shape t (length X) n ->
  Forall (fun e => estimator_forward e X = t) (estimators_ self) ->
  _forward self X = Ok t /\
  SnapshotEnsembleRegressor.forward self X = Ok t /\
  SnapshotEnsembleClassifier.forward self X = Ok (softmax t).
Proof.
  intros Hn Hne Ht Hsame.
  assert (Hf : _forward self X = Ok t).
  { rewrite (@forward_as_sum _ self X n Hn).
    2: { eapply Forall_impl; [| exact Hsame]. intros e ->. exact Ht. }
    f_equal. unfold tensor_mean. rewrite length_map.
    assert (Hrep : map (fun e => estimator_forward e X) (estimators_ self)
                   = repeat t (length (estimators_ self))).
    { clear Hne. induction Hsame as [| e es He _ IH]; simpl;
        [reflexivity | now rewrite He, IH]. }
    rewrite Hrep, (tensor_sum_repeat _ Ht).
    assert (Hk : (INR (length (estimators_ self)) <> 0)%R).
    { apply not_0_INR. destruct (estimators_ self); [congruence | discriminate]. }
    unfold tensor_div. rewrite map_map.
    rewrite <- (map_id t) at 2. apply map_ext. intros row.
    rewrite map_map. rewrite <- (map_id row) at 2. apply map_ext. intros x.
    field. exact Hk. }
  unfold SnapshotEnsembleRegressor.forward, SnapshotEnsembleClassifier.forward.
  rewrite Hf. auto.
Qed.

End MorePredictor.

Lemma classifier_forward_distribution_witness :
  exists proba,
    @SnapshotEnsembleClassifier.forward toy (mkEnsemble 2 (Some 2%nat) [3; 5]%Z)
                                        [[1]; [2]]%R = Ok proba /\
    shape proba (length [[1]; [2]]%R) 2 /\
    Forall distribution proba.
Proof.
  apply (@classifier_forward_distribution toy
           (mkEnsemble 2 (Some 2%nat) [3; 5]%Z) [[1]; [2]]%R 2).
  - reflexivity.
  - lia.
  - repeat constructor.
Defined.


Lemma forward_unanimous_witness :
  @_forward toy (mkEnsemble 2 (Some 2%nat) [3; 3]%Z) [[1]; [2]]%R
  = Ok [[3; 0]; [3; 0]]%R /\
  @SnapshotEnsembleRegressor.forward toy (mkEnsemble 2 (Some 2%nat) [3; 3]%Z)
                                     [[1]; [2]]%R
  = Ok [[3; 0]; [3; 0]]%R /\
  @SnapshotEnsembleClassifier.forward toy (mkEnsemble 2 (Some 2%nat) [3; 3]%Z)
                                      [[1]; [2]]%R
  = Ok (softmax [[3; 0]; [3; 0]]%R).
Proof.
  apply (@forward_unanimous toy (mkEnsemble 2 (Some 2%nat) [3; 3]%Z)
           [[1]; [2]]%R [[3; 0]; [3; 0]]%R 2).
  - reflexivity.
  - discriminate.
  - repeat constructor.
  - repeat constructor.
Defined.

(** ** The documentation decorator *)

Section DocumentationFacts.
Import String.

Lemma concat_empty_cons (x : string) (xs : list string) :
  String.concat EmptyString (x :: xs)
  = String.append x (String.concat EmptyString xs).
Proof.
  destruct xs as [| y xs]; simpl.
  - clear. induction x as [| c x IH]; simpl; [reflexivity | now rewrite <- IH].
  - reflexivity.
Qed.

Lemma concat_characters (text : string) :
  String.concat EmptyString (characters text) = text.
Proof.
  unfold characters. induction text as [| c text IH].
  - reflexivity.
  - cbn [list_ascii_of_string map]. rewrite concat_empty_cons, IH. reflexivity.
Qed.

(** X13. The decorator extends the documentation character by character
    and joins it back, which loses nothing: for the item ["fit"], the only
    key of its table, the [__doc__] it assigns is the header, two newlines
    and the shared text, and for any other item the lookup raises
    [KeyError]. *)
Theorem snapshot_ensemble_model_doc_text (fit_doc header item : string) :
  _snapshot_ensemble_model_doc fit_doc header item
  = if String.eqb item "fit"
    then Doc (String.append header
                (String.append newline (String.append newline fit_doc)))
    else KeyError item.
Proof.
  unfold _snapshot_ensemble_model_doc.
  destruct (String.eqb item "fit"); [| reflexivity].
  f_equal. cbn [app]. rewrite concat_empty_cons, concat_characters.
  clear. induction header as [| c header IH].
  - reflexivity.
  - cbn [String.append]. f_equal. exact IH.
Qed.

End DocumentationFacts.

(** ** Evaluation *)

Lemma argmax_rows_acc (t : Tensor) (acc : list nat) :
  for_each t (fun row pred => i <- argmax row ;; Ok (pred ++ [i])) acc
  = p <- argmax_rows t ;; Ok (acc ++ p).
Proof.
  unfold argmax_rows. revert acc.
  induction t as [| row t IH]; intros acc; cbn [for_each bind].
  - now rewrite app_nil_r.
  - destruct (argmax row) as [i | e]; cbn [bind]; [| reflexivity].
    rewrite (IH (acc ++ [i])), (IH ([] ++ [i])).
    destruct (for_each t _ []) as [p | e]; cbn [bind]; [| reflexivity].
    now rewrite <- app_assoc.
Qed.

Lemma argmax_rows_cons (row : list R) (t : Tensor) :
  argmax_rows (row :: t)
  = i <- argmax row ;; p <- argmax_rows t ;; Ok (i :: p).
Proof.
  unfold argmax_rows at 1. cbn [for_each bind].
  destruct (argmax row) as [i | e]; cbn [bind]; [| reflexivity].
  now rewrite argmax_rows_acc.
Qed.

Lemma argmax_rows_ok (t : Tensor) :
  Forall (fun row => row <> []) t ->
  exists pred, argmax_rows t = Ok pred /\ length pred = length t.
Proof.
  induction 1 as [| row t Hrow _ (pred & Hp & Hl)].
  - now exists [].
  - rewrite argmax_rows_cons, Hp.
    destruct row as [| x row]; [congruence |]. cbn [argmax bind].
    eexists. split; [reflexivity |]. simpl. now rewrite Hl.
Qed.

Lemma argmax_rows_ext (t t' : Tensor) :
  Forall2 (fun row row' => argmax row = argmax row') t t' ->
  argmax_rows t = argmax_rows t'.
Proof.
  induction 1 as [| row row' t t' Hrow _ IH]; [reflexivity |].
  now rewrite !argmax_rows_cons, Hrow, IH.
Qed.

Lemma Rltb_increasing (f : R -> R) (x y : R) :
  (forall a b, (a < b)%R -> (f a < f b)%R) ->
  Rltb (f x) (f y) = Rltb x y.
Proof.
  intros Hf. destruct (Rltb x y) eqn:Hxy.
  - apply Rltb_true. apply Hf. now apply Rltb_true.
  - apply Rltb_false. apply Rltb_false in Hxy.
    destruct Hxy as [Hlt | ->]; [left; now apply Hf | right; reflexivity].
Qed.

Lemma argmax_from_increasing (f : R -> R) (row : list R) (bi : nat) (b : R)
  (i : nat) :
  (forall a b, (a < b)%R -> (f a < f b)%R) ->
  argmax_from bi (f b) i (map f row) = argmax_from bi b i row.
Proof.
  intros Hf. revert bi b i.
  induction row as [| x row IH]; intros bi b i; simpl; [reflexivity |].
  rewrite Rltb_increasing by exact Hf. destruct (Rltb b x); apply IH.
Qed.

Lemma argmax_increasing (f : R -> R) (row : list R) :
  (forall a b, (a < b)%R -> (f a < f b)%R) ->
  argmax (map f row) = argmax row.
Proof.
  intros Hf. destruct row as [| x row]; [reflexivity |]. simpl.
  now rewrite argmax_from_increasing by exact Hf.
Qed.

Lemma argmax_softmax_row (row : list R) : argmax (softmax_row row) = argmax row.
Proof.
  destruct row as [| x row]; [reflexivity |].
  unfold softmax_row. apply argmax_increasing.
  intros a b Hab.
  assert (Hz : (0 < Rsum (map exp (x :: row)))%R)
    by (apply Rsum_exp_pos; discriminate).
  unfold Rdiv. apply Rmult_lt_compat_r; [now apply Rinv_0_lt_compat |].
  now apply exp_increasing.
Qed.

Lemma argmax_rows_softmax (t : Tensor) :
  argmax_rows (softmax t) = argmax_rows t.
Proof.
  apply argmax_rows_ext. unfold softmax.
  induction t as [| row t IH]; simpl; constructor;
    [apply argmax_softmax_row | exact IH].
Qed.

Lemma argmax_rows_div (t : Tensor) (c : R) :
  (0 < c)%R -> argmax_rows (tensor_div t c) = argmax_rows t.
Proof.
  intros Hc. apply argmax_rows_ext. unfold tensor_div.
  induction t as [| row t IH]; simpl; constructor; [| exact IH].
  apply argmax_increasing. intros a b Hab.
  unfold Rdiv. apply Rmult_lt_compat_r; [now apply Rinv_0_lt_compat | exact Hab].
Qed.

Lemma zip_with_length_le {A B C : Type} (f : A -> B -> C) (a : list A)
  (b : list B) :
  (length (zip_with f a b) <= length a)%nat.
Proof.
  revert b. induction a as [| x a IH]; intros [| y b]; simpl; try lia.
  specialize (IH b). lia.
Qed.

Lemma count_equal_bounds (pred : list nat) (target : list Z) :
  (0 <= count_equal pred target <= Z.of_nat (length pred))%Z.
Proof.
  unfold count_equal. split; [lia |].
  apply inj_le. etransitivity; [apply filter_length_le |].
  apply zip_with_length_le.
Qed.

Lemma Rsum_app (xs ys : list R) : Rsum (xs ++ ys) = (Rsum xs + Rsum ys)%R.
Proof. induction xs as [| x xs IH]; simpl; [lra | rewrite IH; lra]. Qed.

Lemma Rsum_squares_nonneg (a b : list R) :
  (0 <= Rsum (zip_with (fun o t => ((o - t) * (o - t))%R) a b))%R.
Proof.
  revert b. induction a as [| x a IH]; intros [| y b]; simpl; try lra.
  specialize (IH b).
  pose proof (Rle_0_sqr (x - y)) as Hs. unfold Rsqr in Hs. lra.
Qed.

Lemma Rsum_squared_errors_nonneg (output target : Tensor) :
  (0 <= Rsum (squared_errors output target))%R.
Proof.
  unfold squared_errors. revert target.
  induction output as [| r output IH]; intros [| r' target]; simpl; try lra.
  rewrite Rsum_app. specialize (IH target).
  pose proof (Rsum_squares_nonneg r r'). lra.
Qed.

Lemma length_squared_errors (output target : Tensor) (rows cols : nat) :
  shape output rows cols -> shape target rows cols ->
  length (squared_errors output target) = (rows * cols)%nat.
Proof.
  unfold squared_errors. intros [Hl Hr] [Hl' Hr']. subst rows.
  revert target Hl' Hr'.
  induction Hr as [| r output Hrow _ IH]; intros [| r' target] Hl' Hr';
    simpl in *; try discriminate; [reflexivity |].
  inversion Hr' as [| ? ? Hrow' Hrest]; subst.
  rewrite length_app, zip_with_length by congruence.
  rewrite (IH target) by (congruence || assumption). reflexivity.
Qed.

Section PredictFacts.
Context `{Collaborators}.

Lemma forward_shaped (self : Ensemble Model) (X : Tensor) (n : nat) :
  n_outputs self = Some n -> batch_shaped self n X ->
  exists output,
    _forward self X = Ok output /\ shape output (length X) n.
Proof.
  intros Hn Hshape. rewrite (forward_as_sum _ _ Hn Hshape).
  eexists. split; [reflexivity |].
  unfold tensor_mean. apply shape_div, shape_tensor_sum, Forall_map.
  exact Hshape.
Qed.

Lemma forward_fitted (self : Ensemble Model) (X : Tensor) :
  n_outputs self <> None -> exists output, _forward self X = Ok output.
Proof.
  intros Hn. unfold _forward. destruct (n_outputs self); [| congruence].
  eexists. reflexivity.
Qed.

(** X14. An ensemble as the constructor leaves it, never fitted, cannot
    evaluate: the constructor accepts only a class, builds an ensemble with
    no snapshot and no [n_outputs], and on it both predictors and both
    [predict] methods, given at least one test batch, raise
    [AttributeError]. *)
Theorem predict_before_fit (estimator : EstimatorArg Model) (n : Z)
  (self : Ensemble Model) (X : Tensor)
  (test_c : DataLoader (list Z)) (test_r : DataLoader Tensor) :
  __init__ estimator n = Built self ->
  loader_batches_ test_c <> [] ->
  loader_batches_ test_r <> [] ->
  estimator = AClass /\
  n_estimators self = n /\ estimators_ self = [] /\
  SnapshotEnsembleClassifier.forward self X = Raise AttributeError /\
  SnapshotEnsembleRegressor.forward self X = Raise AttributeError /\
  classifier_predict self test_c = Raise AttributeError /\
  regressor_predict self test_r = Raise AttributeError.
Proof.
  intros Hinit Hc Hr. destruct estimator as [| m]; [| discriminate].
  injection Hinit as <-. repeat split.
  - unfold classifier_predict.
    destruct (loader_batches_ test_c) as [| [data target] rest]; [congruence |].
    reflexivity.
  - unfold regressor_predict.
    destruct (loader_batches_ test_r) as [| [data target] rest]; [congruence |].
    reflexivity.
Qed.

Lemma regressor_loop_fitted (self : Ensemble Model)
  (batches : list (Tensor * Tensor)) (mse : R) :
  n_outputs self <> None ->
  exists mse',
    for_each batches
      (fun batch mse =>
         let '(data, target) := batch in
         output <- SnapshotEnsembleRegressor.forward self data ;;
         Ok (mse + mse_loss output target)%R) mse = Ok mse'.
Proof.
  intros Hn. revert mse.
  induction batches as [| [data target] batches IH]; intros mse;
    cbn [for_each].
  - now exists mse.
  - destruct (forward_fitted self data Hn) as (output & Hf).
    assert (Hfw : SnapshotEnsembleRegressor.forward self data = Ok output)
      by (unfold SnapshotEnsembleRegressor.forward; now rewrite Hf).
    rewrite Hfw. cbn [bind]. apply IH.
Qed.

Lemma regressor_loop_unfitted (self : Ensemble Model)
  (batches : list (Tensor * Tensor)) (mse : R) :
  n_outputs self = None -> batches <> [] ->
  for_each batches
    (fun batch mse =>
       let '(data, target) := batch in
       output <- SnapshotEnsembleRegressor.forward self data ;;
       Ok (mse + mse_loss output target)%R) mse = Raise AttributeError.
Proof.
  intros Hn Hne. destruct batches as [| [data target] batches]; [congruence |].
  cbn [for_each]. unfold SnapshotEnsembleRegressor.forward, _forward.
  now rewrite Hn.
Qed.

(** X15. On a test loader whose batches every snapshot answers in the
    shape of the accumulator, with targets of that shape, the regressor's
    [predict] returns a value exactly when the loader yields at least one
    batch and the ensemble has been through [fit] (its [n_outputs] is
    assigned). With no batch it raises [ZeroDivisionError], fitted or not;
    with a batch on an unfitted ensemble it raises [AttributeError]. *)
Theorem regressor_predict_returns_iff (self : Ensemble Model)
  (test_loader : DataLoader Tensor) :
  answered self test_loader ->
  ((exists mse, regressor_predict self test_loader = Ok mse) <->
   loader_batches_ test_loader <> [] /\ n_outputs self <> None) /\
  (loader_batches_ test_loader = [] ->
   regressor_predict self test_loader = Raise ZeroDivisionError) /\
  (loader_batches_ test_loader <> [] -> n_outputs self = None ->
   regressor_predict self test_loader = Raise AttributeError).
Proof.
  intros _.
  assert (Hempty : loader_batches_ test_loader = [] ->
                   regressor_predict self test_loader = Raise ZeroDivisionError).
  { intros He. unfold regressor_predict. now rewrite He. }
  assert (Hunfit : loader_batches_ test_loader <> [] -> n_outputs self = None ->
                   regressor_predict self test_loader = Raise AttributeError).
  { intros Hne Hn. unfold regressor_predict.
    now rewrite (regressor_loop_unfitted self 0 Hn Hne). }
  split; [| split; assumption].
  split.
  - intros (mse & Hok).
    destruct (loader_batches_ test_loader) as [| b bs] eqn:Hb.
    + rewrite Hempty in Hok by reflexivity. discriminate.
    + split; [discriminate |]. intros Hn.
      rewrite Hunfit in Hok by (assumption || discriminate). discriminate.
  - intros [Hne Hn]. unfold regressor_predict.
    destruct (regressor_loop_fitted self (loader_batches_ test_loader) 0 Hn)
      as (mse & ->). cbn [bind].
    destruct (loader_batches_ test_loader); [congruence |]. simpl.
    eexists. reflexivity.
Qed.

Lemma classifier_loop (self : Ensemble Model) (n : nat)
  (batches : list (Tensor * list Z)) (correct : Z) :
  n_outputs self = Some n -> (0 < n)%nat ->
  Forall (fun batch => batch_shaped self n (fst batch) /\
                       length (snd batch) = length (fst batch)) batches ->
  exists correct',
    for_each batches
      (fun batch correct =>
         let '(data, target) := batch in
         output <- SnapshotEnsembleClassifier.forward self data ;;
         pred <- argmax_rows output ;;
         Ok (correct + count_equal pred target)%Z) correct = Ok correct' /\
    (correct <= correct'
     <= correct + Z.of_nat (length (concat (map fst batches))))%Z.
Proof.
  intros Hn Hpos Hall. revert correct.
  induction Hall as [| [data target] batches [Hshape Hlen] _ IH];
    intros correct; cbn [for_each].
  - exists correct. split; [reflexivity |]. cbn [map concat length]. lia.
  - cbn [fst snd] in Hshape, Hlen.
    destruct (forward_shaped Hn Hshape) as (output & Hf & Hout).
    assert (Hfw : SnapshotEnsembleClassifier.forward self data
                  = Ok (softmax output))
      by (unfold SnapshotEnsembleClassifier.forward; now rewrite Hf).
    rewrite Hfw. cbn [bind].
    destruct (argmax_rows_ok (t := softmax output)) as (pred & -> & Hp).
    { apply shape_softmax in Hout. destruct Hout as [_ Hrows].
      eapply Forall_impl; [| exact Hrows].
      intros row Hrow ->. simpl in Hrow. lia. }
    cbn [bind].
    destruct (IH (correct + count_equal pred target)%Z) as (c' & -> & Hc').
    exists c'. split; [reflexivity |].
    pose proof (count_equal_bounds pred target) as Hb.
    unfold softmax in Hp. rewrite length_map in Hp.
    destruct Hout as [Hrows _].
    cbn [map fst concat]. rewrite length_app. lia.
Qed.

(** X16. On a fitted classifier with at least one output column and a
    test loader whose dataset size is the number of samples it yields (not
    zero), each batch answered in shape and carrying one label per sample,
    [predict] returns [100 * correct / size] for a count of correct
    predictions between 0 and the size: an accuracy between 0 and 100. *)
Theorem classifier_predict_accuracy (self : Ensemble Model) (n : nat)
  (test_loader : DataLoader (list Z)) :
  n_outputs self = Some n -> (0 < n)%nat ->
  labelled self n test_loader ->
  dataset_size test_loader = samples test_loader ->
  (0 < samples test_loader)%Z ->
  exists correct,
    classifier_predict self test_loader
    = Ok (100 * IZR correct / IZR (dataset_size test_loader))%R /\
    (0 <= correct <= dataset_size test_loader)%Z /\
    (0 <= 100 * IZR correct / IZR (dataset_size test_loader) <= 100)%R.
Proof.
  intros Hn Hpos Hall Hsize Hsamples. unfold classifier_predict.
  destruct (classifier_loop 0 Hn Hpos Hall)
    as (correct & -> & Hc). cbn [bind].
  fold (samples test_loader) in Hc. rewrite <- Hsize in Hc, Hsamples.
  destruct (dataset_size test_loader =? 0)%Z eqn:Hz; [lia |].
  exists correct. split; [reflexivity |]. split; [lia |].
  assert (Hs : (0 < IZR (dataset_size test_loader))%R) by now apply IZR_lt.
  assert (H0 : (0 <= IZR correct)%R) by (apply IZR_le; lia).
  assert (H1 : (IZR correct <= IZR (dataset_size test_loader))%R)
    by (apply IZR_le; lia).
  split.
  - apply Rmult_le_reg_r with (IZR (dataset_size test_loader)); [exact Hs |].
    unfold Rdiv. rewrite Rmult_assoc, Rinv_l by lra. lra.
  - apply Rmult_le_reg_r with (IZR (dataset_size test_loader)); [exact Hs |].
    unfold Rdiv. rewrite Rmult_assoc, Rinv_l by lra. lra.
Qed.

(** X17. The labels [predict] compares with the targets are those of the
    summed raw outputs: on a non-empty collection answering [X] in shape,
    the first greatest entry of each row of the classifier's prediction
    is at the index of the first greatest entry of the same row of the
    elementwise sum of the snapshots' outputs. Neither the division by the
    number of snapshots nor the softmax changes a label. *)
Theorem classifier_label_is_argmax_of_sum (self : Ensemble Model) (X : Tensor)
  (n : nat) :
  n_outputs self = Some n ->
  estimators_ self <> [] ->
  batch_shaped self n X ->
  (proba <- SnapshotEnsembleClassifier.forward self X ;; argmax_rows proba)
  = argmax_rows (tensor_sum (length X) n
                   (map (fun e => estimator_forward e X) (estimators_ self))).
Proof.
  intros Hn Hne Hshape. unfold SnapshotEnsembleClassifier.forward.
  rewrite (forward_as_sum _ _ Hn Hshape). cbn [bind].
  rewrite argmax_rows_softmax. unfold tensor_mean.
  apply argmax_rows_div. rewrite length_map. apply lt_0_INR.
  destruct (estimators_ self); [congruence | simpl; lia].
Qed.

Lemma regressor_loop (self : Ensemble Model) (rows n : nat)
  (batches : list (Tensor * Tensor)) (mse : R) :
  n_outputs self = Some n ->
  Forall (fun batch => batch_shaped self n (fst batch) /\
                       length (fst batch) = rows /\
                       shape (snd batch) rows n) batches ->
  exists outputs,
    Forall2 (fun batch output =>
               SnapshotEnsembleRegressor.forward self (fst batch) = Ok output)
            batches outputs /\
    for_each batches
      (fun batch mse =>
         let '(data, target) := batch in
         output <- SnapshotEnsembleRegressor.forward self data ;;
         Ok (mse + mse_loss output target)%R) mse
    = Ok (mse + Rsum (pooled_errors outputs (map snd batches))
                / INR (rows * n))%R /\
    length (pooled_errors outputs (map snd batches))
    = (length batches * (rows * n))%nat.
Proof.
  intros Hn Hall. revert mse.
  induction Hall as [| [data target] batches (Hshape & Hrows & Htarget) _ IH];
    intros mse; cbn [for_each].
  - exists []. split; [constructor |]. split; [| reflexivity].
    unfold pooled_errors. simpl. f_equal. unfold Rdiv. ring.
  - cbn [fst snd] in Hshape, Hrows, Htarget.
    destruct (forward_shaped Hn Hshape) as (output & Hf & Hout).
    assert (Hfw : SnapshotEnsembleRegressor.forward self data = Ok output)
      by (unfold SnapshotEnsembleRegressor.forward; now rewrite Hf).
    rewrite Hfw. cbn [bind]. rewrite Hrows in Hout.
    pose proof (length_squared_errors Hout Htarget) as Hlen.
    destruct (IH (mse + mse_loss output target)%R) as (outputs & Hfs & -> & Hl).
    exists (output :: outputs). split; [| split].
    + constructor; [exact Hfw | exact Hfs].
    + f_equal. unfold pooled_errors in *. cbn [map snd zip_with concat].
      rewrite Rsum_app. unfold mse_loss. rewrite Hlen. unfold Rdiv. ring.
    + unfold pooled_errors in *. cbn [map snd zip_with concat length].
      rewrite length_app, Hlen, Hl. lia.
Qed.

(** X18. On a fitted regressor and a test loader of at least one batch,
    all batches of the same non-zero number of samples with targets of
    the outputs' shape, [predict] returns the mean squared error over the
    whole test set: the sum of the squared differences between the
    predictions and the targets of all the batches, divided by their
    number. It is not negative. *)
Theorem regressor_predict_equal_batches (self : Ensemble Model) (rows n : nat)
  (test_loader : DataLoader Tensor) :
  n_outputs self = Some n ->
  (0 < rows)%nat -> (0 < n)%nat ->
  loader_batches_ test_loader <> [] ->
  targeted self rows n test_loader ->
  exists outputs,
    Forall2 (fun batch output =>
               SnapshotEnsembleRegressor.forward self (fst batch) = Ok output)
            (loader_batches_ test_loader) outputs /\
    regressor_predict self test_loader
    = Ok (Rsum (pooled_errors outputs (map snd (loader_batches_ test_loader)))
          / INR (length (pooled_errors outputs
                           (map snd (loader_batches_ test_loader)))))%R /\
    (0 <= Rsum (pooled_errors outputs (map snd (loader_batches_ test_loader)))
          / INR (length (pooled_errors outputs
                           (map snd (loader_batches_ test_loader)))))%R.
Proof.
  intros Hn Hrows Hcols Hne Hall. unfold regressor_predict.
  destruct (regressor_loop 0 Hn Hall) as (outputs & Hfs & -> & Hl).
  exists outputs. split; [exact Hfs |]. cbn [bind].
  destruct (loader_batches_ test_loader) as [| b bs] eqn:Hb; [congruence |].
  rewrite <- Hb in *. clear Hb b bs.
  assert (Hk : (0 < length (loader_batches_ test_loader))%nat).
  { destruct (loader_batches_ test_loader); [congruence | simpl; lia]. }
  assert (Hk' : (0 < INR (length (loader_batches_ test_loader)))%R)
    by now apply lt_0_INR.
  assert (Hr' : (0 < INR rows)%R) by now apply lt_0_INR.
  assert (Hc' : (0 < INR n)%R) by now apply lt_0_INR.
  destruct (Nat.eqb_spec (length (loader_batches_ test_loader)) 0) as [E | _];
    [lia |].
  rewrite Hl, !mult_INR.
  assert (Hnonneg :
            (0 <= Rsum (pooled_errors outputs
                          (map snd (loader_batches_ test_loader))))%R).
  { clear. unfold pooled_errors.
    generalize (map snd (loader_batches_ test_loader)) as targets.
    induction outputs as [| o outputs IH]; intros [| t targets]; simpl;
      try lra.
    rewrite Rsum_app. specialize (IH targets).
    pose proof (Rsum_squared_errors_nonneg o t). lra. }
  split.
  - apply f_equal. field. lra.
  - assert (Hd : (0 < INR (length (loader_batches_ test_loader))
                      * (INR rows * INR n))%R)
      by (repeat apply Rmult_lt_0_compat; assumption).
    apply Rmult_le_reg_r
      with (INR (length (loader_batches_ test_loader)) * (INR rows * INR n))%R;
      [exact Hd |].
    unfold Rdiv. rewrite Rmult_assoc, Rinv_l by lra. lra.
Qed.

End PredictFacts.

Lemma predict_before_fit_witness :
  @AClass Z = AClass /\
  n_estimators (mkEnsemble 2 None (@nil Z)) = 2%Z /\
  estimators_ (mkEnsemble 2 None (@nil Z)) = [] /\
  @SnapshotEnsembleClassifier.forward toy (mkEnsemble 2 None []) [[1]]%R
  = Raise AttributeError /\
  @SnapshotEnsembleRegressor.forward toy (mkEnsemble 2 None []) [[1]]%R
  = Raise AttributeError /\
  @classifier_predict toy (mkEnsemble 2 None [])
     (mkDataLoader [([[1]]%R, [0%Z])] 1)
  = Raise AttributeError /\
  @regressor_predict toy (mkEnsemble 2 None [])
     (mkDataLoader [([[1]]%R, [[1; 0]]%R)] 1)
  = Raise AttributeError.
Proof.
  apply (@predict_before_fit toy AClass 2 (mkEnsemble 2 None []) [[1]]%R
           (mkDataLoader [([[1]]%R, [0%Z])] 1)
           (mkDataLoader [([[1]]%R, [[1; 0]]%R)] 1)).
  - reflexivity.
  - discriminate.
  - discriminate.
Defined.

Lemma regressor_predict_returns_iff_witness :
  ((exists mse,
      @regressor_predict toy (mkEnsemble 2 (Some 2%nat) [3; 5]%Z)
         (mkDataLoader [([[1]; [2]]%R, [[1; 0]; [2; 0]]%R)] 2) = Ok mse) <->
   loader_batches_ (mkDataLoader [([[1]; [2]]%R, [[1; 0]; [2; 0]]%R)] 2) <> [] /\
   n_outputs (mkEnsemble 2 (Some 2%nat) [3; 5]%Z) <> None) /\
  (loader_batches_ (mkDataLoader [([[1]; [2]]%R, [[1; 0]; [2; 0]]%R)] 2) = [] ->
   @regressor_predict toy (mkEnsemble 2 (Some 2%nat) [3; 5]%Z)
      (mkDataLoader [([[1]; [2]]%R, [[1; 0]; [2; 0]]%R)] 2)
   = Raise ZeroDivisionError) /\
  (loader_batches_ (mkDataLoader [([[1]; [2]]%R, [[1; 0]; [2; 0]]%R)] 2) <> [] ->
   n_outputs (mkEnsemble 2 (Some 2%nat) [3; 5]%Z) = None ->
   @regressor_predict toy (mkEnsemble 2 (Some 2%nat) [3; 5]%Z)
      (mkDataLoader [([[1]; [2]]%R, [[1; 0]; [2; 0]]%R)] 2)
   = Raise AttributeError).
Proof.
  apply (@regressor_predict_returns_iff toy
           (mkEnsemble 2 (Some 2%nat) [3; 5]%Z)
           (mkDataLoader [([[1]; [2]]%R, [[1; 0]; [2; 0]]%R)] 2)).
  intros n Hn. injection Hn as <-. repeat constructor.
Defined.

Lemma classifier_predict_accuracy_witness :
  exists correct,
    @classifier_predict toy (mkEnsemble 2 (Some 2%nat) [3; 5]%Z)
       (mkDataLoader [([[1]; [2]]%R, [0; 1]%Z)] 2)
    = Ok (100 * IZR correct / IZR 2)%R /\
    (0 <= correct <= 2)%Z /\
    (0 <= 100 * IZR correct / IZR 2 <= 100)%R.
Proof.
  apply (@classifier_predict_accuracy toy
           (mkEnsemble 2 (Some 2%nat) [3; 5]%Z) 2
           (mkDataLoader [([[1]; [2]]%R, [0; 1]%Z)] 2)).
  - reflexivity.
  - lia.
  - repeat constructor.
  - reflexivity.
  - reflexivity.
Defined.

Lemma classifier_label_is_argmax_of_sum_witness :
  (proba <- @SnapshotEnsembleClassifier.forward toy
              (mkEnsemble 2 (Some 2%nat) [3; 5]%Z) [[1]; [2]]%R ;;
   argmax_rows proba)
  = argmax_rows
      (tensor_sum (length [[1]; [2]]%R) 2
         (map (fun e => @estimator_forward toy e [[1]; [2]]%R) [3; 5]%Z)).
Proof.
  apply (@classifier_label_is_argmax_of_sum toy
           (mkEnsemble 2 (Some 2%nat) [3; 5]%Z) [[1]; [2]]%R 2).
  - reflexivity.
  - discriminate.
  - repeat constructor.
Defined.

Lemma regressor_predict_equal_batches_witness :
  exists outputs,
    Forall2 (fun batch output =>
               @SnapshotEnsembleRegressor.forward toy
                  (mkEnsemble 2 (Some 2%nat) [3; 5]%Z) (fst batch) = Ok output)
            [([[1]; [2]]%R, [[1; 0]; [2; 0]]%R); ([[3]; [4]]%R, [[4; 0]; [4; 1]]%R)]
            outputs /\
    @regressor_predict toy (mkEnsemble 2 (Some 2%nat) [3; 5]%Z)
       (mkDataLoader
          [([[1]; [2]]%R, [[1; 0]; [2; 0]]%R); ([[3]; [4]]%R, [[4; 0]; [4; 1]]%R)]
          4)
    = Ok (Rsum (pooled_errors outputs
                  [[[1; 0]; [2; 0]]; [[4; 0]; [4; 1]]]%R)
          / INR (length (pooled_errors outputs
                           [[[1; 0]; [2; 0]]; [[4; 0]; [4; 1]]]%R)))%R /\
    (0 <= Rsum (pooled_errors outputs [[[1; 0]; [2; 0]]; [[4; 0]; [4; 1]]]%R)
          / INR (length (pooled_errors outputs
                           [[[1; 0]; [2; 0]]; [[4; 0]; [4; 1]]]%R)))%R.
Proof.
  apply (@regressor_predict_equal_batches toy
           (mkEnsemble 2 (Some 2%nat) [3; 5]%Z) 2 2
           (mkDataLoader
              [([[1]; [2]]%R, [[1; 0]; [2; 0]]%R);
               ([[3]; [4]]%R, [[4; 0]; [4; 1]]%R)] 4)).
  - reflexivity.
  - lia.
  - lia.
  - discriminate.
  - repeat constructor.
Defined.
